(** * zerodisk: cluster routing, LBA shards and the backup block path

    A shallow embedding of the Go sources of the repository:
    - package [ardb] (cluster.go): [NewCluster], [UniCluster], [Cluster],
      [FindFirstServerIndex], [ComputeServerIndex];
    - package [storage] (cluster.go, both revisions): [TemplateCluster];
    - package [lba] (shard.go): [shardFromBytes], [shard.Write];
    - package [backup] (server_driver.go, backup.go): [hashAsDirAndFile],
      [ftpDriver], [inflationBlockFetcher].

    Go's [int64] and [uint64] are integers of [Z] with the wrap-around written
    out, [float64] is Rocq's primitive binary64 float, [[]byte] is a list of
    bytes and a Go [string] is a [string] (a sequence of 8-bit characters). *)

From Stdlib Require Import ZArith Lia Bool List String Ascii Floats.
From Stdlib.Strings Require Import Byte.
From Stdlib Require Uint63.
From stdpp Require Import base option list gmap strings.

Set Warnings "-register-all".

Local Open Scope Z_scope.

#[global] Instance byte_eq_dec : EqDecision byte := Byte.byte_eq_dec.

(** ** Outcomes of a Go call

    A call returns, panics (a run-time error such as an index out of range or
    a division by zero), or is still running when the fuel given to one of its
    unbounded [for] loops is used up. *)

Inductive outcome (A : Type) : Type :=
| Return (a : A)
| Panic (msg : string)
| Timeout.

Arguments Return {A} a.
Arguments Panic {A} msg.
Arguments Timeout {A}.

Definition obind {A B : Type} (m : outcome A) (k : A -> outcome B) : outcome B :=
  match m with
  | Return a => k a
  | Panic msg => Panic msg
  | Timeout => Timeout
  end.

#[global] Instance outcome_ret : MRet outcome := fun A a => Return a.
#[global] Instance outcome_bind : MBind outcome := fun A B k m => obind m k.

(** ** Errors

    The package-level error values of the sources, [io.EOF], the errors built
    on the spot with [errors.New] and [fmt.Errorf], [errors.Wrapf], the
    FTP client's coded errors and the transport errors ([net.Error]) with
    their [Timeout()] and [Temporary()] flags. *)

Inductive error : Type :=
| ErrServerUnavailable
| ErrNoServersAvailable
| ErrServerIndexOOB
| ErrInvalidInput
| ErrServerStateNotSupported
| ErrMethodNotSupported
| ErrClusterNotDefined
| errNilShardWrite
| errInvalidHash
| EOF
| errorString (msg : string)
| ftpError (code : Z) (msg : string)
| netError (timeout temporary : bool) (msg : string)
| Wrapf (cause : error) (msg : string).

(** ** Machine integers *)

Module Int64.

Definition modulus : Z := 2 ^ 64.
Definition min_signed : Z := - 2 ^ 63.
Definition max_signed : Z := 2 ^ 63 - 1.

(** [uint64(x)]: the value modulo 2^64. *)
Definition unsigned (x : Z) : Z := x mod modulus.

(** An [int64] result: the value wrapped into [-2^63, 2^63). *)
Definition signed (x : Z) : Z := (x + 2 ^ 63) mod modulus - 2 ^ 63.

Definition in_range (x : Z) : Prop := min_signed <= x <= max_signed.

End Int64.

(** ** [float64] *)

Module Float64.

(** [float64(x)] of an integer: the nearest binary64 value, ties to even. *)
Definition of_int (x : Z) : float :=
  SF2Prim (binary_normalize prec emax x 0 false).

(** The integer a finite float truncates to, toward zero. *)
Definition truncate (s : bool) (m : positive) (e : Z) : Z :=
  let mag := Z.shiftl (Z.pos m) e in
  if s then - mag else mag.

(** [int64(f)]: truncation toward zero. For a value that [int64] cannot
    hold, an infinity or a NaN, Go leaves the result to the implementation;
    amd64 gives -2^63, which is what the model returns. *)
Definition to_int64 (f : float) : Z :=
  match Prim2SF f with
  | S754_zero _ => 0
  | S754_finite s m e =>
      let v := truncate s m e in
      if (Int64.min_signed <=? v) && (v <=? Int64.max_signed)
      then v else Int64.min_signed
  | S754_infinity _ | S754_nan => Int64.min_signed
  end.

End Float64.

(** ** Package config *)

Module config.

(** Modelled from the spec: package config is not among the sources. The
    state of a server is one of Online, Offline, Respread and RIP. *)
Inductive StorageServerState : Type :=
| StorageServerStateOnline
| StorageServerStateOffline
| StorageServerStateRespread
| StorageServerStateRIP.

#[global] Instance StorageServerState_eq_dec : EqDecision StorageServerState.
Proof. solve_decision. Defined.

(** Modelled from the spec: package config is not among the sources. A
    server config is [{Address, Database, State}]. *)
Record StorageServerConfig : Type := {
  Address : string;
  Database : Z;
  State : StorageServerState;
}.

(** Modelled from the spec: package config is not among the sources. A
    cluster config is the ordered sequence of its server configs. *)
Record StorageClusterConfig : Type := {
  Servers : list StorageServerConfig;
}.

End config.

(** ** Package ardb: server selection *)

Module ardb.

(** [ServerIndexPredicate]: [func(serverIndex int64) (bool, error)].
    A predicate is Go code and may itself panic (a cluster's predicate
    indexes its server slice). *)
Definition ServerIndexPredicate : Type := Z -> outcome (bool * option error).

(** [ok || err != nil] *)
Definition settled (ok : bool) (err : option error) : bool :=
  ok || bool_decide (err <> None).

(** [FindFirstServerIndex]: the loop
    [for ; serverIndex < serverCount; serverIndex++], with [n] the number
    of indices still to try. *)
Fixpoint findFirstFrom (n : nat) (serverIndex : Z)
    (predicate : ServerIndexPredicate) : outcome (Z * option error) :=
  match n with
  | O => Return (-1, Some ErrNoServersAvailable)
  | S n' =>
      '(ok, err) ← predicate serverIndex;
      if settled ok err then Return (serverIndex, err)
      else findFirstFrom n' (serverIndex + 1) predicate
  end.

Definition FindFirstServerIndex (serverCount : Z)
    (predicate : ServerIndexPredicate) : outcome (Z * option error) :=
  findFirstFrom (Z.to_nat serverCount) 0 predicate.

(** The multiplier of the linear congruential step of the jump hash. *)
Definition jumpMultiplier : Z := 2862933555777941757.

(** [int64(float64(serverIndex+1) *
           (float64(int64(1)<<31) / float64((key>>33)+1)))] *)
Definition jumpNext (serverIndex key : Z) : Z :=
  Float64.to_int64
    (PrimFloat.mul
       (Float64.of_int (Int64.signed (serverIndex + 1)))
       (PrimFloat.div
          (Float64.of_int (Z.shiftl 1 31))
          (Float64.of_int (Int64.unsigned (Z.shiftr key 33 + 1))))).

(** The inner loop [for j < serverCount { ... }]; it returns the last
    [serverIndex] it assigned. *)
Fixpoint jumpLoop (fuel : nat) (serverCount serverIndex key j : Z)
    : outcome Z :=
  if j <? serverCount then
    match fuel with
    | O => Timeout
    | S fuel' =>
        let serverIndex := j in
        let key := Int64.unsigned (key * jumpMultiplier + 1) in
        let j := jumpNext serverIndex key in
        jumpLoop fuel' serverCount serverIndex key j
    end
  else Return serverIndex.

(** The outer loop [for { ...; objectIndex++ }]. *)
Fixpoint searchLoop (fuel : nat) (serverCount serverIndex objectIndex : Z)
    (predicate : ServerIndexPredicate) : outcome (Z * option error) :=
  match fuel with
  | O => Timeout
  | S fuel' =>
      let key := Int64.unsigned objectIndex in
      serverIndex ← jumpLoop fuel' serverCount serverIndex key 0;
      '(ok, err) ← predicate serverIndex;
      if settled ok err then Return (serverIndex, err)
      else searchLoop fuel' serverCount serverIndex
             (Int64.signed (objectIndex + 1)) predicate
  end.

(** [ComputeServerIndex]. Go's [%] truncates ([Z.rem]) and panics on a
    zero divisor. *)
Definition ComputeServerIndex (fuel : nat) (serverCount objectIndex : Z)
    (predicate : ServerIndexPredicate) : outcome (Z * option error) :=
  if serverCount =? 0 then Panic "integer divide by zero"
  else
    let serverIndex := Z.rem objectIndex serverCount in
    '(ok, err) ← predicate serverIndex;
    if settled ok err then Return (serverIndex, err)
    else searchLoop fuel serverCount serverIndex objectIndex predicate.

(** *** Servers, connections and actions

    The connection dialer and the storage actions (connection.go,
    storage_action.go) are not among the sources. The servers behind the
    dialer have a state [Store]; [dial cfg] tells whether a connection to the
    server of [cfg] can be established and [exec c cfg] is what that server
    does with the single command [c] and what it replies. *)

(** Modelled from the spec: the replies of a server ([interface{}] in the
    sources), nil, an integer, bytes, a status or a vector of replies. *)
Inductive Reply : Type :=
| nilReply
| intReply (n : Z)
| bytesReply (b : list byte)
| statusReply (s : string)
| arrayReply (l : list Reply).

(** [IndexActionPair] and [IndexActionMap] are generic in the action. *)
Record IndexActionPair (Action : Type) : Type := {
  Index : Z;
  Action_ : Action;
}.
Arguments Index {Action} _.
Arguments Action_ {Action} _.

Record IndexActionMap (Action : Type) : Type := {
  Indices : list Z;
  Actions : list Action;
}.
Arguments Indices {Action} _.
Arguments Actions {Action} _.

(** [IndexActionMap.Add] *)
Definition IndexActionMap_Add {Action : Type} (m : IndexActionMap Action)
    (index : Z) (action : Action) : IndexActionMap Action :=
  {| Indices := Indices m ++ [index]; Actions := Actions m ++ [action] |}.

(** [xs[i]] on a slice: a run-time panic outside [0, len(xs)). *)
Definition at_index {A : Type} (xs : list A) (i : Z) : outcome A :=
  if (0 <=? i) && (i <? Z.of_nat (length xs)) then
    match xs !! Z.to_nat i with
    | Some x => Return x
    | None => Panic "index out of range"
    end
  else Panic "index out of range".

Section Clusters.

Context {Store command : Type}.
Variable dial : config.StorageServerConfig -> Store -> option error.
Variable exec : command -> config.StorageServerConfig -> Store ->
                (Reply * option error) * Store.
(** [cfg.Validate()] of a server and of a cluster config. *)
Variable validateServer : config.StorageServerConfig -> option error.
Variable validateCluster : config.StorageClusterConfig -> option error.

(** The servers together with the connections dialed so far. *)
Record net : Type := {
  store : Store;
  dialed : list config.StorageServerConfig;
}.

(** The result of a cluster call: [(reply, err)] and the servers after. *)
Definition result (A : Type) : Type := (A * option error) * net.

(** [dialer.Dial(cfg)] *)
Definition Dial (cfg : config.StorageServerConfig) (w : net)
    : option error * net :=
  (dial cfg (store w), {| store := store w; dialed := dialed w ++ [cfg] |}).

(** Modelled from the spec: [Command] is a single request and response,
    [Commands] a pipelined batch executed on one connection, whose reply
    is the vector of the replies in the same order. *)
Inductive StorageAction : Type :=
| Command (c : command)
| Commands (actions : list StorageAction).

(** Modelled from the spec: [StorageAction.Do] (storage_action.go is not
    among the sources). A batch runs its actions in order on the one
    connection and fails with the first error. *)
Fixpoint action_Do (action : StorageAction)
    (conn : config.StorageServerConfig) (st : Store)
    : (Reply * option error) * Store :=
  match action with
  | Command c => exec c conn st
  | Commands actions =>
      let '((rs, err), st') :=
        (fix batch (actions : list StorageAction) (st : Store)
             : (list Reply * option error) * Store :=
           match actions with
           | [] => (([], None), st)
           | a :: rest =>
               match action_Do a conn st with
               | ((_, Some err), st1) => (([], Some err), st1)
               | ((r, None), st1) =>
                   match batch rest st1 with
                   | ((_, Some err), st2) => (([], Some err), st2)
                   | ((rs, None), st2) => ((r :: rs, None), st2)
                   end
               end
           end) actions st in
      match err with
      | Some e => ((nilReply, Some e), st')
      | None => ((arrayReply rs, None), st')
      end
  end.

(** Modelled from the spec: the reply decoder [Values] (not among the
    sources), total on replies: an array gives its elements, anything else
    an error. *)
Definition Values (r : Reply * option error)
    : option (list Reply) * option error :=
  match r with
  | (_, Some err) => (None, Some err)
  | (arrayReply l, None) => (Some l, None)
  | (nilReply, None) => (None, Some (errorString "nil returned"))
  | (_, None) => (None, Some (errorString "unexpected type for Values"))
  end.

(** Dial the server, then apply the action on the connection: the body
    shared by [UniCluster.Do], [Cluster.doAt] and [storageServer.Do]. *)
Definition dialAndDo (cfg : config.StorageServerConfig)
    (action : StorageAction) (w : net) : result Reply :=
  match Dial cfg w with
  | (Some err, w1) => ((nilReply, Some err), w1)
  | (None, w1) =>
      let '(r, st') := action_Do action cfg (store w1) in
      (r, {| store := st'; dialed := dialed w1 |})
  end.

(** *** UniCluster *)

Record UniCluster : Type := { server : config.StorageServerConfig }.

Definition NewUniCluster (cfg : config.StorageServerConfig)
    : option UniCluster * option error :=
  match validateServer cfg with
  | Some err => (None, Some err)
  | None =>
      match config.State cfg with
      | config.StorageServerStateOnline => (Some {| server := cfg |}, None)
      | config.StorageServerStateRIP => (None, Some ErrNoServersAvailable)
      | _ => (None, Some ErrServerStateNotSupported)
      end
  end.

Definition UniCluster_Do (cluster : UniCluster) (action : StorageAction)
    (w : net) : result Reply :=
  dialAndDo (server cluster) action w.

Definition UniCluster_DoFor (cluster : UniCluster) (_ : Z)
    (action : StorageAction) (w : net) : result Reply :=
  UniCluster_Do cluster action w.

Definition UniCluster_DoForAll (cluster : UniCluster)
    (pairs : list (IndexActionPair StorageAction)) (w : net)
    : outcome (result (option (list Reply))) :=
  match pairs with
  | [] => Return ((None, None), w)
  | [_] =>
      p0 ← at_index pairs 0;
      let '((reply, err), w1) :=
        UniCluster_DoFor cluster (Index p0) (Action_ p0) w in
      match err with
      | Some e => Return ((None, Some e), w1)
      | None => Return ((Some [reply], None), w1)
      end
  | _ =>
      let actions := map Action_ pairs in
      let '(r, w1) := UniCluster_Do cluster (Commands actions) w in
      Return (Values r, w1)
  end.

Definition UniCluster_ServerCount (cluster : UniCluster) : Z := 1.

(** *** Cluster *)

Record Cluster : Type := {
  servers : list config.StorageServerConfig;
  serverCount : Z;
  availableServerCount : Z;
}.

(** The loop [for _, server := range cfg.Servers] of [NewCluster], on the
    servers still to visit and the running [availableServerCount]. *)
Fixpoint countAvailable (servers : list config.StorageServerConfig)
    (availableServerCount : Z) : Z + error :=
  match servers with
  | [] => inl availableServerCount
  | server :: rest =>
      if decide (config.State server = config.StorageServerStateOnline)
      then countAvailable rest availableServerCount
      else if decide (config.State server <> config.StorageServerStateRIP)
      then inr ErrServerStateNotSupported
      else countAvailable rest (availableServerCount - 1)
  end.

Definition NewCluster (cfg : config.StorageClusterConfig)
    : option Cluster * option error :=
  match validateCluster cfg with
  | Some err => (None, Some err)
  | None =>
      let serverCount := Z.of_nat (length (config.Servers cfg)) in
      match countAvailable (config.Servers cfg) serverCount with
      | inr err => (None, Some err)
      | inl availableServerCount =>
          if availableServerCount =? 0
          then (None, Some ErrNoServersAvailable)
          else (Some {| servers := config.Servers cfg;
                        serverCount := serverCount;
                        availableServerCount := availableServerCount |},
                None)
      end
  end.

(** [Cluster.serverOperational] *)
Definition serverOperational (cluster : Cluster) : ServerIndexPredicate :=
  fun index =>
    cfg ← at_index (servers cluster) index;
    Return (bool_decide (config.State cfg = config.StorageServerStateOnline),
            None).

(** [Cluster.doAt] *)
Definition doAt (cluster : Cluster) (serverIndex : Z)
    (action : StorageAction) (w : net) : outcome (result Reply) :=
  cfg ← at_index (servers cluster) serverIndex;
  Return (dialAndDo cfg action w).

Definition Cluster_Do (cluster : Cluster) (action : StorageAction)
    (w : net) : outcome (result Reply) :=
  '(serverIndex, err) ←
    FindFirstServerIndex (serverCount cluster) (serverOperational cluster);
  match err with
  | Some e => Return ((nilReply, Some e), w)
  | None => doAt cluster serverIndex action w
  end.

Definition Cluster_DoFor (fuel : nat) (cluster : Cluster) (objectIndex : Z)
    (action : StorageAction) (w : net) : outcome (result Reply) :=
  '(serverIndex, err) ←
    ComputeServerIndex fuel (serverCount cluster) objectIndex
      (serverOperational cluster);
  match err with
  | Some e => Return ((nilReply, Some e), w)
  | None => doAt cluster serverIndex action w
  end.

(** The grouping loop of [Cluster.DoForAll]:
    [for index, pair := range pairs], from position [index] on. *)
Fixpoint groupByServer (fuel : nat) (cluster : Cluster)
    (pairs : list (IndexActionPair StorageAction)) (index : Z)
    (servers : gmap Z (IndexActionMap StorageAction))
    : outcome (gmap Z (IndexActionMap StorageAction) + error) :=
  match pairs with
  | [] => Return (inl servers)
  | p :: rest =>
      '(serverIndex, err) ←
        ComputeServerIndex fuel (serverCount cluster) (Index p)
          (serverOperational cluster);
      match err with
      | Some e => Return (inr e)
      | None =>
          let server :=
            match servers !! serverIndex with
            | Some server => server
            | None => {| Indices := []; Actions := [] |}
            end in
          groupByServer fuel cluster rest (index + 1)
            (<[serverIndex := IndexActionMap_Add server index (Action_ p)]>
               servers)
      end
  end.

(** [replies[replyIndex] = reply] *)
Definition set_index {A : Type} (xs : list A) (i : Z) (x : A)
    : outcome (list A) :=
  if (0 <=? i) && (i <? Z.of_nat (length xs))
  then Return (<[Z.to_nat i := x]> xs)
  else Panic "index out of range".

(** [for i, reply := range result.Replies], from position [i] on. *)
Fixpoint placeReplies (indices : list Z) (received : list Reply) (i : Z)
    (replies : list Reply) : outcome (list Reply) :=
  match received with
  | [] => Return replies
  | reply :: rest =>
      replyIndex ← at_index indices i;
      replies' ← set_index replies replyIndex reply;
      placeReplies indices rest (i + 1) replies'
  end.

(** The goroutines of [Cluster.DoForAll], one per server, each applying
    its batch. They are modelled as running one after the other in the
    order of the entries given; every one runs, also after a failure of
    another. *)
Fixpoint runBatches (cluster : Cluster)
    (batches : list (Z * IndexActionMap StorageAction)) (w : net)
    : outcome (list (Z * (option (list Reply) * option error)) * net) :=
  match batches with
  | [] => Return ([], w)
  | (serverIndex, indexActionMap) :: rest =>
      '(r, w1) ← doAt cluster serverIndex
                   (Commands (Actions indexActionMap)) w;
      '(results, w2) ← runBatches cluster rest w1;
      Return ((serverIndex, Values r) :: results, w2)
  end.

(** The collecting loop [for result := range ch]. *)
Fixpoint collectReplies
    (servers : gmap Z (IndexActionMap StorageAction))
    (results : list (Z * (option (list Reply) * option error)))
    (replies : list Reply)
    : outcome (option (list Reply) * option error) :=
  match results with
  | [] => Return (Some replies, None)
  | (serverIndex, (received, err)) :: rest =>
      match err with
      | Some e =>
          Return (None,
                  Some (Wrapf e "error while applying actions in serverIndex"))
      | None =>
          match servers !! serverIndex with
          | None => Panic "nil pointer dereference"
          | Some m =>
              replies' ← placeReplies (Indices m) (default [] received) 0
                           replies;
              collectReplies servers rest replies'
          end
      end
  end.

Definition Cluster_DoForAll (fuel : nat) (cluster : Cluster)
    (pairs : list (IndexActionPair StorageAction)) (w : net)
    : outcome (result (option (list Reply))) :=
  match pairs with
  | [] => Return ((None, None), w)
  | [_] =>
      p0 ← at_index pairs 0;
      p1 ← at_index pairs 1;
      '((reply, err), w1) ←
        Cluster_DoFor fuel cluster (Index p0) (Action_ p1) w;
      match err with
      | Some e => Return ((None, Some e), w1)
      | None => Return ((Some [reply], None), w1)
      end
  | _ =>
      grouped ← groupByServer fuel cluster pairs 0 ∅;
      match grouped with
      | inr e => Return ((None, Some e), w)
      | inl servers =>
          match map_to_list servers with
          | [(serverIndex, indexActionMap)] =>
              '(r, w1) ← doAt cluster serverIndex
                           (Commands (Actions indexActionMap)) w;
              Return (Values r, w1)
          | batches =>
              '(results, w1) ← runBatches cluster batches w;
              r ← collectReplies servers results
                    (replicate (length pairs) nilReply);
              Return (r, w1)
          end
      end
  end.

(** [Cluster.ServerCount] *)
Definition Cluster_ServerCount (cluster : Cluster) : Z :=
  availableServerCount cluster.

(** [Cluster.ServerIterator]: the servers the goroutine sends on the
    channel, in the order it sends them, when the context is not cancelled
    before the last of them is received. A [storageServer] is the server's
    config (the dialer is the cluster's). *)
Fixpoint iterateServers (servers : list config.StorageServerConfig)
    : list config.StorageServerConfig :=
  match servers with
  | [] => []
  | cfg :: rest =>
      if decide (config.State cfg <> config.StorageServerStateOnline)
      then iterateServers rest
      else cfg :: iterateServers rest
  end.

Definition Cluster_ServerIterator (cluster : Cluster)
    : list config.StorageServerConfig :=
  iterateServers (servers cluster).

(** [storageServer.Do] *)
Definition storageServer_Do (cfg : config.StorageServerConfig)
    (action : StorageAction) (w : net) : result Reply :=
  dialAndDo cfg action w.

(** The loop of [FindFirstAvailableServerConfig]; [serverCfg] is the named
    result, which the [range] clause assigns at every step. *)
Fixpoint findFirstAvailable (servers : list config.StorageServerConfig)
    (serverCfg : config.StorageServerConfig)
    : config.StorageServerConfig * option error :=
  match servers with
  | [] => (serverCfg, Some ErrNoServersAvailable)
  | cfg :: rest =>
      if decide (config.State cfg = config.StorageServerStateOnline)
      then (cfg, None)
      else findFirstAvailable rest cfg
  end.

(** [FindFirstAvailableServerConfig]; the named result starts as the zero
    value of a server config. *)
Definition FindFirstAvailableServerConfig (cfg : config.StorageClusterConfig)
    : config.StorageServerConfig * option error :=
  findFirstAvailable (config.Servers cfg)
    {| config.Address := ""; config.Database := 0;
       config.State := config.StorageServerStateOnline |}.

End Clusters.

End ardb.

(** ** Package storage: the template cluster

    The sources hold two revisions of [TemplateCluster]: the one next to
    [PrimaryCluster] and [storageClusterWatcher], which the module [storage]
    follows, and the earlier one of nbd/ardb/storage/cluster.go, which the
    module [storage_early] follows. The reader-writer lock, the config
    reloader and the connection pool's recycling are not modelled; the pool
    dials like the dialer of package ardb. *)

Module log.

(** Modelled from the spec: the statuses of a broadcast message (package log
    of the repository is not among the sources). *)
Inductive MessageStatus : Type :=
| StatusServerTimeout
| StatusServerTempError
| StatusServerDisconnect
| StatusUnknownError.

End log.

Module storage.

(** [mapErrorToBroadcastStatus] *)
Definition mapErrorToBroadcastStatus (err : error) : log.MessageStatus :=
  match err with
  | netError timeout temporary _ =>
      if timeout then log.StatusServerTimeout
      else if temporary then log.StatusServerTempError
      else log.StatusUnknownError
  | EOF => log.StatusServerDisconnect
  | _ => log.StatusUnknownError
  end.

Section TemplateCluster.

Context {Store command : Type}.
Variable dial : config.StorageServerConfig -> Store -> option error.
Variable exec : command -> config.StorageServerConfig -> Store ->
                (ardb.Reply * option error) * Store.

Local Abbreviation StorageAction := (@ardb.StorageAction command).
Local Abbreviation net := (@ardb.net Store).

Record TemplateCluster : Type := {
  vdiskID : string;
  servers : list config.StorageServerConfig;
  serverCount : Z;
}.

(** The servers and the connections dialed, and the status messages
    broadcast so far, each with the server it is about. *)
Record state : Type := {
  network : net;
  broadcasts : list (log.MessageStatus * config.StorageServerConfig);
}.

Definition result (A : Type) : Type := (A * option error) * state.

(** [(tsc).serverIsOnline], as the predicate handed to
    [ardb.ComputeServerIndex]. *)
Definition serverIsOnline (tsc : TemplateCluster)
    : ardb.ServerIndexPredicate :=
  fun index =>
    cfg ← ardb.at_index (servers tsc) index;
    Return (bool_decide (config.State cfg = config.StorageServerStateOnline),
            None).

(** Dial the server through the pool and apply the action; on a failure
    broadcast its status. The tail shared by [Do] and [DoFor]. *)
Definition dialDoBroadcast (cfg : config.StorageServerConfig)
    (action : StorageAction) (s : state) : result ardb.Reply :=
  let '((reply, err), w1) := ardb.dialAndDo dial exec cfg action (network s) in
  match err with
  | None => ((reply, None), {| network := w1; broadcasts := broadcasts s |})
  | Some e =>
      ((ardb.nilReply, Some e),
       {| network := w1;
          broadcasts := broadcasts s ++ [(mapErrorToBroadcastStatus e, cfg)] |})
  end.

(** [TemplateCluster.Do] *)
Definition TemplateCluster_Do (tsc : TemplateCluster)
    (action : StorageAction) (s : state) : outcome (result ardb.Reply) :=
  Return ((ardb.nilReply, Some ErrMethodNotSupported), s).

(** [TemplateCluster.DoFor] *)
Definition TemplateCluster_DoFor (fuel : nat) (tsc : TemplateCluster)
    (objectIndex : Z) (action : StorageAction) (s : state)
    : outcome (result ardb.Reply) :=
  if serverCount tsc =? 0
  then Return ((ardb.nilReply, Some ErrClusterNotDefined), s)
  else
    '(serverIndex, err) ←
      ardb.ComputeServerIndex fuel (serverCount tsc) objectIndex
        (serverIsOnline tsc);
    match err with
    | Some e => Return ((ardb.nilReply, Some e), s)
    | None =>
        cfg ← ardb.at_index (servers tsc) serverIndex;
        Return (dialDoBroadcast cfg action s)
    end.

(** [updateStorageConfig] *)
Definition updateStorageConfig (tsc : TemplateCluster)
    (cfg : config.StorageClusterConfig) : TemplateCluster :=
  {| vdiskID := vdiskID tsc;
     servers := config.Servers cfg;
     serverCount := Z.of_nat (length (config.Servers cfg)) |}.

End TemplateCluster.

Section PrimaryCluster.

Context {Store command : Type}.
Variable dial : config.StorageServerConfig -> Store -> option error.
Variable exec : command -> config.StorageServerConfig -> Store ->
                (ardb.Reply * option error) * Store.

Local Abbreviation StorageAction := (@ardb.StorageAction command).
Local Abbreviation cstate := (@state Store).

(** [PrimaryCluster] *)
Record PrimaryCluster : Type := {
  pc_vdiskID : string;
  pc_servers : list config.StorageServerConfig;
  pc_serverCount : Z;
}.

(** [(pc).serverIsOnline], as the predicate handed to
    [ardb.FindFirstServerIndex] and [ardb.ComputeServerIndex]. *)
Definition PrimaryCluster_serverIsOnline (pc : PrimaryCluster)
    : ardb.ServerIndexPredicate :=
  fun index =>
    cfg ← ardb.at_index (pc_servers pc) index;
    Return (bool_decide (config.State cfg = config.StorageServerStateOnline),
            None).

(** [(pc).doAt]: the message broadcast on a failure is the one of
    [dialDoBroadcast] (its body names the primary server type). *)
Definition PrimaryCluster_doAt (pc : PrimaryCluster) (serverIndex : Z)
    (action : StorageAction) (s : cstate) : outcome (result ardb.Reply) :=
  cfg ← ardb.at_index (pc_servers pc) serverIndex;
  Return (dialDoBroadcast dial exec cfg action s).

(** [PrimaryCluster.Do] *)
Definition PrimaryCluster_Do (pc : PrimaryCluster) (action : StorageAction)
    (s : cstate) : outcome (result ardb.Reply) :=
  '(serverIndex, err) ←
    ardb.FindFirstServerIndex (pc_serverCount pc)
      (PrimaryCluster_serverIsOnline pc);
  match err with
  | Some e => Return ((ardb.nilReply, Some e), s)
  | None => PrimaryCluster_doAt pc serverIndex action s
  end.

(** [PrimaryCluster.DoFor] *)
Definition PrimaryCluster_DoFor (fuel : nat) (pc : PrimaryCluster)
    (objectIndex : Z) (action : StorageAction) (s : cstate)
    : outcome (result ardb.Reply) :=
  '(serverIndex, err) ←
    ardb.ComputeServerIndex fuel (pc_serverCount pc) objectIndex
      (PrimaryCluster_serverIsOnline pc);
  match err with
  | Some e => Return ((ardb.nilReply, Some e), s)
  | None => PrimaryCluster_doAt pc serverIndex action s
  end.

(** [updatePrimaryStorageConfig] *)
Definition updatePrimaryStorageConfig (pc : PrimaryCluster)
    (cfg : config.StorageClusterConfig) : PrimaryCluster :=
  {| pc_vdiskID := pc_vdiskID pc;
     pc_servers := config.Servers cfg;
     pc_serverCount := Z.of_nat (length (config.Servers cfg)) |}.

End PrimaryCluster.

(** *** The watcher of a storage cluster's config

    The contexts that [context.WithCancel] hands out are numbered; [live]
    holds those not yet cancelled, each one standing for a running watcher
    of the config source. [markedInvalid] holds the vdisk keys reported to
    the source with [MarkInvalidKey]. *)
Record contexts : Type := {
  live : gset nat;
  next : nat;
  markedInvalid : list string;
}.

(** [context.WithCancel(ctx)]: a fresh context and its cancel function. *)
Definition WithCancel (w : contexts) : nat * contexts :=
  (next w, {| live := {[ next w ]} ∪ live w; next := S (next w);
              markedInvalid := markedInvalid w |}).

(** Calling a cancel function. *)
Definition cancelContext (c : nat) (w : contexts) : contexts :=
  {| live := live w ∖ {[ c ]}; next := next w;
     markedInvalid := markedInvalid w |}.

(** [cs.MarkInvalidKey] *)
Definition MarkInvalidKey (vdiskID : string) (w : contexts) : contexts :=
  {| live := live w; next := next w;
     markedInvalid := markedInvalid w ++ [vdiskID] |}.

(** [storageClusterWatcher]: the channel is named by the context of its
    watcher; [None] is the nil channel and the nil cancel function. *)
Record storageClusterWatcher : Type := {
  clusterID : string;
  channel : option nat;
  cancel : option nat;
}.

(** The zero value, [var watcher storageClusterWatcher]. *)
Definition zeroWatcher : storageClusterWatcher :=
  {| clusterID := ""; channel := None; cancel := None |}.

(** [(scw).Receive] *)
Definition storageClusterWatcher_Receive (scw : storageClusterWatcher)
    : option nat :=
  channel scw.

(** [(scw).Close] *)
Definition storageClusterWatcher_Close (scw : storageClusterWatcher)
    (w : contexts) : contexts :=
  match cancel scw with
  | Some c => cancelContext c w
  | None => w
  end.

(** [(scw).Defined] *)
Definition storageClusterWatcher_Defined (scw : storageClusterWatcher) : bool :=
  bool_decide (clusterID scw <> "").

Section Watcher.

(** [config.WatchStorageClusterConfig], of a package that is not among the
    sources: whether a watcher for the cluster of the given id can be
    created. *)
Variable WatchStorageClusterConfig : string -> option error.

(** [(scw).SetClusterID]; calling the nil cancel function panics. *)
Definition storageClusterWatcher_SetClusterID (scw : storageClusterWatcher)
    (vdiskID clusterID' : string) (w : contexts)
    : outcome ((bool * option error) * storageClusterWatcher * contexts) :=
  if decide (clusterID scw = clusterID') then
    Return ((bool_decide (clusterID scw <> ""), None), scw, w)
  else if decide (clusterID' = "") then
    match cancel scw with
    | None => Panic "invalid memory address or nil pointer dereference"
    | Some c =>
        Return ((false, None),
                {| clusterID := ""; channel := channel scw; cancel := None |},
                cancelContext c w)
    end
  else
    let '(c, w1) := WithCancel w in
    match WatchStorageClusterConfig clusterID' with
    | Some err =>
        Return ((false, Some err), scw, cancelContext c (MarkInvalidKey vdiskID w1))
    | None =>
        Return ((true, None),
                {| clusterID := clusterID'; channel := Some c; cancel := Some c |},
                storageClusterWatcher_Close scw w1)
    end.

End Watcher.

End storage.

Module storage_early.

Section TemplateCluster.

Context {Store command : Type}.
Variable dial : config.StorageServerConfig -> Store -> option error.
Variable exec : command -> config.StorageServerConfig -> Store ->
                (ardb.Reply * option error) * Store.

Local Abbreviation StorageAction := (@ardb.StorageAction command).
Local Abbreviation TemplateCluster := storage.TemplateCluster.
Local Abbreviation state := (@storage.state Store).

(** [TemplateCluster.Do] of the earlier revision: the action goes to the
    first online server. *)
Definition TemplateCluster_Do (tsc : TemplateCluster)
    (action : StorageAction) (s : state)
    : outcome (storage.result ardb.Reply) :=
  '(serverIndex, err) ←
    ardb.FindFirstServerIndex (storage.serverCount tsc)
      (storage.serverIsOnline tsc);
  match err with
  | Some e => Return ((ardb.nilReply, Some e), s)
  | None =>
      cfg ← ardb.at_index (storage.servers tsc) serverIndex;
      Return (storage.dialDoBroadcast dial exec cfg action s)
  end.

(** [TemplateCluster.DoFor] of the earlier revision: no guard on an
    empty cluster. *)
Definition TemplateCluster_DoFor (fuel : nat) (tsc : TemplateCluster)
    (objectIndex : Z) (action : StorageAction) (s : state)
    : outcome (storage.result ardb.Reply) :=
  '(serverIndex, err) ←
    ardb.ComputeServerIndex fuel (storage.serverCount tsc) objectIndex
      (storage.serverIsOnline tsc);
  match err with
  | Some e => Return ((ardb.nilReply, Some e), s)
  | None =>
      cfg ← ardb.at_index (storage.servers tsc) serverIndex;
      Return (storage.dialDoBroadcast dial exec cfg action s)
  end.

End TemplateCluster.

End storage_early.

(** ** Package lba: shards of the deduped map *)

Module lba.

(** Modelled from the spec: [HashSize] (hash.go is not among the sources),
    the fixed width of a hash, 32 bytes. *)
Definition HashSize : Z := 32.

(** Modelled from the spec: [Hash] (hash.go is not among the sources), a byte
    slice; [None] is Go's nil slice. *)
Definition Hash : Type := option (list byte).

(** [HashSize] zero bytes. *)
Definition zeroHash : list byte := replicate (Z.to_nat HashSize) "000"%byte.

(** Modelled from the spec: [nilHash] (hash.go is not among the sources), the
    all-zero hash, a slice that is not nil. *)
Definition nilHash : Hash := Some zeroHash.

(** Modelled from the spec: [NewHash] (hash.go is not among the sources)
    allocates a zeroed hash. *)
Definition NewHash : list byte := zeroHash.

(** Modelled from the spec: [Hash.Equals] (hash.go is not among the sources)
    compares the contents. *)

Definition Hash_Equals (h other : Hash) : bool :=
  bool_decide (default [] h = default [] other).

Definition NumberOfRecordsPerLBAShard : Z := 128.
Definition BytesPerShard : Z := NumberOfRecordsPerLBAShard * HashSize.

(** [shard]: the array [hashes] has [NumberOfRecordsPerLBAShard] slots. *)
Record shard : Type := {
  hashes : list Hash;
  dirty : bool;
}.

Definition wf_shard (s : shard) : Prop :=
  length (hashes s) = Z.to_nat NumberOfRecordsPerLBAShard.

Definition newShard : shard :=
  {| hashes := replicate (Z.to_nat NumberOfRecordsPerLBAShard) None;
     dirty := false |}.

(** [copy(dst, src)]: the first [min(len(dst), len(src))] bytes of [dst]
    are overwritten. *)
Definition copy (dst src : list byte) : list byte :=
  let n := Nat.min (length dst) (length src) in
  take n src ++ drop n dst.

(** The loop of [shardFromBytes], for the records from [i] on, [n] of them
    still to read. *)
Fixpoint readRecords (n : nat) (i : Z) (bytes : list byte) : list Hash :=
  match n with
  | O => []
  | S n' =>
      let h := copy NewHash (drop (Z.to_nat (i * HashSize)) bytes) in
      (if Hash_Equals (Some h) nilHash then None else Some h)
        :: readRecords n' (i + 1) bytes
  end.

Definition shardFromBytes (bytes : list byte) : option shard * option error :=
  if Z.of_nat (length bytes) <? BytesPerShard
  then (None, Some (errorString "raw shard is too small, expected 4096 bytes"))
  else (Some {| hashes := readRecords (Z.to_nat NumberOfRecordsPerLBAShard) 0 bytes;
                dirty := false |},
        None).

Definition shard_Dirty (s : shard) : bool := dirty s.

Definition shard_UnsetDirty (s : shard) : shard :=
  {| hashes := hashes s; dirty := false |}.

Definition shard_Set (s : shard) (hashIndex : Z) (hash : Hash) : outcome shard :=
  hashes' ← ardb.set_index (hashes s) hashIndex hash;
  Return {| hashes := hashes'; dirty := true |}.

Definition shard_Get (s : shard) (hashIndex : Z) : outcome Hash :=
  ardb.at_index (hashes s) hashIndex.

(** [io.Writer]: [Write(p)] gives the writer after the call and the error,
    if any; the number of bytes written is ignored by [shard.Write]. *)
Class Writer (W : Type) : Type :=
  Write : W -> list byte -> W * option error.

(** A [bytes.Buffer]: every write appends and succeeds. *)
Definition Buffer : Type := list byte.

#[global] Instance Buffer_Writer : Writer Buffer :=
  fun buf p => (buf ++ p, None).

(** A writer that holds [room] more bytes and fails on the write that does
    not fit, keeping what it has. *)
Record LimitedWriter : Type := { written : list byte; room : nat }.

#[global] Instance LimitedWriter_Writer : Writer LimitedWriter :=
  fun w p =>
    if (length p <=? room w)%nat
    then ({| written := written w ++ p; room := room w - length p |}, None)
    else (w, Some (errorString "short write")).

(** The first loop of [shard.Write]: the index of the first slot that is not
    nil, or the number of slots if there is none. *)
Fixpoint firstNonNil (hashes : list Hash) (index : Z) : Z :=
  match hashes with
  | [] => index
  | None :: rest => firstNonNil rest (index + 1)
  | Some _ :: _ => index
  end.

(** The second loop: [nilHash] written [n] times. *)
Fixpoint writeNilHashes {W : Type} `{Writer W} (n : nat) (w : W)
    : W * option error :=
  match n with
  | O => (w, None)
  | S n' =>
      match Write w zeroHash with
      | (w', Some err) => (w', Some err)
      | (w', None) => writeNilHashes n' w'
      end
  end.

(** The third loop: the remaining hashes, [nilHash] for a nil slot. *)
Fixpoint writeHashes {W : Type} `{Writer W} (hashes : list Hash) (w : W)
    : W * option error :=
  match hashes with
  | [] => (w, None)
  | h :: rest =>
      let h := match h with None => zeroHash | Some b => b end in
      match Write w h with
      | (w', Some err) => (w', Some err)
      | (w', None) => writeHashes rest w'
      end
  end.

(** [shard.Write] *)
Definition shard_Write {W : Type} `{Writer W} (s : shard) (w : W)
    : W * option error :=
  let index := firstNonNil (hashes s) 0 in
  if index =? NumberOfRecordsPerLBAShard then (w, Some errNilShardWrite)
  else
    match writeNilHashes (Z.to_nat index) w with
    | (w1, Some err) => (w1, Some err)
    | (w1, None) => writeHashes (drop (Z.to_nat index) (hashes s)) w1
    end.

End lba.

(** ** Package backup: the FTP driver *)

Module backup.

(** Modelled from the spec: [zerodisk.HashSize] (the root package is not
    among the sources), 32 bytes. A [zerodisk.Hash] is a byte slice. *)
Definition HashSize : Z := 32.

(** [string(b)] of a byte slice: the same bytes. *)
Definition string_of_bytes (b : list byte) : string :=
  String.string_of_list_byte b.

(** [hashAsDirAndFile] *)
Definition hashAsDirAndFile (hash : list byte) : string * string * bool :=
  if bool_decide (Z.of_nat (length hash) <> HashSize) then ("", "", false)
  else
    let dir := string_of_bytes (take 2 hash) +:+ "/"
               +:+ string_of_bytes (take 2 (drop 2 hash)) in
    let file := string_of_bytes (drop 4 hash) in
    (dir, file, true).

(** [ftpErrorNoExists] *)
Definition ftpErrorNoExists : Z := 550.

(** [isFTPErrorCode] *)
Definition isFTPErrorCode (code : Z) (err : option error) : bool :=
  match err with
  | Some (ftpError c _) => c =? code
  | _ => false
  end.

(** What [os.FileInfo] tells the driver. *)
Record FileInfo : Type := { IsDir : bool }.

(** The commands the driver sends through its FTP client. *)
Inductive ftpCommand : Type :=
| cmdStat (path : string)
| cmdMkdir (path : string)
| cmdStore (path : string) (content : list byte)
| cmdRetrieve (path : string).

Section FTP.

(** The FTP client (github.com/secsy/goftp) and the server behind it are
    outside the repository, as are [path.Join] and [strings.Split] of Go's
    library. [Server] is the state of the FTP server; [Stat] and [Retrieve]
    observe it, [Mkdir] and [Store] change it. *)
Context {Server : Type}.
Variable Stat : string -> Server -> FileInfo + error.
Variable Mkdir : string -> Server -> (string + error) * Server.
Variable Store : string -> list byte -> Server -> option error * Server.
Variable Retrieve : string -> Server -> list byte + error.
Variable path_Join : string -> string -> string.
Variable strings_Split : string -> string -> list string.

(** [ftpDriver], with the server its client talks to and the commands sent
    so far. *)
Record ftpDriver : Type := {
  root : string;
  knownDirs : gset string;
  server : Server;
  sent : list ftpCommand;
}.

Definition send (c : ftpCommand) (srv : Server) (ftp : ftpDriver) : ftpDriver :=
  {| root := root ftp; knownDirs := knownDirs ftp;
     server := srv; sent := sent ftp ++ [c] |}.

Definition know (dir : string) (ftp : ftpDriver) : ftpDriver :=
  {| root := root ftp; knownDirs := {[ dir ]} ∪ knownDirs ftp;
     server := server ftp; sent := sent ftp |}.

(** The loop [for _, d := range dirs] of [mkdirs]. *)
Fixpoint mkdirsWalk (dirs : list string) (pwd : string) (ftp : ftpDriver)
    : (string * option error) * ftpDriver :=
  match dirs with
  | [] => ((pwd, None), ftp)
  | d :: rest =>
      let pwd := path_Join pwd d in
      if bool_decide (pwd ∈ knownDirs ftp) then mkdirsWalk rest pwd ftp
      else
        let ftp1 := send (cmdStat pwd) (server ftp) ftp in
        match Stat pwd (server ftp) with
        | inr err =>
            if isFTPErrorCode ftpErrorNoExists (Some err) then
              match Mkdir pwd (server ftp1) with
              | (inr err', srv) => (("", Some err'), send (cmdMkdir pwd) srv ftp1)
              | (inl output, srv) =>
                  mkdirsWalk rest output (send (cmdMkdir pwd) srv ftp1)
              end
            else (("", Some err), ftp1)
        | inl info =>
            if negb (IsDir info)
            then (("", Some (errorString (pwd +:+ " exists and is a file, not a dir"))),
                  ftp1)
            else mkdirsWalk rest pwd (know pwd ftp1)
        end
  end.

(** [(ftp).mkdirs] *)
Definition mkdirs (dir : string) (ftp : ftpDriver)
    : (string * option error) * ftpDriver :=
  let dir := path_Join (root ftp) dir in
  if bool_decide (dir ∈ knownDirs ftp) then ((dir, None), ftp)
  else mkdirsWalk (strings_Split dir "/") "" ftp.

(** [(ftp).lazyStore] *)
Definition lazyStore (path : string) (r : list byte) (ftp : ftpDriver)
    : option error * ftpDriver :=
  let ftp1 := send (cmdStat path) (server ftp) ftp in
  match Stat path (server ftp) with
  | inr err =>
      if isFTPErrorCode ftpErrorNoExists (Some err) then
        let '(err', srv) := Store path r (server ftp1) in
        (err', send (cmdStore path r) srv ftp1)
      else (Some err, ftp1)
  | inl info =>
      if IsDir info then (Some (errorString (path +:+ " is a dir")), ftp1)
      else (None, ftp1)
  end.

(** [(ftp).SetDedupedBlock]; [r] is the content of the reader. *)
Definition SetDedupedBlock (hash : list byte) (r : list byte) (ftp : ftpDriver)
    : option error * ftpDriver :=
  let '(dir, file, ok) := hashAsDirAndFile hash in
  if negb ok then (Some errInvalidHash, ftp)
  else
    match mkdirs dir ftp with
    | ((_, Some err), ftp1) => (Some err, ftp1)
    | ((dir, None), ftp1) => lazyStore (path_Join dir file) r ftp1
    end.

(** [(ftp).GetDedupedBlock]; the result holds what was written to [w]. *)
Definition GetDedupedBlock (hash : list byte) (ftp : ftpDriver)
    : (list byte * option error) * ftpDriver :=
  let '(dir, file, ok) := hashAsDirAndFile hash in
  if negb ok then (([], Some errInvalidHash), ftp)
  else
    let path := path_Join dir file in
    let ftp1 := send (cmdRetrieve path) (server ftp) ftp in
    match Retrieve path (server ftp) with
    | inl content => ((content, None), ftp1)
    | inr err => (([], Some err), ftp1)
    end.

End FTP.

(** *** Block fetchers *)

(** [blockIndexPair] *)
Record blockIndexPair : Type := {
  Block : list byte;
  Index : Z;
}.

(** [blockFetcher]: [FetchBlock] gives a pair or an error ([io.EOF] at the
    end of the stream) and the fetcher after the call. *)
Class blockFetcher (F : Type) : Type :=
  FetchBlock : F -> outcome ((blockIndexPair + error) * F).

(** A fetcher that yields the pairs of a list, one per call, then [io.EOF]. *)
Definition listBlockFetcher : Type := list blockIndexPair.

#[global] Instance listBlockFetcher_blockFetcher : blockFetcher listBlockFetcher :=
  fun pairs =>
    match pairs with
    | [] => Return (inr EOF, [])
    | p :: rest => Return (inl p, rest)
    end.

(** [inflationBlockFetcher]; [cache_output = None] is the nil slice. *)
Record inflationBlockFetcher (F : Type) : Type := {
  in_ : F;
  srcBS : Z;
  dstBS : Z;
  ratio : Z;
  cache_output : option (list byte);
  cache_offset : Z;
  cache_prevIndex : Z;
}.
Arguments in_ {F} _.
Arguments srcBS {F} _.
Arguments dstBS {F} _.
Arguments ratio {F} _.
Arguments cache_output {F} _.
Arguments cache_offset {F} _.
Arguments cache_prevIndex {F} _.

(** [newInflationBlockFetcher]; Go's integer division truncates and panics
    on a zero divisor. *)
Definition newInflationBlockFetcher {F : Type} (bf : F) (srcBS dstBS : Z)
    : outcome (inflationBlockFetcher F) :=
  if srcBS =? 0 then Panic "integer divide by zero"
  else Return {| in_ := bf; srcBS := srcBS; dstBS := dstBS;
                 ratio := Z.quot dstBS srcBS;
                 cache_output := None; cache_offset := 0;
                 cache_prevIndex := 0 |}.

(** [make([]byte, n)] *)
Definition make (n : Z) : outcome (list byte) :=
  if n <? 0 then Panic "makeslice: len out of range"
  else Return (replicate (Z.to_nat n) "000"%byte).

(** [copy(output[lo:hi], block)]: the slice expression panics unless
    [0 <= lo <= hi <= cap(output)]; the bytes copied are the first
    [min(hi - lo, len(block))] of [block]. *)
Definition copyInto (output : list byte) (lo hi : Z) (block : list byte)
    : outcome (list byte) :=
  if (0 <=? lo) && (lo <=? hi) && (hi <=? Z.of_nat (length output)) then
    let n := Nat.min (Z.to_nat (hi - lo)) (length block) in
    Return (take (Z.to_nat lo) output ++ take n block
            ++ drop (Z.to_nat lo + n) output)
  else Panic "slice bounds out of range".

(** The state of one call of [FetchBlock] while it fills the output. *)
Definition withCache {F : Type} (ibf : inflationBlockFetcher F) (bf : F)
    (output : option (list byte)) (offset prevIndex : Z)
    : inflationBlockFetcher F :=
  {| in_ := bf; srcBS := srcBS ibf; dstBS := dstBS ibf; ratio := ratio ibf;
     cache_output := output; cache_offset := offset;
     cache_prevIndex := prevIndex |}.

(** [return pair, nil] with [Index: prevIndex / ratio], the cache's output
    reset to nil. *)
Definition emit {F : Type} (ibf : inflationBlockFetcher F) (bf : F)
    (output : list byte) (offset prevIndex : Z)
    : outcome ((blockIndexPair + error) * inflationBlockFetcher F) :=
  if ratio ibf =? 0 then Panic "integer divide by zero"
  else Return (inl {| Block := output; Index := Z.quot prevIndex (ratio ibf) |},
               withCache ibf bf None offset prevIndex).

(** The loop [for ibf.cache.offset < ibf.dstBS] of [FetchBlock]. *)
Fixpoint fillLoop {F : Type} `{blockFetcher F} (fuel : nat)
    (ibf : inflationBlockFetcher F) (bf : F) (output : list byte)
    (offset prevIndex : Z)
    : outcome ((blockIndexPair + error) * inflationBlockFetcher F) :=
  if offset <? dstBS ibf then
    match fuel with
    | O => Timeout
    | S fuel' =>
        '(fetched, bf1) ← FetchBlock bf;
        match fetched with
        | inr EOF => emit ibf bf1 output offset prevIndex
        | inr err =>
            Return (inr err, withCache ibf bf1 (Some output) offset prevIndex)
        | inl blockPair =>
            let indexDelta := Int64.signed (Index blockPair - prevIndex) in
            let skip := (0 <=? prevIndex) && (1 <? indexDelta) in
            let offset1 :=
              if skip
              then Int64.signed
                     (offset + Int64.signed
                                 (Int64.signed (indexDelta - 1) * srcBS ibf))
              else offset in
            if skip && (dstBS ibf <=? offset1)
            then emit ibf bf1 output offset1 prevIndex
            else
              output1 ← copyInto output offset1
                          (Int64.signed (offset1 + srcBS ibf))
                          (Block blockPair);
              fillLoop fuel' ibf bf1 output1
                (Int64.signed (offset1 + srcBS ibf)) (Index blockPair)
        end
    end
  else emit ibf bf output offset prevIndex.

(** [(ibf).FetchBlock] *)
Definition inflationBlockFetcher_FetchBlock {F : Type} `{blockFetcher F}
    (fuel : nat) (ibf : inflationBlockFetcher F)
    : outcome ((blockIndexPair + error) * inflationBlockFetcher F) :=
  match cache_output ibf with
  | None =>
      '(fetched, bf1) ← FetchBlock (in_ ibf);
      match fetched with
      | inr err =>
          Return (inr err, withCache ibf bf1 None (cache_offset ibf)
                             (cache_prevIndex ibf))
      | inl blockPair =>
          output ← make (dstBS ibf);
          if ratio ibf =? 0 then Panic "integer divide by zero"
          else
            let offset :=
              Int64.signed (Z.rem (Index blockPair) (ratio ibf) * srcBS ibf) in
            output1 ← copyInto output offset
                        (Int64.signed (offset + srcBS ibf)) (Block blockPair);
            fillLoop fuel ibf bf1 output1
              (Int64.signed (offset + srcBS ibf)) (Index blockPair)
      end
  | Some output =>
      fillLoop fuel ibf (in_ ibf) output (cache_offset ibf)
        (cache_prevIndex ibf)
  end.

(** An inflation fetcher is a block fetcher itself, for a given loop budget. *)
Definition inflationBlockFetcher_blockFetcher {F : Type} `{blockFetcher F}
    (fuel : nat) : blockFetcher (inflationBlockFetcher F) :=
  inflationBlockFetcher_FetchBlock fuel.

(** [isNilBlock] *)
Fixpoint isNilBlock (block : list byte) : bool :=
  match block with
  | [] => true
  | b :: rest =>
      if bool_decide (b <> "000"%byte) then false else isNilBlock rest
  end.

(** [deflationBlockFetcher]; the nil slice [cb] is the empty list. *)
Record deflationBlockFetcher (F : Type) : Type := {
  dbf_in : F;
  dbf_srcBS : Z;
  dbf_dstBS : Z;
  dbf_ratio : Z;
  cb : list byte;
  cbi : Z;
}.
Arguments dbf_in {F} _.
Arguments dbf_srcBS {F} _.
Arguments dbf_dstBS {F} _.
Arguments dbf_ratio {F} _.
Arguments cb {F} _.
Arguments cbi {F} _.

(** [newDeflationBlockFetcher] *)
Definition newDeflationBlockFetcher {F : Type} (bf : F) (srcBS dstBS : Z)
    : outcome (deflationBlockFetcher F) :=
  if dstBS =? 0 then Panic "integer divide by zero"
  else Return {| dbf_in := bf; dbf_srcBS := srcBS; dbf_dstBS := dstBS;
                 dbf_ratio := Int64.signed (Z.quot srcBS dstBS);
                 cb := []; cbi := -1 |}.

(** The fetcher with another source, current block and index. *)
Definition withBlock {F : Type} (dbf : deflationBlockFetcher F) (bf : F)
    (cb : list byte) (cbi : Z) : deflationBlockFetcher F :=
  {| dbf_in := bf; dbf_srcBS := dbf_srcBS dbf; dbf_dstBS := dbf_dstBS dbf;
     dbf_ratio := dbf_ratio dbf; cb := cb; cbi := cbi |}.

(** [(dbf).FetchBlock]: the two nested loops, one step of either per unit
    of fuel. While the current block has bytes left, [cb[:dstBS]] is cut off
    it and [cb[dstBS:]] kept, which panics (the one or the other slice
    expression) unless [0 <= dstBS <= len(cb)]; the piece is returned unless
    it holds zeros only. With no bytes left the next block is fetched. *)
Fixpoint deflateLoop {F : Type} `{blockFetcher F} (fuel : nat)
    (dbf : deflationBlockFetcher F)
    : outcome ((blockIndexPair + error) * deflationBlockFetcher F) :=
  match fuel with
  | O => Timeout
  | S fuel' =>
      if 0 <? Z.of_nat (length (cb dbf)) then
        if (0 <=? dbf_dstBS dbf) && (dbf_dstBS dbf <=? Z.of_nat (length (cb dbf)))
        then
          let block := take (Z.to_nat (dbf_dstBS dbf)) (cb dbf) in
          let rest := drop (Z.to_nat (dbf_dstBS dbf)) (cb dbf) in
          let dbf1 := withBlock dbf (dbf_in dbf) rest (Int64.signed (cbi dbf + 1)) in
          if negb (isNilBlock block)
          then Return (inl {| Block := block; Index := cbi dbf |}, dbf1)
          else deflateLoop fuel' dbf1
        else Panic "slice bounds out of range"
      else
        '(fetched, bf1) ← FetchBlock (dbf_in dbf);
        match fetched with
        | inr err => Return (inr err, withBlock dbf bf1 (cb dbf) (cbi dbf))
        | inl blockPair =>
            deflateLoop fuel'
              (withBlock dbf bf1 (Block blockPair)
                 (Int64.signed (Index blockPair * dbf_ratio dbf)))
        end
  end.

Definition deflationBlockFetcher_FetchBlock {F : Type} `{blockFetcher F}
    (fuel : nat) (dbf : deflationBlockFetcher F)
    : outcome ((blockIndexPair + error) * deflationBlockFetcher F) :=
  deflateLoop fuel dbf.

(** What [sizedBlockFetcher] returns as a [blockFetcher]: an inflation
    fetcher, a deflation fetcher or the given fetcher itself. *)
Inductive sizedFetcher (F : Type) : Type :=
| inflating (ibf : inflationBlockFetcher F)
| deflating (dbf : deflationBlockFetcher F)
| unsized (bf : F).
Arguments inflating {F} ibf.
Arguments deflating {F} dbf.
Arguments unsized {F} bf.

(** [sizedBlockFetcher] *)
Definition sizedBlockFetcher {F : Type} (bf : F) (srcBS dstBS : Z)
    : outcome (sizedFetcher F) :=
  if srcBS <? dstBS then
    ibf ← newInflationBlockFetcher bf srcBS dstBS; Return (inflating ibf)
  else if dstBS <? srcBS then
    dbf ← newDeflationBlockFetcher bf srcBS dstBS; Return (deflating dbf)
  else Return (unsized bf).

(** [FetchBlock] on the fetcher that [sizedBlockFetcher] returned. *)
Definition sizedFetcher_FetchBlock {F : Type} `{blockFetcher F} (fuel : nat)
    (sf : sizedFetcher F) : outcome ((blockIndexPair + error) * sizedFetcher F) :=
  match sf with
  | inflating ibf =>
      '(r, ibf') ← inflationBlockFetcher_FetchBlock fuel ibf;
      Return (r, inflating ibf')
  | deflating dbf =>
      '(r, dbf') ← deflationBlockFetcher_FetchBlock fuel dbf;
      Return (r, deflating dbf')
  | unsized bf =>
      '(r, bf') ← FetchBlock bf;
      Return (r, unsized bf')
  end.

End backup.

(** * Vocabulary of the statements *)

(** ** Clusters *)

(** The number of servers of a config in a given state. *)
Definition countState (st : config.StorageServerState)
    (servers : list config.StorageServerConfig) : Z :=
  Z.of_nat (length (filter (fun s => config.State s = st) servers)).

(** A config of three servers, the second one retired. *)
Definition oneRetired : config.StorageClusterConfig :=
  {| config.Servers :=
       [ {| config.Address := "10.0.0.1:16379"; config.Database := 0;
            config.State := config.StorageServerStateOnline |};
         {| config.Address := ""; config.Database := 0;
            config.State := config.StorageServerStateRIP |};
         {| config.Address := "10.0.0.3:16379"; config.Database := 0;
            config.State := config.StorageServerStateOnline |} ] |}.

(** ** Server selection *)

(** A predicate that neither fails nor panics. *)
Definition errorFree (p : ardb.ServerIndexPredicate) : Prop :=
  forall i : Z, exists b : bool, p i = Return (b, None).

(** [finds N p serverIndex objectIndex i]: the search loop of
    [ComputeServerIndex], entered with [serverIndex] and [objectIndex], comes
    to the candidate [i] and the predicate accepts it, after rejecting the
    candidates of the rounds before. The candidate of a round is what the jump
    hash gives for the round's object index. *)
Inductive finds (N : Z) (p : ardb.ServerIndexPredicate) : Z -> Z -> Z -> Prop :=
| finds_now (fuel : nat) (serverIndex objectIndex i : Z) :
    ardb.jumpLoop fuel N serverIndex (Int64.unsigned objectIndex) 0 = Return i ->
    p i = Return (true, None) ->
    finds N p serverIndex objectIndex i
| finds_next (fuel : nat) (serverIndex objectIndex c i : Z) :
    ardb.jumpLoop fuel N serverIndex (Int64.unsigned objectIndex) 0 = Return c ->
    p c = Return (false, None) ->
    finds N p c (Int64.signed (objectIndex + 1)) i ->
    finds N p serverIndex objectIndex i.

(** [p(i) = (i mod 2 == 0)] *)
Definition evenOperational : ardb.ServerIndexPredicate :=
  fun i => Return (Z.rem i 2 =? 0, None).

(** The predicate of the repository's test
    [TestComputeServerIndex_OddIndexedServersDead]. *)
Definition oddIndexedServersDead : ardb.ServerIndexPredicate :=
  fun i => if Z.rem i 2 =? 1 then Return (false, None) else Return (true, None).






(** ** Shards *)

(** The bytes of the slots in slot order, [nilHash] for a nil slot. *)
Definition serialized (hashes : list lba.Hash) : list byte :=
  concat (map (fun h : lba.Hash => default lba.zeroHash h) hashes).

(** Every slot is nil. *)
Definition allNil (hashes : list lba.Hash) : Prop :=
  Forall (fun h : lba.Hash => h = None) hashes.

(** Every slot that is set holds a hash of [HashSize] bytes. *)
Definition hashSized (hashes : list lba.Hash) : Prop :=
  Forall (fun h : lba.Hash =>
            forall b : list byte, h = Some b -> Z.of_nat (length b) = lba.HashSize)
         hashes.

(** A new shard after [Set(0, nilHash)]: slot 0 holds the 32 zero bytes, the
    other slots are nil. *)
Definition zeroSlotShard : lba.shard :=
  {| lba.hashes := lba.nilHash :: replicate 127 None; lba.dirty := true |}.

(** ** The backup store *)

(** The path of a block as the spec words it: [hh[0..2]/hh[2..4]] and
    [hh[4..]], with [hh] the lowercase hexadecimal encoding of the hash. *)
Definition hexDigit (n : N) : ascii :=
  nth (N.to_nat n) (list_ascii_of_string "0123456789abcdef") "0"%char.

Definition hexOfByte (b : byte) : string :=
  let n := Byte.to_N b in
  String (hexDigit (n / 16)) (String (hexDigit (n mod 16)) EmptyString).

Definition hexEncode (h : list byte) : string :=
  foldr (fun b acc => hexOfByte b +:+ acc) EmptyString h.

Definition spec_hashAsDirAndFile (h : list byte) : string * string :=
  let hh := hexEncode h in
  (substring 0 2 hh +:+ "/" +:+ substring 2 2 hh,
   substring 4 (String.length hh - 4) hh).

(** The hash of 32 bytes 0x78, the character x. *)
Definition hashOfX : list byte := replicate 32 "x"%byte.
Definition fileOfX : string := "xxxxxxxxxxxxxxxxxxxxxxxxxxxx".

Definition isStore (c : backup.ftpCommand) : bool :=
  match c with
  | backup.cmdStore _ _ => true
  | _ => false
  end.

(** Between [ftp] and [ftp'] commands were sent, none of them a store. *)
Definition noStoreSince {Server : Type} (ftp ftp' : @backup.ftpDriver Server)
    : Prop :=
  exists cmds : list backup.ftpCommand,
    backup.sent ftp' = backup.sent ftp ++ cmds
    /\ Forall (fun c => isStore c = false) cmds.

(** An FTP server in memory, to run the driver on: the paths it holds, each
    a directory ([None]) or a file with its content. A path it does not hold
    is answered with the code 550. *)
Definition memServer : Type := list (string * option (list byte)).

Definition memLookup (path : string) (srv : memServer)
    : option (option (list byte)) :=
  snd <$> List.find (fun entry => String.eqb (fst entry) path) srv.

Definition memStat (path : string) (srv : memServer) : backup.FileInfo + error :=
  match memLookup path srv with
  | Some None => inl {| backup.IsDir := true |}
  | Some (Some _) => inl {| backup.IsDir := false |}
  | None => inr (ftpError 550 "no such file or directory")
  end.

Definition memMkdir (path : string) (srv : memServer)
    : (string + error) * memServer :=
  (inl path, (path, None) :: srv).

Definition memStore (path : string) (content : list byte) (srv : memServer)
    : option error * memServer :=
  (None, (path, Some content) :: srv).

Definition memRetrieve (path : string) (srv : memServer) : list byte + error :=
  match memLookup path srv with
  | Some (Some content) => inl content
  | _ => inr (ftpError 550 "no such file")
  end.

(** Joining and splitting of paths that need no cleaning. *)
Definition joinPath (a b : string) : string :=
  if String.eqb a "" then b
  else if String.eqb b "" then a
  else a +:+ "/" +:+ b.

Fixpoint splitAt (sep : ascii) (s cur : string) : list string :=
  match s with
  | EmptyString => [cur]
  | String c s' =>
      if Ascii.eqb c sep then cur :: splitAt sep s' EmptyString
      else splitAt sep s' (cur +:+ String c EmptyString)
  end.

Definition splitPath (s sep : string) : list string :=
  match sep with
  | String c EmptyString => splitAt c s EmptyString
  | _ => [s]
  end.

(** A server that holds the block of [hashOfX] under the root "backup", and
    a driver that has not yet visited any directory. *)
Definition stored : memServer :=
  [ ("backup", None); ("backup/xx", None); ("backup/xx/xx", None);
    ("backup/xx/xx/" +:+ fileOfX, Some ["o"; "l"; "d"]%byte) ].

Definition freshDriver : @backup.ftpDriver memServer :=
  {| backup.root := "backup"; backup.knownDirs := ∅;
     backup.server := stored; backup.sent := [] |}.

(** ** Block fetchers *)

(** All the pairs a fetcher yields until the end of its stream, in at most
    [calls] calls of [FetchBlock]. *)
Fixpoint fetchAll {F : Type} `{backup.blockFetcher F} (calls : nat) (bf : F)
    : outcome (list backup.blockIndexPair * option error) :=
  match calls with
  | O => Timeout
  | S calls' =>
      '(fetched, bf') ← backup.FetchBlock bf;
      match fetched with
      | inr EOF => Return ([], None)
      | inr err => Return ([], Some err)
      | inl blockPair =>
          '(rest, err) ← fetchAll calls' bf';
          Return (blockPair :: rest, err)
      end
  end.

(** The source that yields [(0, A)], [(1, B)], [(3, C)]. *)
Definition sourceABC (A B C : list byte) : backup.listBlockFetcher :=
  [ {| backup.Block := A; backup.Index := 0 |};
    {| backup.Block := B; backup.Index := 1 |};
    {| backup.Block := C; backup.Index := 3 |} ].

Definition zeroBlock (n : nat) : list byte := replicate n "000"%byte.

(** The stream of an inflation fetcher over a source. *)
Definition inflateAll (fuel calls : nat) (source : backup.listBlockFetcher)
    (srcBS dstBS : Z) : outcome (list backup.blockIndexPair * option error) :=
  ibf ← backup.newInflationBlockFetcher source srcBS dstBS;
  fetchAll (H := backup.inflationBlockFetcher_blockFetcher fuel) calls ibf.

Definition blockA : list byte := ["a"; "a"; "a"; "a"]%byte.
Definition blockB : list byte := ["b"; "b"; "b"; "b"]%byte.
Definition blockC : list byte := ["c"; "c"; "c"; "c"]%byte.

(** ** Vocabulary of the further properties *)

(** *** Clusters *)

Definition isOnline (s : config.StorageServerConfig) : Prop :=
  config.State s = config.StorageServerStateOnline.

Definition isRIP (s : config.StorageServerConfig) : Prop :=
  config.State s = config.StorageServerStateRIP.

(** The cluster that [NewCluster] builds from [oneRetired]. *)
Definition oneRetiredCluster : ardb.Cluster :=
  {| ardb.servers := config.Servers oneRetired;
     ardb.serverCount := 3;
     ardb.availableServerCount := 2 |}.

(** Servers without a state of their own that accept every connection and
    answer the command [n] with the integer [n]; and the network on which
    nothing was dialed yet. *)
Definition acceptAll : config.StorageServerConfig -> unit -> option error :=
  fun _ _ => None.

Definition echo : Z -> config.StorageServerConfig -> unit ->
                  (ardb.Reply * option error) * unit :=
  fun n _ st => ((ardb.intReply n, None), st).

Definition idle : @ardb.net unit := {| ardb.store := tt; ardb.dialed := [] |}.

Section Grouping.

Context {command : Type}.

Local Abbreviation StorageAction := (@ardb.StorageAction command).
Local Abbreviation IAM := (ardb.IndexActionMap StorageAction).
Local Abbreviation Pair := (ardb.IndexActionPair StorageAction).

(** The group of a server in a grouping: its positions and its actions. *)
Definition groupOf (servers : gmap Z IAM) (s : Z) : list Z * list StorageAction :=
  match servers !! s with
  | Some m => (ardb.Indices m, ardb.Actions m)
  | None => ([], [])
  end.

(** Given for every pair the server it is routed to: the positions, counted
    from [index], of the pairs routed to the server [s], and the actions of
    these pairs, both in the order of the pairs. *)
Fixpoint positionsOf (s : Z) (routes : list Z) (index : Z) : list Z :=
  match routes with
  | [] => []
  | r :: rest =>
      (if decide (r = s) then [index] else []) ++ positionsOf s rest (index + 1)
  end.

Fixpoint actionsOf (s : Z) (routes : list Z) (pairs : list Pair)
    : list StorageAction :=
  match routes, pairs with
  | r :: rest, p :: ps =>
      (if decide (r = s) then [ardb.Action_ p] else []) ++ actionsOf s rest ps
  | _, _ => []
  end.

(** Pair by pair, the server that [ComputeServerIndex] selects. *)
Definition routed (fuel : nat) (cluster : ardb.Cluster) (pairs : list Pair)
    (routes : list Z) : Prop :=
  Forall2 (fun (p : Pair) (s : Z) =>
             ardb.ComputeServerIndex fuel (ardb.serverCount cluster)
               (ardb.Index p) (ardb.serverOperational cluster)
             = Return (s, None))
          pairs routes.

(** The reply that stands at the position of a pair: the pair at position
    [i] is routed to a server [s], it is the [k]-th of the group of [s], and
    the reply at [i] is the [k]-th reply of [s] to its batch. *)
Definition placed (fuel : nat) (cluster : ardb.Cluster) (pairs : list Pair)
    (servers : gmap Z IAM)
    (results : list (Z * (option (list ardb.Reply) * option error)))
    (replies : list ardb.Reply) : Prop :=
  forall (i : nat) (p : Pair),
    pairs !! i = Some p ->
    exists (s : Z) (m : IAM) (rs : list ardb.Reply) (k : nat) (r : ardb.Reply),
      ardb.ComputeServerIndex fuel (ardb.serverCount cluster)
        (ardb.Index p) (ardb.serverOperational cluster)
      = Return (s, None)
      /\ servers !! s = Some m
      /\ ardb.Indices m !! k = Some (Z.of_nat i)
      /\ ardb.Actions m !! k = Some (ardb.Action_ p)
      /\ (s, (Some rs, None)) ∈ results
      /\ rs !! k = Some r
      /\ replies !! i = Some r.

End Grouping.

(** Two pairs for [oneRetiredCluster], routed to its first and to its third
    server. *)
Definition twoPairs : list (ardb.IndexActionPair (@ardb.StorageAction Z)) :=
  [ {| ardb.Index := 0; ardb.Action_ := ardb.Command 10 |};
    {| ardb.Index := 2; ardb.Action_ := ardb.Command 12 |} ].

(** *** Shards *)

(** No slot holds the all-zero hash. *)
Definition noZeroHash (hashes : list lba.Hash) : Prop :=
  Forall (fun h : lba.Hash => h <> lba.nilHash) hashes.

(** A shard whose slot 0 holds the hash of 32 bytes 0x01, the other slots
    being nil. *)
Definition oneSlotShard : lba.shard :=
  {| lba.hashes := Some (replicate 32 "001"%byte) :: replicate 127 None;
     lba.dirty := true |}.

(** *** Block fetchers of another block size *)

(** The output that an inflation fetcher keeps between two calls, if any,
    has the size of a destination block. *)
Definition cacheSized {F : Type} (ibf : backup.inflationBlockFetcher F) : Prop :=
  forall output : list byte,
    backup.cache_output ibf = Some output ->
    Z.of_nat (length output) = backup.dstBS ibf.

(** A fetcher returned by [sizedBlockFetcher] for the destination block
    size [dstBS]. *)
Definition sizedFor {F : Type} (dstBS : Z) (sf : backup.sizedFetcher F) : Prop :=
  match sf with
  | backup.inflating ibf => cacheSized ibf /\ backup.dstBS ibf = dstBS
  | backup.deflating dbf => backup.dbf_dstBS dbf = dstBS
  | backup.unsized _ => True
  end.

(** Every block that the source yields has [srcBS] bytes. *)
Definition yieldsBlocksOf {F : Type} `{backup.blockFetcher F} (srcBS : Z) : Prop :=
  forall (bf bf' : F) (blockPair : backup.blockIndexPair),
    backup.FetchBlock bf = Return (inl blockPair, bf') ->
    Z.of_nat (length (backup.Block blockPair)) = srcBS.

(** The first [n] pieces of [d] bytes of a block, numbered from [index] on,
    without the pieces that hold zeros only. *)
Fixpoint pieces (n d : nat) (block : list byte) (index : Z)
    : list backup.blockIndexPair :=
  match n with
  | O => []
  | S n' =>
      (if backup.isNilBlock (take d block) then []
       else [ {| backup.Block := take d block; backup.Index := index |} ])
      ++ pieces n' d (drop d block) (index + 1)
  end.

(** None of the first [n] pieces of [d] bytes of a block holds zeros only. *)
Fixpoint solid (n d : nat) (block : list byte) : bool :=
  match n with
  | O => true
  | S n' =>
      negb (backup.isNilBlock (take d block)) && solid n' d (drop d block)
  end.

(** The pieces of the blocks of a source, each source block cut into
    [ratio] pieces of [dstBS] bytes; the pieces of the block [i] are
    numbered from [i * ratio] on. *)
Definition deflated (ratio dstBS : Z) (source : list backup.blockIndexPair)
    : list backup.blockIndexPair :=
  flat_map (fun p => pieces (Z.to_nat ratio) (Z.to_nat dstBS)
                       (backup.Block p) (backup.Index p * ratio))
           source.

(** The stream of a deflation fetcher over a source. *)
Definition deflateAll (fuel calls : nat) (source : backup.listBlockFetcher)
    (srcBS dstBS : Z) : outcome (list backup.blockIndexPair * option error) :=
  dbf ← backup.newDeflationBlockFetcher source srcBS dstBS;
  fetchAll (H := backup.deflationBlockFetcher_FetchBlock fuel) calls dbf.

(** A source block is in the range of the fetchers when it has [srcBS]
    bytes and its index, and the indices of its pieces, are not negative
    and leave room for the arithmetic on [int64]. *)
Definition sourceBlock (srcBS ratio : Z) (p : backup.blockIndexPair) : Prop :=
  Z.of_nat (length (backup.Block p)) = srcBS
  /\ 0 <= backup.Index p
  /\ (backup.Index p + 1) * ratio <= Int64.max_signed.

(** The destination block that holds the one source block [p] at its place
    and zeros elsewhere. *)
Definition alone (srcBS dstBS ratio : Z) (p : backup.blockIndexPair)
    : backup.blockIndexPair :=
  let offset := Z.to_nat (Z.rem (backup.Index p) ratio * srcBS) in
  {| backup.Block :=
       replicate offset "000"%byte ++ backup.Block p
       ++ replicate (Z.to_nat dstBS - offset - Z.to_nat srcBS) "000"%byte;
     backup.Index := Z.quot (backup.Index p) ratio |}.

(** *** The watcher of a storage cluster *)

(** A watcher and the contexts agree: the watcher holds a cancel function
    exactly when it has a cluster id, and the one live context, if any, is
    the watcher's; contexts are handed out in increasing order. *)
Definition watching (scw : storage.storageClusterWatcher)
    (w : storage.contexts) : Prop :=
  (forall c : nat, c ∈ storage.live w -> (c < storage.next w)%nat)
  /\ match storage.cancel scw with
     | Some c => storage.clusterID scw <> "" /\ storage.live w = {[ c ]}
     | None => storage.clusterID scw = "" /\ storage.live w = ∅
     end.

(** No context was made yet. *)
Definition noContexts : storage.contexts :=
  {| storage.live := ∅; storage.next := 0; storage.markedInvalid := [] |}.

(** *** The FTP driver, continued *)

Definition isStatOrMkdir (c : backup.ftpCommand) : bool :=
  match c with
  | backup.cmdStat _ | backup.cmdMkdir _ => true
  | _ => false
  end.

(** From [ftp] to [ftp'] a walk through directories took place: the driver
    sent [cmds], Stat and Mkdir commands only, kept its root and what it
    knew, and what it learned are paths that the server, asked with Stat,
    reported as directories. *)
Definition walked {Server : Type}
    (Stat : string -> Server -> backup.FileInfo + error)
    (ftp ftp' : @backup.ftpDriver Server) (cmds : list backup.ftpCommand)
    : Prop :=
  backup.root ftp' = backup.root ftp
  /\ backup.sent ftp' = backup.sent ftp ++ cmds
  /\ Forall (fun c => isStatOrMkdir c = true) cmds
  /\ backup.knownDirs ftp ⊆ backup.knownDirs ftp'
  /\ forall d : string,
       d ∈ backup.knownDirs ftp' ->
       d ∈ backup.knownDirs ftp
       \/ (backup.cmdStat d ∈ cmds
           /\ exists (srv : Server) (info : backup.FileInfo),
                Stat d srv = inl info /\ backup.IsDir info = true).

(** A driver that has visited the directory of the block of [hashOfX]. *)
Definition visitedDriver : @backup.ftpDriver memServer :=
  {| backup.root := "backup"; backup.knownDirs := {[ "backup/xx/xx" ]};
     backup.server := stored; backup.sent := [] |}.

(** *** Fixtures of the block fetchers and of the storage clusters *)

(** The state of a deflation fetcher between two steps: [k] pieces of the
    current block are left, and the source still holds [rest]. *)
Definition deflating (srcBS dstBS ratio : Z)
    (dbf : backup.deflationBlockFetcher backup.listBlockFetcher) (k : nat)
    (rest : list backup.blockIndexPair) : Prop :=
  backup.dbf_dstBS dbf = dstBS
  /\ backup.dbf_ratio dbf = ratio
  /\ backup.dbf_in dbf = rest
  /\ length (backup.cb dbf) = (k * Z.to_nat dstBS)%nat
  /\ -1 <= backup.cbi dbf
  /\ backup.cbi dbf + Z.of_nat k <= Int64.max_signed
  /\ Forall (sourceBlock srcBS ratio) rest.

(** The source block of index 1 and 16 bytes, its second piece zeros. *)
Definition sixteenBytes : backup.blockIndexPair :=
  {| backup.Block := blockA ++ zeroBlock 4 ++ blockB ++ blockC;
     backup.Index := 1 |}.

(** A config whose first server is retired. *)
Definition retiredFirst : config.StorageClusterConfig :=
  {| config.Servers :=
       [ {| config.Address := ""; config.Database := 0;
            config.State := config.StorageServerStateRIP |};
         {| config.Address := "10.0.0.2:16379"; config.Database := 0;
            config.State := config.StorageServerStateOnline |} ] |}.

(** The template cluster over the servers of [oneRetired], a dialer that
    times out, and the state before and after a call that met the time-out
    at the first server. *)
Definition templateOfOneRetired : storage.TemplateCluster :=
  {| storage.vdiskID := "vd"; storage.servers := config.Servers oneRetired;
     storage.serverCount := 3 |}.

Definition timeoutDial : config.StorageServerConfig -> unit -> option error :=
  fun _ _ => Some (netError true false "i/o timeout").

Definition quiet : @storage.state unit :=
  {| storage.network := idle; storage.broadcasts := [] |}.

Definition afterTimeout : @storage.state unit :=
  {| storage.network :=
       {| ardb.store := tt;
          ardb.dialed := [ {| config.Address := "10.0.0.1:16379";
                              config.Database := 0;
                              config.State := config.StorageServerStateOnline |} ] |};
     storage.broadcasts :=
       [ (log.StatusServerTimeout,
          {| config.Address := "10.0.0.1:16379"; config.Database := 0;
             config.State := config.StorageServerStateOnline |}) ] |}.

(** *** Writers *)

(** The writes of [chunks] to a writer, one after the other, up to the first
    one that fails. *)
Fixpoint writeAll {W : Type} `{lba.Writer W} (chunks : list (list byte)) (w : W)
    : W * option error :=
  match chunks with
  | [] => (w, None)
  | chunk :: rest =>
      match lba.Write w chunk with
      | (w', Some err) => (w', Some err)
      | (w', None) => writeAll rest w'
      end
  end.

(** The 32 bytes written for a slot. *)
Definition slotBytes (h : lba.Hash) : list byte := default lba.zeroHash h.

(** * Properties *)

(** ** Machine integers *)

Lemma Int64_signed_small (x : Z) : Int64.in_range x -> Int64.signed x = x.
Proof.
  unfold Int64.in_range, Int64.signed, Int64.min_signed, Int64.max_signed,
    Int64.modulus.
  intros Hx. rewrite Z.mod_small; lia.
Qed.

(** ** Construction of a cluster *)

Lemma countState_cons (st : config.StorageServerState)
    (s : config.StorageServerConfig) (l : list config.StorageServerConfig) :
  countState st (s :: l) =
  (if decide (config.State s = st) then 1 else 0) + countState st l.
Proof.
  unfold countState. rewrite filter_cons.
  destruct (decide (config.State s = st)); simpl length; lia.
Qed.

Lemma countAvailable_inl (servers : list config.StorageServerConfig) :
  forall a r : Z,
    ardb.countAvailable servers a = inl r ->
    r = a - countState config.StorageServerStateRIP servers
    /\ Z.of_nat (length servers) =
       countState config.StorageServerStateOnline servers
       + countState config.StorageServerStateRIP servers.
Proof.
  induction servers as [|s l IH]; intros a r H; simpl in H.
  - injection H as <-. unfold countState. simpl. lia.
  - rewrite !countState_cons. simpl length.
    destruct (decide (config.State s = config.StorageServerStateOnline)) as [Hon|Hon].
    + apply IH in H as [-> Hlen].
      destruct (decide (config.State s = config.StorageServerStateRIP));
        [congruence | lia].
    + destruct (decide (config.State s <> config.StorageServerStateRIP)) as [Hrip|Hrip];
        [discriminate|].
      apply IH in H as [-> Hlen].
      destruct (decide (config.State s = config.StorageServerStateRIP));
        [lia | contradiction].
Qed.

(** C3, as stated, fails: for the accepted config of two online servers and
    one RIP server [ServerCount()] is 2, not Online + RIP = 3. *)
Lemma ServerCount_counts_RIP_counterexample :
  exists cluster : ardb.Cluster,
    ardb.NewCluster (fun _ => None) oneRetired = (Some cluster, None)
    /\ ardb.Cluster_ServerCount cluster
       <> countState config.StorageServerStateOnline (config.Servers oneRetired)
          + countState config.StorageServerStateRIP (config.Servers oneRetired).
Proof.
  eexists. split; [reflexivity|]. vm_compute. discriminate.
Qed.

(** C3, amended: for every cluster config accepted by [NewCluster],
    [ServerCount()] is the number of servers whose state is Online; the RIP
    servers are left out of it, and Online + RIP is the full length
    [serverCount]. *)
Theorem ServerCount_counts_Online
    (validateCluster : config.StorageClusterConfig -> option error)
    (cfg : config.StorageClusterConfig) (cluster : ardb.Cluster) :
  ardb.NewCluster validateCluster cfg = (Some cluster, None) ->
  ardb.Cluster_ServerCount cluster
  = countState config.StorageServerStateOnline (config.Servers cfg)
  /\ ardb.serverCount cluster
     = countState config.StorageServerStateOnline (config.Servers cfg)
       + countState config.StorageServerStateRIP (config.Servers cfg)
  /\ 0 < ardb.Cluster_ServerCount cluster.
Proof.
  unfold ardb.NewCluster, ardb.Cluster_ServerCount. intros H.
  destruct (validateCluster cfg); [discriminate|].
  destruct (ardb.countAvailable _ _) as [a|e] eqn:Hc; [|discriminate].
  apply countAvailable_inl in Hc as [Ha Hlen].
  destruct (a =? 0) eqn:Hz; [discriminate|].
  injection H as <-. simpl. apply Z.eqb_neq in Hz.
  assert (0 <= countState config.StorageServerStateOnline (config.Servers cfg))
    by (unfold countState; lia).
  lia.
Qed.

Lemma ServerCount_counts_Online_witness :
  exists cluster : ardb.Cluster,
    ardb.NewCluster (fun _ => None) oneRetired = (Some cluster, None)
    /\ ardb.Cluster_ServerCount cluster = 2.
Proof.
  eexists. split; [reflexivity|].
  exact (proj1 (ServerCount_counts_Online (fun _ => None) oneRetired _ eq_refl)).
Defined.

(** ** Server selection *)

(** C5: with a predicate that returns [(true, nil)] for every index,
    [ComputeServerIndex(N, x, predicate)] returns [x mod N] and no error,
    for every N >= 1 and x >= 0, whatever the budget of its search loop: the
    modulo is tried first and settles the call. *)
Theorem ComputeServerIndex_all_operational
    (fuel : nat) (serverCount objectIndex : Z)
    (predicate : ardb.ServerIndexPredicate) :
  1 <= serverCount ->
  0 <= objectIndex ->
  (forall i : Z, predicate i = Return (true, None)) ->
  ardb.ComputeServerIndex fuel serverCount objectIndex predicate
  = Return (objectIndex mod serverCount, None).
Proof.
  intros HN Hx Hp. unfold ardb.ComputeServerIndex.
  destruct (serverCount =? 0) eqn:E; [apply Z.eqb_eq in E; lia|].
  rewrite Z.rem_mod_nonneg by lia.
  rewrite Hp. reflexivity.
Qed.

Lemma ComputeServerIndex_all_operational_witness :
  ardb.ComputeServerIndex 0 13 100 (fun _ => Return (true, None))
  = Return (9, None).
Proof.
  apply (ComputeServerIndex_all_operational 0 13 100
           (fun _ => Return (true, None))); [lia | lia | reflexivity].
Defined.

(** *** What a [float64] truncates to *)





(** *** Rounding to binary64 *)








Lemma loc_of_shr_record_of_loc (m : Z) (l : location) :
  loc_of_shr_record (shr_record_of_loc m l) = l.
Proof. destruct l as [|[| |]]; reflexivity. Qed.




(** *** [float64] of an integer *)





(** *** The quotient and the product of [jumpNext] *)











(** *** The loops of [ComputeServerIndex] *)

Lemma settled_None (b : bool) : ardb.settled b None = b.
Proof. unfold ardb.settled. destruct b; reflexivity. Qed.

Lemma jumpLoop_fuel_mono (N : Z) :
  forall (fuel fuel' : nat) (serverIndex key j v : Z),
    (fuel <= fuel')%nat ->
    ardb.jumpLoop fuel N serverIndex key j = Return v ->
    ardb.jumpLoop fuel' N serverIndex key j = Return v.
Proof.
  induction fuel as [|fuel IH]; intros fuel' si key j v Hle H.
  - destruct fuel'; simpl in *; destruct (j <? N); congruence.
  - destruct fuel' as [|fuel']; [lia|].
    simpl in *. destruct (j <? N); [|exact H].
    eapply IH; [lia | exact H].
Qed.


Section Search.

Variables (N : Z) (p : ardb.ServerIndexPredicate).
Hypothesis p_errorFree : errorFree p.

(** What the search loop returns was found operational. *)
Lemma searchLoop_sound :
  forall (fuel : nat) (serverIndex objectIndex i : Z) (e : option error),
    ardb.searchLoop fuel N serverIndex objectIndex p = Return (i, e) ->
    e = None /\ p i = Return (true, None) /\ finds N p serverIndex objectIndex i.
Proof.
  induction fuel as [|fuel IH]; intros si o i e H; [discriminate|].
  simpl in H.
  destruct (ardb.jumpLoop fuel N si (Int64.unsigned o) 0) as [c| |] eqn:Hj;
    simpl in H; try discriminate.
  destruct (p_errorFree c) as [b Hb]. rewrite Hb in H. simpl in H.
  rewrite settled_None in H. destruct b.
  - injection H as <- <-. repeat split; [exact Hb|].
    eapply finds_now; eassumption.
  - apply IH in H as (He & Hp & Hf). repeat split; [exact He | exact Hp |].
    eapply finds_next; eassumption.
Qed.

(** What the candidates offer, the search loop returns, given the fuel. *)
Lemma searchLoop_complete (serverIndex objectIndex i : Z) :
  finds N p serverIndex objectIndex i ->
  exists fuel0 : nat, forall fuel : nat, (fuel0 <= fuel)%nat ->
    ardb.searchLoop fuel N serverIndex objectIndex p = Return (i, None).
Proof.
  induction 1 as [fj si o i Hj Hp | fj si o c i Hj Hp _ [f0 IH]].
  - exists (S fj). intros [|fuel] Hle; [lia|]. simpl.
    rewrite (jumpLoop_fuel_mono N fj fuel _ _ _ _ ltac:(lia) Hj). simpl.
    rewrite Hp. reflexivity.
  - exists (S (Nat.max fj f0)). intros [|fuel] Hle; [lia|]. simpl.
    rewrite (jumpLoop_fuel_mono N fj fuel _ _ _ _ ltac:(lia) Hj). simpl.
    rewrite Hp. simpl. apply IH. lia.
Qed.

End Search.

Lemma ComputeServerIndex_unfold (fuel : nat) (N x : Z)
    (p : ardb.ServerIndexPredicate) :
  1 <= N -> 0 <= x ->
  ardb.ComputeServerIndex fuel N x p =
  ('(ok, err) ← p (x mod N);
   if ardb.settled ok err then Return (x mod N, err)
   else ardb.searchLoop fuel N (x mod N) x p).
Proof.
  intros HN Hx. unfold ardb.ComputeServerIndex.
  destruct (N =? 0) eqn:E; [apply Z.eqb_eq in E; lia|].
  rewrite Z.rem_mod_nonneg by lia. reflexivity.
Qed.

Lemma ComputeServerIndex_operational (fuel : nat) (N x i : Z)
    (e : option error) (p : ardb.ServerIndexPredicate) :
  1 <= N -> 0 <= x -> errorFree p ->
  ardb.ComputeServerIndex fuel N x p = Return (i, e) ->
  e = None /\ p i = Return (true, None).
Proof.
  intros HN Hx Hp H. rewrite ComputeServerIndex_unfold in H by assumption.
  destruct (Hp (x mod N)) as [b Hb]. rewrite Hb in H.
  simpl in H. rewrite settled_None in H. destruct b.
  - split; congruence.
  - apply (searchLoop_sound N p Hp) in H. tauto.
Qed.

(** *** The loops of [ComputeServerIndex] come to an end *)









Section Reaches.

Variables (N : Z) (p : ardb.ServerIndexPredicate).
Hypothesis N_range : 1 <= N <= 2 ^ 31.
Hypothesis p_errorFree : errorFree p.

(** An object index [k] with an operational candidate [t]. *)
Variables (k t : Z) (fuelk : nat).
Hypothesis k_range : 0 <= k < 2 ^ 63.
Hypothesis k_candidate :
  forall serverIndex : Z, ardb.jumpLoop fuelk N serverIndex k 0 = Return t.
Hypothesis t_operational : p t = Return (true, None).



End Reaches.

(** *** No termination on an index that is never a candidate *)





(** What the search returns, for every N >= 1, x >= 0 and predicate that
    never returns an error: [x mod N] at once when the predicate holds there;
    otherwise the call returns exactly when the predicate holds at one of the
    jump-hash candidates of x, x+1, ..., and it returns the first such
    candidate. Whatever it returns is an index for which the predicate is
    true, with no error. *)
Lemma ComputeServerIndex_first_operational_candidate
    (N x : Z) (p : ardb.ServerIndexPredicate) :
  1 <= N -> 0 <= x -> errorFree p ->
  (p (x mod N) = Return (true, None) ->
   forall fuel : nat,
     ardb.ComputeServerIndex fuel N x p = Return (x mod N, None))
  /\ (p (x mod N) = Return (false, None) ->
      forall i : Z,
        finds N p (x mod N) x i <->
        exists fuel0 : nat, forall fuel : nat, (fuel0 <= fuel)%nat ->
          ardb.ComputeServerIndex fuel N x p = Return (i, None))
  /\ (forall (fuel : nat) (i : Z) (e : option error),
        ardb.ComputeServerIndex fuel N x p = Return (i, e) ->
        e = None /\ p i = Return (true, None))
  /\ (forall (fuel : nat) (i : Z) (e : option error),
        ardb.ComputeServerIndex fuel N x evenOperational = Return (i, e) ->
        e = None /\ Z.rem i 2 = 0).
Proof.
  intros HN Hx Hp.
  split; [|split; [|split]].
  - intros Hfirst fuel.
    rewrite ComputeServerIndex_unfold, Hfirst by assumption. reflexivity.
  - intros Hfirst i. split.
    + intros Hf. destruct (searchLoop_complete N p _ _ _ Hf) as [f0 H0].
      exists f0. intros fuel Hle.
      rewrite ComputeServerIndex_unfold, Hfirst by assumption.
      simpl. apply H0, Hle.
    + intros [f0 H0]. specialize (H0 f0 (Nat.le_refl _)).
      rewrite ComputeServerIndex_unfold, Hfirst in H0 by assumption.
      simpl in H0. apply (searchLoop_sound N p Hp) in H0. tauto.
  - intros fuel i e. apply ComputeServerIndex_operational; assumption.
  - intros fuel i e H.
    apply ComputeServerIndex_operational in H as [He Hi]; try assumption.
    + split; [exact He|]. unfold evenOperational in Hi.
      injection Hi as Hi. apply Z.eqb_eq in Hi. exact Hi.
    + intros j. eexists. reflexivity.
Qed.

Lemma ComputeServerIndex_first_operational_candidate_witness :
  ardb.ComputeServerIndex 0 2 4 oddIndexedServersDead = Return (0, None).
Proof.
  refine (proj1 (ComputeServerIndex_first_operational_candidate
                   2 4 oddIndexedServersDead _ _ _) _ 0%nat).
  - lia.
  - lia.
  - intros i. unfold oddIndexedServersDead.
    destruct (Z.rem i 2 =? 1); eexists; reflexivity.
  - reflexivity.
Defined.



(** The cases of the repository's test of servers dead at the odd indices:
    two servers, then three, and the object indices 0, 1 and 2. *)
Example ComputeServerIndex_odd_dead_2_0 :
  ardb.ComputeServerIndex 8 2 0 oddIndexedServersDead = Return (0, None).
Proof. vm_compute. reflexivity. Qed.

Example ComputeServerIndex_odd_dead_2_1 :
  ardb.ComputeServerIndex 8 2 1 oddIndexedServersDead = Return (0, None).
Proof. vm_compute. reflexivity. Qed.

Example ComputeServerIndex_odd_dead_3_1 :
  ardb.ComputeServerIndex 8 3 1 oddIndexedServersDead = Return (0, None).
Proof. vm_compute. reflexivity. Qed.

Example ComputeServerIndex_odd_dead_3_2 :
  ardb.ComputeServerIndex 8 3 2 oddIndexedServersDead = Return (2, None).
Proof. vm_compute. reflexivity. Qed.

(** The jump hash on its published test vectors. *)
Example jumpLoop_vectors :
  ardb.jumpLoop 64 57 (-1) 42 0 = Return 43
  /\ ardb.jumpLoop 64 666 (-1) 3735883980 0 = Return 361
  /\ ardb.jumpLoop 64 1024 (-1) 256 0 = Return 520.
Proof. vm_compute. repeat split. Qed.

(** ** Batched dispatch *)

Section DoForAll.

Context {Store command : Type}.
Variable dial : config.StorageServerConfig -> Store -> option error.
Variable exec : command -> config.StorageServerConfig -> Store ->
                (ardb.Reply * option error) * Store.

Local Abbreviation StorageAction := (@ardb.StorageAction command).
Local Abbreviation net := (@ardb.net Store).

(** C9: on an empty pair list both [UniCluster.DoForAll] and
    [Cluster.DoForAll] return a nil reply slice and no error, and leave the
    servers and the record of dialed connections as they were: nothing is
    dialed. *)
Theorem DoForAll_no_pairs
    (uni : ardb.UniCluster) (cluster : ardb.Cluster) (fuel : nat) (w : net) :
  ardb.UniCluster_DoForAll dial exec uni [] w = Return ((None, None), w)
  /\ ardb.Cluster_DoForAll dial exec fuel cluster [] w = Return ((None, None), w).
Proof. split; reflexivity. Qed.

(** C1 fails on the code for a single pair given to a [Cluster]: the
    shortcut for one pair reads [pairs[1]], which does not exist, and the
    call panics before any server is chosen or dialed. *)
Theorem Cluster_DoForAll_single_pair_panics
    (cluster : ardb.Cluster) (fuel : nat)
    (p : ardb.IndexActionPair StorageAction) (w : net) :
  ardb.Cluster_DoForAll dial exec fuel cluster [p] w
  = Panic "index out of range".
Proof. reflexivity. Qed.

(** The same call on a [UniCluster] reads [pairs[0]]: the single reply is
    that of the pair's action applied alone. *)
Lemma UniCluster_DoForAll_single_pair
    (uni : ardb.UniCluster) (p : ardb.IndexActionPair StorageAction)
    (w w' : net) (reply : ardb.Reply) :
  ardb.UniCluster_DoFor dial exec uni (ardb.Index p) (ardb.Action_ p) w
  = ((reply, None), w') ->
  ardb.UniCluster_DoForAll dial exec uni [p] w
  = Return ((Some [reply], None), w').
Proof.
  intros H. unfold ardb.UniCluster_DoForAll. simpl. rewrite H. reflexivity.
Qed.

End DoForAll.

(** ** The template cluster *)

Section TemplateCluster.

Context {Store command : Type}.
Variable dial : config.StorageServerConfig -> Store -> option error.
Variable exec : command -> config.StorageServerConfig -> Store ->
                (ardb.Reply * option error) * Store.

Local Abbreviation StorageAction := (@ardb.StorageAction command).
Local Abbreviation state := (@storage.state Store).

(** C8: [TemplateCluster.Do] fails with [ErrMethodNotSupported] for every
    action, the servers and the record of dialed connections unchanged; and
    [TemplateCluster.DoFor] on a template cluster without servers fails with
    [ErrClusterNotDefined] for every object index and action. *)
Theorem TemplateCluster_rejects
    (tsc : storage.TemplateCluster) (action : StorageAction) (s : state)
    (fuel : nat) (objectIndex : Z) :
  storage.TemplateCluster_Do tsc action s
  = Return ((ardb.nilReply, Some ErrMethodNotSupported), s)
  /\ (storage.serverCount tsc = 0 ->
      storage.TemplateCluster_DoFor dial exec fuel tsc objectIndex action s
      = Return ((ardb.nilReply, Some ErrClusterNotDefined), s)).
Proof.
  split; [reflexivity|].
  intros H. unfold storage.TemplateCluster_DoFor. rewrite H. reflexivity.
Qed.

(** The earlier revision of the template cluster differs on both counts:
    without servers its [Do] fails with [ErrNoServersAvailable] and its
    [DoFor] panics on the modulo by zero. *)
Lemma early_TemplateCluster_without_servers
    (tsc : storage.TemplateCluster) (action : StorageAction) (s : state)
    (fuel : nat) (objectIndex : Z) :
  storage.serverCount tsc = 0 ->
  storage_early.TemplateCluster_Do dial exec tsc action s
  = Return ((ardb.nilReply, Some ErrNoServersAvailable), s)
  /\ storage_early.TemplateCluster_DoFor dial exec fuel tsc objectIndex action s
     = Panic "integer divide by zero".
Proof.
  intros H. unfold storage_early.TemplateCluster_Do,
    storage_early.TemplateCluster_DoFor, ardb.FindFirstServerIndex,
    ardb.ComputeServerIndex.
  rewrite H. split; reflexivity.
Qed.

End TemplateCluster.

(** A template cluster that no cluster config was given to, on servers
    that hold nothing and accept every connection. *)
Lemma TemplateCluster_rejects_witness :
  storage.TemplateCluster_DoFor (Store := unit) (command := unit)
    (fun _ _ => None) (fun _ _ st => ((ardb.nilReply, None), st)) 0
    {| storage.vdiskID := "vd"; storage.servers := []; storage.serverCount := 0 |}
    7 (ardb.Command tt)
    {| storage.network := {| ardb.store := tt; ardb.dialed := [] |};
       storage.broadcasts := [] |}
  = Return ((ardb.nilReply, Some ErrClusterNotDefined),
            {| storage.network := {| ardb.store := tt; ardb.dialed := [] |};
               storage.broadcasts := [] |}).
Proof.
  apply (proj2 (TemplateCluster_rejects (Store := unit) (command := unit)
                  (fun _ _ => None) (fun _ _ st => ((ardb.nilReply, None), st))
                  _ _ _ _ _)).
  reflexivity.
Defined.

(** ** Writing a shard *)

Lemma writeNilHashes_Buffer (n : nat) (buf : lba.Buffer) :
  lba.writeNilHashes n buf = (buf ++ serialized (replicate n None), None).
Proof.
  revert buf. induction n as [|n IH]; intros buf; simpl.
  - unfold serialized. simpl. rewrite app_nil_r. reflexivity.
  - unfold lba.Write, lba.Buffer_Writer. rewrite IH.
    unfold serialized. simpl. rewrite <- app_assoc. reflexivity.
Qed.

Lemma writeHashes_Buffer (hashes : list lba.Hash) (buf : lba.Buffer) :
  lba.writeHashes hashes buf = (buf ++ serialized hashes, None).
Proof.
  revert buf. induction hashes as [|h hs IH]; intros buf; simpl.
  - unfold serialized. simpl. rewrite app_nil_r. reflexivity.
  - unfold lba.Write, lba.Buffer_Writer. rewrite IH.
    unfold serialized. simpl. rewrite <- app_assoc. destruct h; reflexivity.
Qed.

(** The first loop stops at the first slot that is set: the slots before it
    are nil, and it runs to the end exactly when every slot is nil. *)
Lemma firstNonNil_spec (hashes : list lba.Hash) :
  forall index : Z,
    let k := Z.to_nat (lba.firstNonNil hashes index - index) in
    index <= lba.firstNonNil hashes index <= index + Z.of_nat (length hashes)
    /\ take k hashes = replicate k None
    /\ (lba.firstNonNil hashes index = index + Z.of_nat (length hashes)
        <-> allNil hashes).
Proof.
  induction hashes as [|h hs IH]; intros index; simpl.
  - replace (index - index) with 0 by lia. simpl.
    repeat split; try lia. constructor.
  - destruct h as [b|].
    + replace (index - index) with 0 by lia. simpl. repeat split; try lia.
      inversion 1; discriminate.
    + destruct (IH (index + 1)) as (Hr & Ht & Ha).
      replace (Z.to_nat (lba.firstNonNil hs (index + 1) - index))
        with (S (Z.to_nat (lba.firstNonNil hs (index + 1) - (index + 1))))
        by lia.
      simpl. rewrite Ht. repeat split; try lia.
      * intros H. constructor; [reflexivity|]. apply Ha. lia.
      * intros H. inversion H as [|? ? _ Hall]; subst. apply Ha in Hall. lia.
Qed.

Lemma serialized_app (l1 l2 : list lba.Hash) :
  serialized (l1 ++ l2) = serialized l1 ++ serialized l2.
Proof. unfold serialized. rewrite map_app, concat_app. reflexivity. Qed.

Lemma serialized_length (hashes : list lba.Hash) :
  hashSized hashes ->
  Z.of_nat (length (serialized hashes)) = Z.of_nat (length hashes) * lba.HashSize.
Proof.
  induction 1 as [|h hs Hh _ IH]; [reflexivity|].
  unfold serialized in *. simpl. rewrite length_app, Nat2Z.inj_add, IH.
  assert (Z.of_nat (length (default lba.zeroHash h)) = lba.HashSize) as ->.
  { destruct h as [b|]; [apply Hh; reflexivity | reflexivity]. }
  lia.
Qed.




(** What a shard read from bytes holds is never the all-zero hash: such a
    record is left nil. *)
Lemma readRecords_no_nilHash (n : nat) :
  forall (i : Z) (bytes : list byte),
    Forall (fun h => h <> lba.nilHash) (lba.readRecords n i bytes).
Proof.
  induction n as [|n IH]; intros i bytes; simpl; [constructor|].
  constructor; [|apply IH].
  unfold lba.Hash_Equals, lba.nilHash.
  destruct (bool_decide _) eqn:E; [discriminate|].
  apply bool_decide_eq_false in E. simpl in E. congruence.
Qed.

(** A writer that fails makes [Write] fail, with what was written before. *)
Example shard_Write_short_writer :
  lba.shard_Write zeroSlotShard {| lba.written := []; lba.room := 40 |}
  = ({| lba.written := replicate 32 "000"%byte; lba.room := 8 |},
     Some (errorString "short write")).
Proof. vm_compute. reflexivity. Qed.

(** ** The FTP driver *)

(** C4, as stated, fails: for the hash of 32 bytes 0x78 the driver's
    directory and file are "xx/xx" and 28 times "x", the bytes themselves,
    and not "78/78" and the remaining 60 hexadecimal digits. *)
Lemma hashAsDirAndFile_hex_counterexample :
  Z.of_nat (length hashOfX) = 32
  /\ exists dir file : string,
       backup.hashAsDirAndFile hashOfX = (dir, file, true)
       /\ (dir, file) <> spec_hashAsDirAndFile hashOfX.
Proof.
  split; [reflexivity|]. eexists _, _. split; [reflexivity|].
  vm_compute. discriminate.
Qed.

Lemma hashAsDirAndFile_accepts (hash : list byte) :
  Z.of_nat (length hash) = backup.HashSize ->
  exists (b0 b1 b2 b3 : byte) (rest : list byte),
    hash = b0 :: b1 :: b2 :: b3 :: rest
    /\ length rest = 28%nat
    /\ backup.hashAsDirAndFile hash
       = (backup.string_of_bytes [b0; b1; "/"%byte; b2; b3],
          backup.string_of_bytes rest, true).
Proof.
  intros H. unfold backup.HashSize in H.
  destruct hash as [|b0 [|b1 [|b2 [|b3 rest]]]]; simpl in H; try lia.
  exists b0, b1, b2, b3, rest. split; [reflexivity|]. split; [lia|].
  unfold backup.hashAsDirAndFile.
  rewrite bool_decide_eq_false_2; [reflexivity|].
  unfold backup.HashSize. simpl length. lia.
Qed.

Lemma hashAsDirAndFile_rejects (hash : list byte) :
  Z.of_nat (length hash) <> backup.HashSize ->
  backup.hashAsDirAndFile hash = (EmptyString, EmptyString, false).
Proof.
  intros H. unfold backup.hashAsDirAndFile.
  rewrite bool_decide_eq_true_2; [reflexivity|exact H].
Qed.

Section FTP.

Context {Server : Type}.
Variable Stat : string -> Server -> backup.FileInfo + error.
Variable Mkdir : string -> Server -> (string + error) * Server.
Variable Store : string -> list byte -> Server -> option error * Server.
Variable Retrieve : string -> Server -> list byte + error.
Variable path_Join : string -> string -> string.
Variable strings_Split : string -> string -> list string.

Local Abbreviation ftpDriver := (@backup.ftpDriver Server).

(** C4, amended: for every 32-byte hash h the directory and the file of its
    block are [h[0..2] + "/" + h[2..4]] and [h[4..]], made of the bytes of
    the hash as they are, without an encoding; a hash whose length is not
    exactly 32 bytes is rejected: [SetDedupedBlock] and [GetDedupedBlock]
    fail with [errInvalidHash] and send nothing. *)
Theorem hashAsDirAndFile_raw_bytes (hash r : list byte) (ftp : ftpDriver) :
  (Z.of_nat (length hash) = backup.HashSize ->
   exists (b0 b1 b2 b3 : byte) (rest : list byte),
     hash = b0 :: b1 :: b2 :: b3 :: rest
     /\ length rest = 28%nat
     /\ backup.hashAsDirAndFile hash
        = (backup.string_of_bytes [b0; b1; "/"%byte; b2; b3],
           backup.string_of_bytes rest, true))
  /\ (Z.of_nat (length hash) <> backup.HashSize ->
      backup.SetDedupedBlock Stat Mkdir Store path_Join strings_Split hash r ftp
      = (Some errInvalidHash, ftp)
      /\ backup.GetDedupedBlock Retrieve path_Join hash ftp
         = (([], Some errInvalidHash), ftp)).
Proof.
  split; [apply hashAsDirAndFile_accepts|].
  intros H. unfold backup.SetDedupedBlock, backup.GetDedupedBlock.
  rewrite (hashAsDirAndFile_rejects hash H). split; reflexivity.
Qed.

Lemma noStoreSince_refl (ftp : ftpDriver) : noStoreSince ftp ftp.
Proof. exists []. rewrite app_nil_r. split; [reflexivity|constructor]. Qed.

Lemma noStoreSince_trans (ftp1 ftp2 ftp3 : ftpDriver) :
  noStoreSince ftp1 ftp2 -> noStoreSince ftp2 ftp3 -> noStoreSince ftp1 ftp3.
Proof.
  intros (c1 & H1 & F1) (c2 & H2 & F2). exists (c1 ++ c2).
  rewrite H2, H1, app_assoc. split; [reflexivity|].
  apply Forall_app. split; assumption.
Qed.

Lemma noStoreSince_send (c : backup.ftpCommand) (srv : Server) (ftp : ftpDriver) :
  isStore c = false -> noStoreSince ftp (backup.send c srv ftp).
Proof.
  intros H. exists [c]. split; [reflexivity|].
  constructor; [exact H|constructor].
Qed.

Lemma noStoreSince_know (dir : string) (ftp : ftpDriver) :
  noStoreSince ftp (backup.know dir ftp).
Proof. exists []. simpl. rewrite app_nil_r. split; [reflexivity|constructor]. Qed.

(** Walking the directories sends [Stat] and [Mkdir] only. *)
Lemma mkdirsWalk_no_store (dirs : list string) :
  forall (pwd : string) (ftp : ftpDriver),
    noStoreSince ftp (backup.mkdirsWalk Stat Mkdir path_Join dirs pwd ftp).2.
Proof.
  induction dirs as [|d rest IH]; intros pwd ftp; simpl.
  - apply noStoreSince_refl.
  - destruct (bool_decide _); [apply IH|].
    pose proof (noStoreSince_send (backup.cmdStat (path_Join pwd d))
                  (backup.server ftp) ftp eq_refl) as Hstat.
    destruct (Stat _ _) as [info|err].
    + destruct (negb (backup.IsDir info)); simpl; [exact Hstat|].
      eapply noStoreSince_trans; [exact Hstat|].
      eapply noStoreSince_trans; [apply noStoreSince_know|apply IH].
    + match goal with |- context [if ?b then _ else _] => destruct b end;
        simpl; [|exact Hstat].
      destruct (Mkdir _ _) as [[output|err'] srv]; simpl.
      * eapply noStoreSince_trans; [exact Hstat|].
        eapply noStoreSince_trans; [|apply IH].
        apply noStoreSince_send. reflexivity.
      * eapply noStoreSince_trans; [exact Hstat|].
        apply noStoreSince_send. reflexivity.
Qed.

Lemma mkdirs_no_store (dir : string) (ftp : ftpDriver) :
  noStoreSince ftp (backup.mkdirs Stat Mkdir path_Join strings_Split dir ftp).2.
Proof.
  unfold backup.mkdirs. destruct (bool_decide _).
  - apply noStoreSince_refl.
  - apply mkdirsWalk_no_store.
Qed.

(** [lazyStore] stores at most its own path and content, and only on the
    answer that the path does not exist. *)
Lemma lazyStore_stores_only_new (target : string) (r : list byte)
    (ftp1 : ftpDriver) (path : string) (content : list byte) :
  backup.cmdStore path content
    ∈ backup.sent (backup.lazyStore Stat Store target r ftp1).2 ->
  backup.cmdStore path content ∈ backup.sent ftp1
  \/ (path = target /\ content = r
      /\ exists e : error,
           Stat target (backup.server ftp1) = inr e
           /\ backup.isFTPErrorCode backup.ftpErrorNoExists (Some e) = true).
Proof.
  unfold backup.lazyStore. intros Hin.
  destruct (Stat target (backup.server ftp1)) as [info|e] eqn:Hs.
  - left. destruct (backup.IsDir info); simpl in Hin;
      apply elem_of_app in Hin as [Hi|Hi]; try exact Hi;
      apply list_elem_of_singleton in Hi; discriminate.
  - destruct (backup.isFTPErrorCode backup.ftpErrorNoExists (Some e)) eqn:Hc.
    + destruct (Store target r _) as [err' srv].
      simpl in Hin. apply elem_of_app in Hin as [Hi|Hi].
      * apply elem_of_app in Hi as [Hi|Hi]; [left; exact Hi|].
        apply list_elem_of_singleton in Hi. discriminate.
      * apply list_elem_of_singleton in Hi. injection Hi as -> ->.
        right. repeat split. exists e. split; [reflexivity|exact Hc].
    + left. simpl in Hin.
      apply elem_of_app in Hin as [Hi|Hi]; [exact Hi|].
      apply list_elem_of_singleton in Hi. discriminate.
Qed.

Lemma noStoreSince_elem (ftp ftp1 : ftpDriver) (path : string)
    (content : list byte) :
  noStoreSince ftp ftp1 ->
  backup.cmdStore path content ∈ backup.sent ftp1 ->
  backup.cmdStore path content ∈ backup.sent ftp.
Proof.
  intros (cmds & Hsent & Hcmds). rewrite Hsent. intros Hi.
  apply elem_of_app in Hi as [Hi|Hi]; [exact Hi|].
  rewrite Forall_forall in Hcmds. apply Hcmds in Hi. discriminate.
Qed.

(** C10: [SetDedupedBlock] never overwrites. Whatever the call sends, the
    only store among it is that of the reader's content at the target path
    [<dir>/<file>], and it is sent only after the server answered that the
    path does not exist (code 550). Once the directory of the block is there
    ([mkdirs] succeeded): if the target is a regular file the call returns
    success and leaves the server as it was, nothing stored; if it is a
    directory the call fails; if it does not exist the content is stored. *)
Theorem SetDedupedBlock_never_overwrites (hash r : list byte) (ftp : ftpDriver) :
  let run :=
    backup.SetDedupedBlock Stat Mkdir Store path_Join strings_Split hash r ftp in
  (forall (path : string) (content : list byte),
     backup.cmdStore path content ∈ backup.sent run.2 ->
     backup.cmdStore path content ∈ backup.sent ftp
     \/ (content = r
         /\ exists (dir file dir' : string) (ftp1 : ftpDriver) (e : error),
              backup.hashAsDirAndFile hash = (dir, file, true)
              /\ backup.mkdirs Stat Mkdir path_Join strings_Split dir ftp
                 = ((dir', None), ftp1)
              /\ path = path_Join dir' file
              /\ Stat path (backup.server ftp1) = inr e
              /\ backup.isFTPErrorCode backup.ftpErrorNoExists (Some e) = true))
  /\ (forall (dir file dir' : string) (ftp1 : ftpDriver),
        backup.hashAsDirAndFile hash = (dir, file, true) ->
        backup.mkdirs Stat Mkdir path_Join strings_Split dir ftp
        = ((dir', None), ftp1) ->
        let target := path_Join dir' file in
        let asked :=
          backup.send (backup.cmdStat target) (backup.server ftp1) ftp1 in
        (forall info : backup.FileInfo,
           Stat target (backup.server ftp1) = inl info ->
           backup.IsDir info = false ->
           run = (None, asked))
        /\ (forall info : backup.FileInfo,
              Stat target (backup.server ftp1) = inl info ->
              backup.IsDir info = true ->
              run = (Some (errorString (target +:+ " is a dir")), asked))
        /\ (forall e : error,
              Stat target (backup.server ftp1) = inr e ->
              backup.isFTPErrorCode backup.ftpErrorNoExists (Some e) = true ->
              run = ((Store target r (backup.server ftp1)).1,
                     backup.send (backup.cmdStore target r)
                       (Store target r (backup.server ftp1)).2 asked))).
Proof.
  intros run. split.
  - intros path content Hin. unfold run, backup.SetDedupedBlock in Hin.
    destruct (backup.hashAsDirAndFile hash) as [[dir file] ok] eqn:Hh.
    destruct ok; simpl in Hin; [|left; exact Hin].
    pose proof (mkdirs_no_store dir ftp) as Hno.
    destruct (backup.mkdirs Stat Mkdir path_Join strings_Split dir ftp)
      as [[dir' [err|]] ftp1] eqn:Hm; simpl in Hno.
    + left. eapply noStoreSince_elem; [exact Hno | exact Hin].
    + apply lazyStore_stores_only_new in Hin as [Hi|(-> & -> & e & Hs & Hc)].
      * left. eapply noStoreSince_elem; [exact Hno | exact Hi].
      * right. split; [reflexivity|].
        exists dir, file, dir', ftp1, e. repeat split; assumption.
  - intros dir file dir' ftp1 Hh Hm target asked.
    assert (Hrun : run = backup.lazyStore Stat Store target r ftp1).
    { unfold run, backup.SetDedupedBlock. rewrite Hh. simpl. rewrite Hm.
      reflexivity. }
    rewrite Hrun. unfold backup.lazyStore. fold asked.
    split; [|split].
    + intros info Hs Hd. rewrite Hs, Hd. reflexivity.
    + intros info Hs Hd. rewrite Hs, Hd. reflexivity.
    + intros e Hs Hc. rewrite Hs, Hc.
      destruct (Store target r (backup.server asked)) eqn:E.
      change (backup.server asked) with (backup.server ftp1) in E.
      rewrite E. reflexivity.
Qed.

End FTP.

Lemma hashAsDirAndFile_raw_bytes_witness :
  exists (b0 b1 b2 b3 : byte) (rest : list byte),
    hashOfX = b0 :: b1 :: b2 :: b3 :: rest
    /\ length rest = 28%nat
    /\ backup.hashAsDirAndFile hashOfX
       = (backup.string_of_bytes [b0; b1; "/"%byte; b2; b3],
          backup.string_of_bytes rest, true).
Proof.
  apply (proj1 (hashAsDirAndFile_raw_bytes memStat memMkdir memStore
                  memRetrieve joinPath splitPath hashOfX [] freshDriver)).
  reflexivity.
Defined.

(** The block of [hashOfX] is on the server already: the new content is not
    stored, and the old one stays. *)
Lemma SetDedupedBlock_never_overwrites_witness :
  exists ftp' : @backup.ftpDriver memServer,
    backup.SetDedupedBlock memStat memMkdir memStore joinPath splitPath
      hashOfX ["n"; "e"; "w"]%byte freshDriver = (None, ftp')
    /\ backup.server ftp' = stored.
Proof.
  eexists. split.
  - refine (proj1 (proj2 (SetDedupedBlock_never_overwrites memStat memMkdir
                            memStore joinPath splitPath hashOfX
                            ["n"; "e"; "w"]%byte freshDriver)
                     "xx/xx" fileOfX "backup/xx/xx"
                     (backup.mkdirs memStat memMkdir joinPath splitPath
                        "xx/xx" freshDriver).2 _ _)
              {| backup.IsDir := false |} _ _); reflexivity.
  - reflexivity.
Defined.

(** The driver on a server that holds nothing yet makes the directories and
    stores the block. *)
Example SetDedupedBlock_stores_new_block :
  let run :=
    backup.SetDedupedBlock memStat memMkdir memStore joinPath splitPath
      hashOfX ["n"; "e"; "w"]%byte
      {| backup.root := "backup"; backup.knownDirs := ∅;
         backup.server := []; backup.sent := [] |} in
  run.1 = None
  /\ memRetrieve ("backup/xx/xx/" +:+ fileOfX) (backup.server run.2)
     = inl ["n"; "e"; "w"]%byte.
Proof. vm_compute. split; reflexivity. Qed.

(** ** The inflation block fetcher *)

(** C2, as stated, fails: from the 4-byte source blocks (0, A), (1, B),
    (3, C) the inflation fetcher with 16-byte destination blocks does not
    produce (0, A‖B‖0‖0) and then (0, 0‖0‖0‖C). *)
Lemma inflation_two_blocks_counterexample :
  inflateAll 8 8 (sourceABC blockA blockB blockC) 4 16
  <> Return
       ([ {| backup.Block := blockA ++ blockB ++ zeroBlock 4 ++ zeroBlock 4;
             backup.Index := 0 |};
          {| backup.Block := zeroBlock 4 ++ zeroBlock 4 ++ zeroBlock 4 ++ blockC;
             backup.Index := 0 |} ], None).
Proof. vm_compute. discriminate. Qed.

(** C2, amended: for a source block fetcher yielding exactly the pairs
    (0, A), (1, B), (3, C) with source block size 4 bytes and destination
    block size 16 bytes, the inflation block fetcher produces the single
    destination block (0, A‖B‖0‖C) of 16 bytes, index 3/4 = 0, the gap of
    the missing source block 2 left zero, and then signals the end of the
    stream. *)
Theorem inflation_one_block (A B C : list byte) (fuel calls : nat) :
  length A = 4%nat -> length B = 4%nat -> length C = 4%nat ->
  (2 <= fuel)%nat -> (2 <= calls)%nat ->
  inflateAll fuel calls (sourceABC A B C) 4 16
  = Return ([ {| backup.Block := A ++ B ++ zeroBlock 4 ++ C;
                 backup.Index := 0 |} ], None).
Proof.
  intros HA HB HC Hf Hc.
  destruct A as [|a0 [|a1 [|a2 [|a3 [|]]]]]; try discriminate.
  destruct B as [|b0 [|b1 [|b2 [|b3 [|]]]]]; try discriminate.
  destruct C as [|c0 [|c1 [|c2 [|c3 [|]]]]]; try discriminate.
  destruct calls as [|[|calls]]; try lia.
  destruct fuel as [|[|[|fuel]]]; try lia; reflexivity.
Qed.

Lemma inflation_one_block_witness :
  inflateAll 2 2 (sourceABC blockA blockB blockC) 4 16
  = Return ([ {| backup.Block := blockA ++ blockB ++ zeroBlock 4 ++ blockC;
                 backup.Index := 0 |} ], None).
Proof.
  apply (inflation_one_block blockA blockB blockC 2 2);
    [reflexivity | reflexivity | reflexivity | lia | lia].
Defined.

(** * Further properties of the code *)

(** ** The first operational server *)

Lemma findFirstFrom_none (p : ardb.ServerIndexPredicate) :
  forall (n : nat) (i0 : Z),
    (forall j, i0 <= j < i0 + Z.of_nat n -> p j = Return (false, None)) ->
    ardb.findFirstFrom n i0 p = Return (-1, Some ErrNoServersAvailable).
Proof.
  induction n as [|n IH]; intros i0 H; simpl; [reflexivity|].
  rewrite H by lia. simpl. apply IH. intros j Hj. apply H. lia.
Qed.

Lemma findFirstFrom_first (p : ardb.ServerIndexPredicate) :
  forall (n : nat) (i0 i : Z),
    i0 <= i < i0 + Z.of_nat n ->
    p i = Return (true, None) ->
    (forall j, i0 <= j < i -> p j = Return (false, None)) ->
    ardb.findFirstFrom n i0 p = Return (i, None).
Proof.
  induction n as [|n IH]; intros i0 i Hi Hp Hbefore; [lia|]. simpl.
  destruct (Z.eq_dec i i0) as [->|Hne].
  - rewrite Hp. reflexivity.
  - rewrite Hbefore by lia. simpl. apply IH; [lia|exact Hp|].
    intros j Hj. apply Hbefore. lia.
Qed.

Lemma findFirstFrom_error (p : ardb.ServerIndexPredicate) (i : Z) (ok : bool)
    (e : error) :
  p i = Return (ok, Some e) ->
  forall (n : nat) (i0 : Z),
    i0 <= i < i0 + Z.of_nat n ->
    (forall j, i0 <= j < i -> p j = Return (false, None)) ->
    ardb.findFirstFrom n i0 p = Return (i, Some e).
Proof.
  intros Hp. induction n as [|n IH]; intros i0 Hr Hbe; [lia|]. simpl.
  destruct (Z.eq_dec i i0) as [->|Hne].
  - rewrite Hp. simpl. unfold ardb.settled.
    rewrite bool_decide_eq_true_2 by discriminate.
    rewrite orb_true_r. reflexivity.
  - rewrite Hbe by lia. simpl. apply IH; [lia|].
    intros j Hj. apply Hbe. lia.
Qed.

(** [FindFirstServerIndex] scans the indices 0, 1, ... below [serverCount]
    in order: it returns the first index the predicate accepts; when the
    predicate rejects every index it returns -1 and [ErrNoServersAvailable];
    and an error of the predicate at an index, the indices before it being
    rejected, ends the scan and is returned with that index. *)
Theorem FindFirstServerIndex_first_operational
    (serverCount : Z) (p : ardb.ServerIndexPredicate) :
  (forall i : Z,
     0 <= i < serverCount ->
     p i = Return (true, None) ->
     (forall j, 0 <= j < i -> p j = Return (false, None)) ->
     ardb.FindFirstServerIndex serverCount p = Return (i, None))
  /\ ((forall j, 0 <= j < serverCount -> p j = Return (false, None)) ->
      ardb.FindFirstServerIndex serverCount p
      = Return (-1, Some ErrNoServersAvailable))
  /\ (forall (i : Z) (e : error),
        0 <= i < serverCount ->
        (exists ok, p i = Return (ok, Some e)) ->
        (forall j, 0 <= j < i -> p j = Return (false, None)) ->
        ardb.FindFirstServerIndex serverCount p = Return (i, Some e)).
Proof.
  unfold ardb.FindFirstServerIndex. split; [|split].
  - intros i Hi Hp Hb. apply findFirstFrom_first; [lia|exact Hp|exact Hb].
  - intros H. apply findFirstFrom_none. intros j Hj. apply H. lia.
  - intros i e Hi [ok Hp] Hb.
    eapply findFirstFrom_error; [exact Hp|lia|exact Hb].
Qed.

Lemma FindFirstServerIndex_first_operational_witness :
  ardb.FindFirstServerIndex 3 (fun i => Return (2 <=? i, None))
  = Return (2, None).
Proof.
  apply (proj1 (FindFirstServerIndex_first_operational 3
                  (fun i => Return (2 <=? i, None))));
    [lia | reflexivity |].
  intros j Hj. assert (j = 0 \/ j = 1) as [-> | ->] by lia; reflexivity.
Defined.

(** ** Construction of a cluster, continued *)

Lemma countAvailable_all_supported (servers : list config.StorageServerConfig) :
  forall a : Z,
    Forall (fun s => isOnline s \/ isRIP s) servers ->
    ardb.countAvailable servers a
    = inl (a - countState config.StorageServerStateRIP servers).
Proof.
  induction servers as [|s l IH]; intros a H; simpl.
  - unfold countState. simpl. f_equal; lia.
  - inversion H as [|? ? Hs Hl]; subst. rewrite countState_cons.
    unfold isOnline, isRIP in Hs.
    destruct (decide (config.State s = config.StorageServerStateOnline)) as [Hon|Hon].
    + rewrite IH by exact Hl.
      destruct (decide (config.State s = config.StorageServerStateRIP)); [congruence|].
      f_equal; lia.
    + destruct Hs as [Hs|Hs]; [contradiction|].
      destruct (decide (config.State s <> config.StorageServerStateRIP)); [contradiction|].
      rewrite IH by exact Hl.
      destruct (decide (config.State s = config.StorageServerStateRIP)); [|contradiction].
      f_equal; lia.
Qed.

Lemma countAvailable_unsupported (servers : list config.StorageServerConfig) :
  forall a : Z,
    Exists (fun s => ~ isOnline s /\ ~ isRIP s) servers ->
    ardb.countAvailable servers a = inr ErrServerStateNotSupported.
Proof.
  induction servers as [|s l IH]; intros a H; simpl; [inversion H|].
  unfold isOnline, isRIP in *.
  destruct (decide (config.State s = config.StorageServerStateOnline)) as [Hon|Hon].
  - apply IH. inversion H as [? ? [Hs _]|]; subst; [contradiction|assumption].
  - destruct (decide (config.State s <> config.StorageServerStateRIP)) as [Hr|Hr];
      [reflexivity|].
    apply IH. inversion H as [? ? [_ Hs]|]; subst; [|assumption].
    exfalso. apply Hr. exact Hs.
Qed.

Lemma countState_length (st : config.StorageServerState)
    (servers : list config.StorageServerConfig) :
  0 <= countState st servers <= Z.of_nat (length servers).
Proof.
  unfold countState.
  pose proof (length_filter (fun s => config.State s = st) servers). lia.
Qed.

Lemma countState_Online_pos (servers : list config.StorageServerConfig) :
  0 < countState config.StorageServerStateOnline servers <->
  Exists isOnline servers.
Proof.
  induction servers as [|s l IH].
  - unfold countState. simpl. split; [lia|inversion 1].
  - rewrite countState_cons.
    pose proof (countState_length config.StorageServerStateOnline l).
    destruct (decide (config.State s = config.StorageServerStateOnline)) as [Hon|Hon].
    + split; [intros _; left; exact Hon|lia].
    + rewrite Z.add_0_l, IH. split; [right; assumption|].
      inversion 1; subst; [contradiction|assumption].
Qed.

(** What an accepted config leaves in the cluster. *)
Lemma NewCluster_Some
    (validateCluster : config.StorageClusterConfig -> option error)
    (cfg : config.StorageClusterConfig) (cluster : ardb.Cluster) :
  ardb.NewCluster validateCluster cfg = (Some cluster, None) ->
  ardb.servers cluster = config.Servers cfg
  /\ ardb.serverCount cluster = Z.of_nat (length (config.Servers cfg))
  /\ ardb.availableServerCount cluster
     = countState config.StorageServerStateOnline (config.Servers cfg)
  /\ Exists isOnline (config.Servers cfg).
Proof.
  unfold ardb.NewCluster. intros H.
  destruct (validateCluster cfg); [discriminate|].
  destruct (ardb.countAvailable _ _) as [a|e] eqn:Hc; [|discriminate].
  apply countAvailable_inl in Hc as [Ha Hlen].
  destruct (a =? 0) eqn:Hz; [discriminate|].
  injection H as <-. simpl. apply Z.eqb_neq in Hz.
  pose proof (countState_length config.StorageServerStateOnline (config.Servers cfg)).
  repeat split; [lia|]. apply countState_Online_pos. lia.
Qed.

(** For a config that passes its validation, [NewCluster] decides by the
    states of the servers alone: a server that is neither Online nor RIP
    makes it fail with [ErrServerStateNotSupported]; servers that are all
    RIP (or no server at all) make it fail with [ErrNoServersAvailable];
    and a config of Online and RIP servers with at least one Online server
    gives the cluster over exactly these servers, whose available count is
    the number of Online servers. *)
Theorem NewCluster_accepts_iff
    (validateCluster : config.StorageClusterConfig -> option error)
    (cfg : config.StorageClusterConfig) :
  validateCluster cfg = None ->
  let servers := config.Servers cfg in
  (Exists (fun s => ~ isOnline s /\ ~ isRIP s) servers ->
   ardb.NewCluster validateCluster cfg = (None, Some ErrServerStateNotSupported))
  /\ (Forall isRIP servers ->
      ardb.NewCluster validateCluster cfg = (None, Some ErrNoServersAvailable))
  /\ (Forall (fun s => isOnline s \/ isRIP s) servers ->
      Exists isOnline servers ->
      ardb.NewCluster validateCluster cfg
      = (Some {| ardb.servers := servers;
                 ardb.serverCount := Z.of_nat (length servers);
                 ardb.availableServerCount :=
                   countState config.StorageServerStateOnline servers |},
         None)).
Proof.
  intros Hv servers. unfold ardb.NewCluster. rewrite Hv. fold servers.
  split; [|split].
  - intros H. rewrite countAvailable_unsupported by exact H. reflexivity.
  - intros H.
    assert (Forall (fun s => isOnline s \/ isRIP s) servers) as Hs.
    { eapply Forall_impl; [exact H|]. intros s Hr. right. exact Hr. }
    rewrite countAvailable_all_supported by exact Hs.
    assert (countState config.StorageServerStateRIP servers
            = Z.of_nat (length servers)) as ->.
    { unfold countState. f_equal. f_equal. clear Hs.
      induction H as [|s l Hs Hl IH]; [reflexivity|].
      rewrite filter_cons. unfold isRIP in Hs.
      destruct (decide (config.State s = config.StorageServerStateRIP));
        [|contradiction].
      f_equal. exact IH. }
    rewrite Z.sub_diag. reflexivity.
  - intros Hs Hon.
    pose proof (countAvailable_all_supported servers (Z.of_nat (length servers)) Hs)
      as Hc.
    pose proof (countAvailable_inl servers _ _ Hc) as [_ Hlen].
    rewrite Hc. apply countState_Online_pos in Hon.
    destruct (_ =? 0) eqn:E; [apply Z.eqb_eq in E; lia|].
    do 3 f_equal. lia.
Qed.

Lemma NewCluster_accepts_iff_witness :
  ardb.NewCluster (fun _ => None) oneRetired = (Some oneRetiredCluster, None).
Proof.
  apply (proj2 (proj2 (NewCluster_accepts_iff (fun _ => None) oneRetired eq_refl))).
  - repeat (constructor; [first [left; reflexivity | right; reflexivity]|]).
    constructor.
  - left. reflexivity.
Defined.

(** ** Dispatch to a server *)

Lemma at_index_Return {A : Type} (xs : list A) (i : Z) (x : A) :
  ardb.at_index xs i = Return x <->
  0 <= i < Z.of_nat (length xs) /\ xs !! Z.to_nat i = Some x.
Proof.
  unfold ardb.at_index. split.
  - destruct (_ && _) eqn:E; [|discriminate].
    apply andb_true_iff in E as [E1 E2].
    apply Z.leb_le in E1. apply Z.ltb_lt in E2.
    destruct (xs !! Z.to_nat i) eqn:El; [|discriminate].
    intros [= ->]. split; [lia|reflexivity].
  - intros [Hr Hl].
    rewrite (proj2 (andb_true_iff _ _)), Hl; [reflexivity|].
    split; [apply Z.leb_le|apply Z.ltb_lt]; lia.
Qed.

Lemma serverOperational_Return (cluster : ardb.Cluster) (i : Z) (ok : bool)
    (e : option error) :
  ardb.serverOperational cluster i = Return (ok, e) ->
  e = None
  /\ exists cfg, ardb.servers cluster !! Z.to_nat i = Some cfg
       /\ 0 <= i < Z.of_nat (length (ardb.servers cluster))
       /\ ok = bool_decide (isOnline cfg).
Proof.
  unfold ardb.serverOperational. intros H.
  destruct (ardb.at_index (ardb.servers cluster) i) as [cfg| |] eqn:E;
    simpl in H; try discriminate.
  injection H as <- <-. apply at_index_Return in E as [Hr Hl].
  split; [reflexivity|]. exists cfg. repeat split; try assumption; lia.
Qed.

Lemma searchLoop_returns_settled (N : Z) (p : ardb.ServerIndexPredicate) :
  forall (fuel : nat) (serverIndex objectIndex i : Z) (e : option error),
    ardb.searchLoop fuel N serverIndex objectIndex p = Return (i, e) ->
    exists ok, p i = Return (ok, e) /\ ardb.settled ok e = true.
Proof.
  induction fuel as [|fuel IH]; intros si o i e H; [discriminate|].
  simpl in H.
  destruct (ardb.jumpLoop fuel N si (Int64.unsigned o) 0) as [c| |];
    simpl in H; try discriminate.
  destruct (p c) as [[ok err]| |] eqn:Hp; simpl in H; try discriminate.
  destruct (ardb.settled ok err) eqn:Hs.
  - injection H as <- <-. exists ok. split; assumption.
  - eapply IH, H.
Qed.

Lemma ComputeServerIndex_returns_settled (fuel : nat) (N x i : Z)
    (e : option error) (p : ardb.ServerIndexPredicate) :
  ardb.ComputeServerIndex fuel N x p = Return (i, e) ->
  exists ok, p i = Return (ok, e) /\ ardb.settled ok e = true.
Proof.
  unfold ardb.ComputeServerIndex. destruct (N =? 0); [discriminate|].
  destruct (p (Z.rem x N)) as [[ok err]| |] eqn:Hp; simpl; try discriminate.
  destruct (ardb.settled ok err) eqn:Hs.
  - intros [= <- <-]. exists ok. split; assumption.
  - apply searchLoop_returns_settled.
Qed.

Section Dispatch.

Context {Store command : Type}.
Variable dial : config.StorageServerConfig -> Store -> option error.
Variable exec : command -> config.StorageServerConfig -> Store ->
                (ardb.Reply * option error) * Store.

Local Abbreviation StorageAction := (@ardb.StorageAction command).
Local Abbreviation net := (@ardb.net Store).

Lemma dialAndDo_dialed (cfg : config.StorageServerConfig)
    (action : StorageAction) (w : net) :
  ardb.dialed (ardb.dialAndDo dial exec cfg action w).2 = ardb.dialed w ++ [cfg].
Proof.
  unfold ardb.dialAndDo, ardb.Dial. simpl.
  destruct (dial cfg (ardb.store w)); [reflexivity|].
  destruct (ardb.action_Do exec action cfg (ardb.store w)). reflexivity.
Qed.

(** Whenever [Cluster.DoFor] returns, it has dialed exactly one server, a
    server of the cluster that is Online, and its result is that of dialing
    this server and applying the action on the connection: no action is
    ever sent to a server that is not Online. And for an object index
    x >= 0 whose server [servers[x mod serverCount]] is Online, [DoFor]
    returns, with the result of that server. *)
Theorem Cluster_DoFor_dials_online (fuel : nat) (cluster : ardb.Cluster)
    (objectIndex : Z) (action : StorageAction) (w : net) :
  (forall (r : ardb.Reply * option error) (w' : net),
     ardb.Cluster_DoFor dial exec fuel cluster objectIndex action w
     = Return (r, w') ->
     exists cfg : config.StorageServerConfig,
       cfg ∈ ardb.servers cluster
       /\ isOnline cfg
       /\ (r, w') = ardb.dialAndDo dial exec cfg action w
       /\ ardb.dialed w' = ardb.dialed w ++ [cfg])
  /\ (forall cfg : config.StorageServerConfig,
        0 <= objectIndex ->
        ardb.serverCount cluster = Z.of_nat (length (ardb.servers cluster)) ->
        ardb.servers cluster !! Z.to_nat (objectIndex mod ardb.serverCount cluster)
        = Some cfg ->
        isOnline cfg ->
        ardb.Cluster_DoFor dial exec fuel cluster objectIndex action w
        = Return (ardb.dialAndDo dial exec cfg action w)).
Proof.
  split.
  - intros r w' H. unfold ardb.Cluster_DoFor in H.
    destruct (ardb.ComputeServerIndex _ _ _ _) as [[i e]| |] eqn:Hc;
      simpl in H; try discriminate.
    apply ComputeServerIndex_returns_settled in Hc as (ok & Hp & Hs).
    apply serverOperational_Return in Hp as (-> & cfg & Hl & Hr & ->).
    rewrite settled_None in Hs. apply bool_decide_eq_true in Hs.
    unfold ardb.doAt in H.
    rewrite (proj2 (at_index_Return _ _ cfg)) in H by (split; assumption).
    simpl in H. injection H as H. exists cfg.
    split; [eapply list_elem_of_lookup_2; exact Hl|].
    split; [exact Hs|]. split; [congruence|].
    pose proof (dialAndDo_dialed cfg action w) as Hd. rewrite H in Hd. exact Hd.
  - intros cfg Hx Hn Hl Hon.
    assert (0 < ardb.serverCount cluster) as Hpos.
    { destruct (Z.le_gt_cases (ardb.serverCount cluster) 0) as [Hle|]; [|lia].
      exfalso. assert (ardb.serverCount cluster = 0) as H0 by lia.
      rewrite H0 in Hl. rewrite Z.mod_0_r in Hl.
      destruct (ardb.servers cluster); [discriminate|simpl in Hn; lia]. }
    pose proof (Z.mod_pos_bound objectIndex _ Hpos) as Hm.
    assert (ardb.serverOperational cluster (objectIndex mod ardb.serverCount cluster)
            = Return (true, None)) as Hop.
    { unfold ardb.serverOperational.
      rewrite (proj2 (at_index_Return _ _ cfg)) by (split; [lia|exact Hl]).
      simpl. rewrite bool_decide_eq_true_2 by exact Hon. reflexivity. }
    unfold ardb.Cluster_DoFor, ardb.ComputeServerIndex.
    destruct (_ =? 0) eqn:E; [apply Z.eqb_eq in E; lia|].
    rewrite Z.rem_mod_nonneg by lia. rewrite Hop. simpl.
    unfold ardb.doAt.
    rewrite (proj2 (at_index_Return _ _ cfg)) by (split; [lia|exact Hl]).
    reflexivity.
Qed.

Lemma findFirst_agree (cluster : ardb.Cluster) :
  forall (rest pre : list config.StorageServerConfig)
         (acc : config.StorageServerConfig),
    ardb.servers cluster = pre ++ rest ->
    Forall (fun s => ~ isOnline s) pre ->
    Exists isOnline rest ->
    exists (i : Z) (srv : config.StorageServerConfig),
      ardb.findFirstAvailable rest acc = (srv, None)
      /\ isOnline srv
      /\ ardb.servers cluster !! Z.to_nat i = Some srv
      /\ 0 <= i < Z.of_nat (length (ardb.servers cluster))
      /\ ardb.findFirstFrom (length rest) (Z.of_nat (length pre))
           (ardb.serverOperational cluster) = Return (i, None).
Proof.
  induction rest as [|s rest IH]; intros pre acc Hs Hpre Hex; [inversion Hex|].
  simpl.
  assert (ardb.serverOperational cluster (Z.of_nat (length pre))
          = Return (bool_decide (isOnline s), None)) as Hop.
  { unfold ardb.serverOperational.
    rewrite (proj2 (at_index_Return _ _ s)); [reflexivity|].
    rewrite Hs, length_app, Nat2Z.id. simpl length. split; [lia|].
    rewrite lookup_app_r by lia. rewrite Nat.sub_diag. reflexivity. }
  rewrite Hop. simpl. rewrite settled_None. unfold isOnline in *.
  destruct (decide (config.State s = config.StorageServerStateOnline)) as [Hon|Hon].
  - rewrite bool_decide_eq_true_2 by exact Hon.
    exists (Z.of_nat (length pre)), s. repeat split; try (exact Hon); try lia.
    + rewrite Hs, Nat2Z.id, lookup_app_r by lia. rewrite Nat.sub_diag. reflexivity.
    + rewrite Hs, length_app. simpl length. lia.
  - rewrite bool_decide_eq_false_2 by exact Hon.
    destruct (IH (pre ++ [s]) s) as (i & srv & H1 & H2 & H3 & H4 & H5).
    + rewrite <- app_assoc. exact Hs.
    + apply Forall_app. split; [exact Hpre|]. constructor; [exact Hon|constructor].
    + inversion Hex; subst; [contradiction|assumption].
    + exists i, srv. repeat split; try assumption; try lia.
      rewrite length_app in H5. simpl length in H5.
      replace (Z.of_nat (length pre) + 1) with (Z.of_nat (length pre + 1)) by lia.
      exact H5.
Qed.

(** On a cluster that [NewCluster] accepted, [Cluster.Do] always returns and
    dials the first Online server of the config, the very server that
    [FindFirstAvailableServerConfig] picks for the same config: the two
    ways of choosing a server for an action without an index agree. *)
Theorem Cluster_Do_first_online
    (validateCluster : config.StorageClusterConfig -> option error)
    (cfg : config.StorageClusterConfig) (cluster : ardb.Cluster) :
  ardb.NewCluster validateCluster cfg = (Some cluster, None) ->
  exists srv : config.StorageServerConfig,
    ardb.FindFirstAvailableServerConfig cfg = (srv, None)
    /\ isOnline srv
    /\ srv ∈ config.Servers cfg
    /\ forall (action : StorageAction) (w : net),
         ardb.Cluster_Do dial exec cluster action w
         = Return (ardb.dialAndDo dial exec srv action w).
Proof.
  intros Hnew.
  destruct (NewCluster_Some _ _ _ Hnew) as (Hservers & Hcount & _ & Hpos).
  destruct (findFirst_agree cluster (config.Servers cfg) []
              {| config.Address := ""; config.Database := 0;
                 config.State := config.StorageServerStateOnline |})
    as (i & srv & H1 & H2 & H3 & H4 & H5);
    [exact Hservers | constructor | exact Hpos |].
  exists srv. split; [exact H1|]. split; [exact H2|].
  split; [rewrite <- Hservers; eapply list_elem_of_lookup_2; exact H3|].
  intros action w. unfold ardb.Cluster_Do, ardb.FindFirstServerIndex.
  rewrite Hcount, Nat2Z.id.
  change (Z.of_nat (length (@nil config.StorageServerConfig))) with 0 in H5.
  rewrite H5. simpl.
  unfold ardb.doAt.
  rewrite (proj2 (at_index_Return _ _ srv)) by (split; assumption).
  reflexivity.
Qed.

End Dispatch.

Lemma Cluster_DoFor_dials_online_witness :
  ardb.Cluster_DoFor acceptAll echo 0 oneRetiredCluster 5 (ardb.Command 7) idle
  = Return ((ardb.intReply 7, None),
            {| ardb.store := tt;
               ardb.dialed := [ {| config.Address := "10.0.0.3:16379";
                                   config.Database := 0;
                                   config.State := config.StorageServerStateOnline |} ] |}).
Proof.
  apply (proj2 (Cluster_DoFor_dials_online acceptAll echo 0 oneRetiredCluster 5
                  (ardb.Command 7) idle));
    [lia | reflexivity | reflexivity | reflexivity].
Defined.

Lemma Cluster_Do_first_online_witness :
  exists srv : config.StorageServerConfig,
    ardb.FindFirstAvailableServerConfig oneRetired = (srv, None)
    /\ isOnline srv
    /\ srv ∈ config.Servers oneRetired
    /\ forall (action : @ardb.StorageAction Z) (w : @ardb.net unit),
         ardb.Cluster_Do acceptAll echo oneRetiredCluster action w
         = Return (ardb.dialAndDo acceptAll echo srv action w).
Proof.
  apply (Cluster_Do_first_online acceptAll echo (fun _ => None) oneRetired).
  reflexivity.
Defined.

(** ** The servers of a cluster *)

Lemma iterateServers_filter (servers : list config.StorageServerConfig) :
  ardb.iterateServers servers = filter isOnline servers.
Proof.
  induction servers as [|s l IH]; [reflexivity|]. simpl.
  rewrite filter_cons. unfold isOnline at 1.
  destruct (decide (config.State s <> config.StorageServerStateOnline)),
           (decide (config.State s = config.StorageServerStateOnline));
    try contradiction; rewrite IH; reflexivity.
Qed.

(** On a cluster that [NewCluster] accepted, [ServerIterator] yields the
    Online servers of the config, in the order of the config, and their
    number is what [ServerCount] returns. *)
Theorem ServerIterator_yields_ServerCount
    (validateCluster : config.StorageClusterConfig -> option error)
    (cfg : config.StorageClusterConfig) (cluster : ardb.Cluster) :
  ardb.NewCluster validateCluster cfg = (Some cluster, None) ->
  ardb.Cluster_ServerIterator cluster = filter isOnline (config.Servers cfg)
  /\ Z.of_nat (length (ardb.Cluster_ServerIterator cluster))
     = ardb.Cluster_ServerCount cluster.
Proof.
  intros Hnew.
  destruct (NewCluster_Some _ _ _ Hnew) as (Hs & _ & Hc & _).
  unfold ardb.Cluster_ServerIterator, ardb.Cluster_ServerCount.
  rewrite Hs, Hc, iterateServers_filter.
  split; reflexivity.
Qed.

Lemma ServerIterator_yields_ServerCount_witness :
  Z.of_nat (length (ardb.Cluster_ServerIterator oneRetiredCluster))
  = ardb.Cluster_ServerCount oneRetiredCluster.
Proof.
  exact (proj2 (ServerIterator_yields_ServerCount (fun _ => None) oneRetired
                  oneRetiredCluster eq_refl)).
Defined.

(** ** Server selection, continued *)

(** [ComputeServerIndex] returns what the predicate settles: an error of
    the predicate at the first candidate, [x mod N] (Go's remainder), is
    returned at once together with that index; whatever index and error
    the call returns, the predicate has answered that index with this very
    error and has accepted the index or failed on it; and a server count of
    zero makes the call panic on the modulo. *)
Theorem ComputeServerIndex_stops_at_error (fuel : nat) (N x : Z)
    (p : ardb.ServerIndexPredicate) :
  (forall (ok : bool) (e : error),
     N <> 0 ->
     p (Z.rem x N) = Return (ok, Some e) ->
     ardb.ComputeServerIndex fuel N x p = Return (Z.rem x N, Some e))
  /\ (forall (i : Z) (e : option error),
        ardb.ComputeServerIndex fuel N x p = Return (i, e) ->
        exists ok : bool,
          p i = Return (ok, e) /\ (ok = true \/ e <> None))
  /\ (N = 0 ->
      ardb.ComputeServerIndex fuel N x p = Panic "integer divide by zero").
Proof.
  split; [|split].
  - intros ok e HN Hp. unfold ardb.ComputeServerIndex.
    destruct (N =? 0) eqn:E; [apply Z.eqb_eq in E; contradiction|].
    rewrite Hp. cbn [mbind outcome_bind obind]. unfold ardb.settled.
    rewrite bool_decide_eq_true_2 by discriminate.
    rewrite orb_true_r. reflexivity.
  - intros i e H. apply ComputeServerIndex_returns_settled in H as (ok & Hp & Hs).
    exists ok. split; [exact Hp|]. unfold ardb.settled in Hs.
    apply orb_true_iff in Hs as [Hs|Hs]; [left; exact Hs|].
    right. apply bool_decide_eq_true in Hs. exact Hs.
  - intros ->. reflexivity.
Qed.

Lemma ComputeServerIndex_stops_at_error_witness :
  ardb.ComputeServerIndex 0 4 6
    (fun i => if Z.rem i 2 =? 0
              then Return (false, Some ErrServerUnavailable)
              else Return (true, None))
  = Return (2, Some ErrServerUnavailable).
Proof.
  apply (proj1 (ComputeServerIndex_stops_at_error 0 4 6
                  (fun i => if Z.rem i 2 =? 0
                            then Return (false, Some ErrServerUnavailable)
                            else Return (true, None))) false).
  - discriminate.
  - reflexivity.
Defined.

(** ** Batched dispatch, continued *)

Section Grouping.

Context {command : Type}.

Local Abbreviation StorageAction := (@ardb.StorageAction command).
Local Abbreviation IAM := (ardb.IndexActionMap StorageAction).
Local Abbreviation Pair := (ardb.IndexActionPair StorageAction).

Lemma groupOf_insert_add (servers : gmap Z IAM) (r index : Z)
    (a : StorageAction) (s : Z) :
  groupOf
    (<[r := ardb.IndexActionMap_Add
              (match servers !! r with
               | Some server => server
               | None => {| ardb.Indices := []; ardb.Actions := [] |}
               end) index a]> servers) s
  = ((groupOf servers s).1 ++ (if decide (r = s) then [index] else []),
     (groupOf servers s).2 ++ (if decide (r = s) then [a] else [])).
Proof.
  unfold groupOf. destruct (decide (r = s)) as [->|Hne].
  - rewrite lookup_insert_eq. destruct (servers !! s); reflexivity.
  - rewrite lookup_insert_ne by exact Hne.
    destruct (servers !! s); simpl; rewrite ?app_nil_r; reflexivity.
Qed.

Lemma groupByServer_groups (fuel : nat) (cluster : ardb.Cluster) :
  forall (pairs : list Pair) (index : Z) (servers servers' : gmap Z IAM),
    ardb.groupByServer fuel cluster pairs index servers = Return (inl servers') ->
    exists routes : list Z,
      routed fuel cluster pairs routes
      /\ forall s : Z,
           groupOf servers' s
           = ((groupOf servers s).1 ++ positionsOf s routes index,
              (groupOf servers s).2 ++ actionsOf s routes pairs)
           /\ (is_Some (servers' !! s) <->
               is_Some (servers !! s) \/ s ∈ routes).
Proof.
  induction pairs as [|p ps IH]; intros index servers servers' H; simpl in H.
  - injection H as <-. exists []. split; [constructor|].
    intros s. simpl. rewrite !app_nil_r.
    split; [destruct (groupOf servers s); reflexivity|].
    split; [left; assumption|]. intros [?|Hin]; [assumption|]. inversion Hin.
  - destruct (ardb.ComputeServerIndex _ _ _ _) as [[r e]| |] eqn:Hc;
      simpl in H; try discriminate.
    destruct e as [e|]; [discriminate|].
    apply IH in H as (routes & Hr & Hg).
    exists (r :: routes). split; [constructor; assumption|].
    intros s. destruct (Hg s) as [Hgs Hdom]. split.
    + rewrite Hgs, groupOf_insert_add. simpl. rewrite <- !app_assoc. reflexivity.
    + rewrite Hdom, elem_of_cons. destruct (decide (r = s)) as [->|Hne].
      * rewrite lookup_insert_eq.
        split; [intros _; right; left; reflexivity|].
        intros _. left. eexists. reflexivity.
      * rewrite lookup_insert_ne by exact Hne.
        split; [intros [?|?]; [left|right; right]; assumption|].
        intros [?|[?|?]]; [left; assumption|congruence|right; assumption].
Qed.

Lemma routed_length (fuel : nat) (cluster : ardb.Cluster) (pairs : list Pair)
    (routes : list Z) :
  routed fuel cluster pairs routes -> length routes = length pairs.
Proof. intros H. symmetry. eapply Forall2_length, H. Qed.

Lemma positionsOf_lengths (s : Z) :
  forall (routes : list Z) (pairs : list Pair) (index : Z),
    length routes = length pairs ->
    length (positionsOf s routes index) = length (actionsOf s routes pairs).
Proof.
  induction routes as [|r rest IH]; intros [|p ps] index H; simpl in *;
    try reflexivity; try discriminate.
  rewrite !length_app, (IH ps (index + 1)) by lia.
  destruct (decide (r = s)); reflexivity.
Qed.

Lemma positionsOf_complete (s : Z) :
  forall (routes : list Z) (pairs : list Pair) (index : Z) (i : nat) (p : Pair),
    routes !! i = Some s -> pairs !! i = Some p ->
    exists k : nat,
      positionsOf s routes index !! k = Some (index + Z.of_nat i)
      /\ actionsOf s routes pairs !! k = Some (ardb.Action_ p).
Proof.
  induction routes as [|r rest IH]; intros [|q ps] index i p Hr Hp;
    try discriminate.
  destruct i as [|i]; simpl in *.
  - injection Hr as ->. injection Hp as ->.
    exists 0%nat. destruct (decide (s = s)); [|contradiction]. simpl.
    split; [f_equal; lia|reflexivity].
  - destruct (IH ps (index + 1) i p Hr Hp) as (k & Hk1 & Hk2).
    destruct (decide (r = s)).
    + exists (S k). simpl. split; [rewrite Hk1; f_equal; lia|exact Hk2].
    + exists k. simpl. split; [rewrite Hk1; f_equal; lia|exact Hk2].
Qed.

Lemma positionsOf_sound (s : Z) :
  forall (routes : list Z) (index : Z) (k : nat) (x : Z),
    positionsOf s routes index !! k = Some x ->
    exists i : nat, x = index + Z.of_nat i /\ routes !! i = Some s.
Proof.
  induction routes as [|r rest IH]; intros index k x H; [discriminate|].
  simpl in H. destruct (decide (r = s)) as [->|Hne].
  - destruct k as [|k]; simpl in H.
    + injection H as <-. exists 0%nat. split; [lia|reflexivity].
    + apply IH in H as (i & -> & Hi). exists (S i). split; [lia|exact Hi].
  - simpl in H. apply IH in H as (i & -> & Hi). exists (S i). split; [lia|exact Hi].
Qed.

Lemma positionsOf_lower (s : Z) (routes : list Z) (index x : Z) :
  x ∈ positionsOf s routes index -> index <= x.
Proof.
  intros H. apply list_elem_of_lookup in H as [k Hk].
  apply positionsOf_sound in Hk as (i & -> & _). lia.
Qed.

Lemma positionsOf_NoDup (s : Z) :
  forall (routes : list Z) (index : Z), NoDup (positionsOf s routes index).
Proof.
  induction routes as [|r rest IH]; intros index; simpl; [constructor|].
  destruct (decide (r = s)); simpl; [|apply IH].
  constructor; [|apply IH].
  intros H. apply positionsOf_lower in H. lia.
Qed.

Lemma positionsOf_all (s : Z) :
  forall (routes : list Z) (index : Z) (k : nat),
    Forall (fun r => r = s) routes ->
    (k < length routes)%nat ->
    positionsOf s routes index !! k = Some (index + Z.of_nat k).
Proof.
  induction routes as [|r rest IH]; intros index k Hall Hk; simpl in Hk; [lia|].
  inversion Hall as [|? ? Heq Hrest]; subst. simpl.
  destruct (decide _) as [_|Hn]; [|exfalso; apply Hn; reflexivity].
  destruct k as [|k]; simpl.
  - f_equal. lia.
  - rewrite IH by (assumption || lia). f_equal. lia.
Qed.

Lemma actionsOf_all (s : Z) :
  forall (routes : list Z) (pairs : list Pair),
    Forall (fun r => r = s) routes ->
    length routes = length pairs ->
    actionsOf s routes pairs = map ardb.Action_ pairs.
Proof.
  induction routes as [|r rest IH]; intros [|p ps] Hall Hl; simpl in *;
    try reflexivity; try discriminate.
  inversion Hall as [|? ? Heq Hrest]; subst.
  destruct (decide _) as [_|Hn]; [|exfalso; apply Hn; reflexivity].
  simpl. f_equal. apply IH; [assumption|lia].
Qed.

Lemma groupByServer_routes (fuel : nat) (cluster : ardb.Cluster)
    (pairs : list Pair) (servers : gmap Z IAM) :
  ardb.groupByServer fuel cluster pairs 0 ∅ = Return (inl servers) ->
  exists routes : list Z,
    routed fuel cluster pairs routes
    /\ forall s : Z,
         (is_Some (servers !! s) <-> s ∈ routes)
         /\ forall m : IAM,
              servers !! s = Some m ->
              ardb.Indices m = positionsOf s routes 0
              /\ ardb.Actions m = actionsOf s routes pairs.
Proof.
  intros H.
  destruct (groupByServer_groups _ _ _ _ _ _ H) as (routes & Hr & Hg).
  exists routes. split; [exact Hr|]. intros s.
  destruct (Hg s) as [Hs Hd]. split.
  - rewrite Hd, lookup_empty.
    split; [intros [[? ?]|?]; [discriminate|assumption]|right; assumption].
  - intros m Hm. unfold groupOf in Hs. rewrite Hm, lookup_empty in Hs.
    simpl in Hs. injection Hs as -> ->. split; reflexivity.
Qed.




(** The facts on the groups that the collecting loop relies on. *)
Lemma groups_owned (fuel : nat) (cluster : ardb.Cluster) (pairs : list Pair)
    (servers : gmap Z IAM) (routes : list Z) :
  (forall s : Z,
     (is_Some (servers !! s) <-> s ∈ routes)
     /\ forall m : IAM,
          servers !! s = Some m ->
          ardb.Indices m = positionsOf s routes 0
          /\ ardb.Actions m = actionsOf s routes pairs) ->
  (forall s m k x, servers !! s = Some m ->
     ardb.Indices m !! k = Some x ->
     0 <= x /\ routes !! Z.to_nat x = Some s)
  /\ (forall s m, servers !! s = Some m -> NoDup (ardb.Indices m)).
Proof.
  intros Hgroups. split.
  - intros s m k x Hm Hx. destruct (Hgroups s) as [_ Hgrp].
    destruct (Hgrp m Hm) as [Hi _]. rewrite Hi in Hx.
    apply positionsOf_sound in Hx as (i & -> & Hr).
    split; [lia|]. rewrite Z.add_0_l, Nat2Z.id. exact Hr.
  - intros s m Hm. destruct (Hgroups s) as [_ Hgrp].
    destruct (Hgrp m Hm) as [-> _]. apply positionsOf_NoDup.
Qed.

Lemma positions_found (fuel : nat) (cluster : ardb.Cluster) (pairs : list Pair)
    (servers : gmap Z IAM) (routes : list Z) :
  routed fuel cluster pairs routes ->
  (forall s : Z,
     (is_Some (servers !! s) <-> s ∈ routes)
     /\ forall m : IAM,
          servers !! s = Some m ->
          ardb.Indices m = positionsOf s routes 0
          /\ ardb.Actions m = actionsOf s routes pairs) ->
  forall (i : nat) (p : Pair),
    pairs !! i = Some p ->
    exists s m k,
      ardb.ComputeServerIndex fuel (ardb.serverCount cluster)
        (ardb.Index p) (ardb.serverOperational cluster) = Return (s, None)
      /\ routes !! i = Some s
      /\ servers !! s = Some m
      /\ ardb.Indices m !! k = Some (Z.of_nat i)
      /\ ardb.Actions m !! k = Some (ardb.Action_ p).
Proof.
  intros Hroutes Hg i p Hp.
  destruct (Forall2_lookup_l _ _ _ _ _ Hroutes Hp) as (s & Hs & Hc).
  destruct (Hg s) as [Hdom Hgrp].
  assert (is_Some (servers !! s)) as [m Hm]
    by (apply Hdom; eapply list_elem_of_lookup_2; exact Hs).
  destruct (Hgrp m Hm) as [Hi Ha].
  destruct (positionsOf_complete s routes pairs 0 i p Hs Hp) as (k & Hk1 & Hk2).
  exists s, m, k. rewrite Hi, Ha. repeat split; assumption.
Qed.

End Grouping.

Lemma set_index_Return {A : Type} (xs xs' : list A) (i : Z) (x : A) :
  ardb.set_index xs i x = Return xs' ->
  0 <= i < Z.of_nat (length xs) /\ xs' = <[Z.to_nat i := x]> xs.
Proof.
  unfold ardb.set_index. destruct (_ && _) eqn:E; [|discriminate].
  apply andb_true_iff in E as [E1 E2].
  apply Z.leb_le in E1. apply Z.ltb_lt in E2.
  intros [= <-]. split; [lia|reflexivity].
Qed.

(** [placeReplies] writes the [k]-th reply received at the position
    [indices[i + k]] and nothing else. *)
Lemma placeReplies_spec (indices : list Z) :
  forall (received : list ardb.Reply) (i : nat) (acc acc' : list ardb.Reply),
    NoDup indices ->
    ardb.placeReplies indices received (Z.of_nat i) acc = Return acc' ->
    length acc' = length acc
    /\ (forall (k : nat) (r : ardb.Reply),
          received !! k = Some r ->
          exists x : Z,
            indices !! (i + k)%nat = Some x
            /\ acc' !! Z.to_nat x = Some r)
    /\ (forall j : nat,
          (forall k : nat, (k < length received)%nat ->
             indices !! (i + k)%nat <> Some (Z.of_nat j)) ->
          acc' !! j = acc !! j).
Proof.
  intros received. induction received as [|reply rest IH];
    intros i acc acc' Hnd H; simpl in H.
  - injection H as <-. split; [reflexivity|]. split; [|reflexivity].
    intros k r Hk. discriminate.
  - destruct (ardb.at_index indices (Z.of_nat i)) as [x| |] eqn:Hx;
      simpl in H; try discriminate.
    destruct (ardb.set_index acc x reply) as [acc1| |] eqn:Hs;
      simpl in H; try discriminate.
    apply at_index_Return in Hx as [_ Hx]. rewrite Nat2Z.id in Hx.
    apply set_index_Return in Hs as [Hxr ->].
    replace (Z.of_nat i + 1) with (Z.of_nat (S i)) in H by lia.
    apply IH in H as (Hlen & Hplaced & Hrest); [|exact Hnd].
    rewrite length_insert in Hlen.
    split; [exact Hlen|]. split.
    + intros [|k] r Hk; simpl in Hk.
      * injection Hk as <-. exists x. rewrite Nat.add_0_r. split; [exact Hx|].
        rewrite Hrest.
        -- apply list_lookup_insert_eq. lia.
        -- intros k Hk Hc. rewrite Z2Nat.id in Hc by lia.
           pose proof (NoDup_lookup _ _ _ _ Hnd Hx Hc). lia.
      * destruct (Hplaced k r Hk) as (y & Hy & Hr).
        exists y. replace (i + S k)%nat with (S i + k)%nat by lia.
        split; assumption.
    + intros j Hj. rewrite Hrest.
      * apply list_lookup_insert_ne. intros Heq. subst j.
        apply (Hj 0%nat); [simpl; lia|].
        rewrite Nat.add_0_r, Z2Nat.id by lia. exact Hx.
      * intros k Hk. replace (S i + k)%nat with (i + S k)%nat by lia.
        apply Hj. simpl. lia.
Qed.

Section Collect.
Context {command : Type}.
Local Abbreviation StorageAction := (@ardb.StorageAction command).
Local Abbreviation IAM := (ardb.IndexActionMap StorageAction).

Variable servers : gmap Z IAM.
Variable routes : list Z.

(** Every position of a group is a position of a pair routed to the
    group's server, and no group holds a position twice. *)
Hypothesis groups_owned :
  forall (s : Z) (m : IAM) (k : nat) (x : Z),
    servers !! s = Some m -> ardb.Indices m !! k = Some x ->
    0 <= x /\ routes !! Z.to_nat x = Some s.
Hypothesis groups_NoDup :
  forall (s : Z) (m : IAM), servers !! s = Some m -> NoDup (ardb.Indices m).

Lemma collectReplies_spec :
  forall (results : list (Z * (option (list ardb.Reply) * option error)))
         (acc replies : list ardb.Reply),
    NoDup (map fst results) ->
    ardb.collectReplies servers results acc = Return (Some replies, None) ->
    length replies = length acc
    /\ (forall (s : Z) (received : option (list ardb.Reply)) (e : option error),
          (s, (received, e)) ∈ results ->
          e = None
          /\ exists m : IAM,
               servers !! s = Some m
               /\ forall (k : nat) (r : ardb.Reply),
                    default [] received !! k = Some r ->
                    exists x : Z,
                      ardb.Indices m !! k = Some x
                      /\ replies !! Z.to_nat x = Some r)
    /\ (forall j : nat,
          (forall s : Z, routes !! j = Some s -> s ∉ map fst results) ->
          replies !! j = acc !! j).
Proof.
  induction results as [|[s [received e]] rest IH]; intros acc replies Hnd H;
    simpl in H.
  - injection H as <-. split; [reflexivity|]. split; [|reflexivity].
    intros s received e Hin. inversion Hin.
  - destruct e as [e|]; [discriminate|].
    destruct (servers !! s) as [m|] eqn:Hm; [|discriminate].
    destruct (ardb.placeReplies _ _ _ _) as [acc1| |] eqn:Hp;
      simpl in H; try discriminate.
    simpl in Hnd. apply NoDup_cons in Hnd as [Hs Hnd].
    apply (placeReplies_spec _ _ 0%nat) in Hp
      as (Hlen1 & Hplaced & Hkept); [|eapply groups_NoDup; exact Hm].
    apply IH in H as (Hlen & Hres & Hother); [|exact Hnd].
    split; [congruence|]. split.
    + intros s' received' e' Hin. apply elem_of_cons in Hin as [Heq|Hin].
      * injection Heq as -> -> ->. split; [reflexivity|].
        exists m. split; [exact Hm|]. intros k r Hk.
        destruct (Hplaced k r Hk) as (x & Hx & Hr). simpl in Hx.
        exists x. split; [exact Hx|].
        rewrite Hother; [exact Hr|].
        intros s' Hs'.
        destruct (groups_owned s m k x Hm Hx) as [_ Hown].
        rewrite Hown in Hs'. injection Hs' as <-. exact Hs.
      * apply Hres, Hin.
    + intros j Hj. rewrite Hother.
      * apply Hkept. intros k Hk Hc. simpl in Hc.
        destruct (groups_owned s m k _ Hm Hc) as [_ Hown].
        rewrite Nat2Z.id in Hown. apply (Hj s Hown). simpl. left.
      * intros s' Hs' Hin. apply (Hj s' Hs'). simpl. right. exact Hin.
Qed.

End Collect.

Section Placing.

Context {command : Type}.

Local Abbreviation StorageAction := (@ardb.StorageAction command).
Local Abbreviation IAM := (ardb.IndexActionMap StorageAction).
Local Abbreviation Pair := (ardb.IndexActionPair StorageAction).

(** The collecting loop, run on results that come from distinct servers,
    one for every group, puts every reply at the position of its pair. *)
Lemma collected_placed (fuel : nat) (cluster : ardb.Cluster)
    (pairs : list Pair) (servers : gmap Z IAM)
    (results results' : list (Z * (option (list ardb.Reply) * option error)))
    (replies : list ardb.Reply) :
  ardb.groupByServer fuel cluster pairs 0 ∅ = Return (inl servers) ->
  NoDup (map fst results') ->
  (forall s : Z, is_Some (servers !! s) -> s ∈ map fst results') ->
  (forall x, x ∈ results' -> x ∈ results) ->
  (forall (s : Z) (rs : list ardb.Reply),
     (s, (Some rs, None)) ∈ results ->
     exists m : IAM,
       servers !! s = Some m /\ length rs = length (ardb.Actions m)) ->
  (forall s : Z, (s, (None, None)) ∉ results) ->
  ardb.collectReplies servers results' (replicate (length pairs) ardb.nilReply)
  = Return (Some replies, None) ->
  length replies = length pairs
  /\ placed fuel cluster pairs servers results replies.
Proof.
  intros Hg Hnd Hall Hsub Hlens Hnonil Hcol.
  destruct (groupByServer_routes _ _ _ _ Hg) as (routes & Hroutes & Hgroups).
  pose proof (routed_length _ _ _ _ Hroutes) as Hrl.
  destruct (groups_owned fuel cluster pairs servers routes Hgroups)
    as [Howned HnoDup].
  destruct (collectReplies_spec servers routes Howned HnoDup _ _ _ Hnd Hcol)
    as (Hlen & Hplaced & _).
  rewrite length_replicate in Hlen.
  split; [exact Hlen|].
  intros i p Hp.
  destruct (positions_found _ _ _ _ _ Hroutes Hgroups i p Hp)
    as (s & m & k & Hc & Hr & Hm & Hik & Hak).
  assert (s ∈ map fst results') as Hin by (apply Hall; eexists; exact Hm).
  apply list_elem_of_fmap in Hin as ([s' [received e]] & Heq & Hin).
  simpl in Heq. subst s'.
  destruct (Hplaced s received e Hin) as (-> & m' & Hm' & Hput).
  rewrite Hm in Hm'. injection Hm' as <-.
  apply Hsub in Hin.
  destruct received as [rs|]; [|exfalso; eapply Hnonil; exact Hin].
  destruct (Hlens s rs Hin) as (m' & Hm' & Hl2).
  rewrite Hm in Hm'. injection Hm' as <-.
  destruct (Hgroups s) as [_ Hgrp]. destruct (Hgrp m Hm) as [Hi Ha].
  assert (length rs = length (ardb.Indices m)) as Hl1.
  { rewrite Hl2, Hi, Ha. symmetry. apply positionsOf_lengths. exact Hrl. }
  assert (k < length rs)%nat as Hk'
    by (rewrite Hl1; eapply lookup_lt_Some; exact Hik).
  destruct (lookup_lt_is_Some_2 rs k Hk') as [r Hrk].
  destruct (Hput k r Hrk) as (x & Hx & Hrx).
  rewrite Hik in Hx. injection Hx as <-. rewrite Nat2Z.id in Hrx.
  exists s, m, rs, k, r. repeat split; assumption.
Qed.

End Placing.

Section Ordered.
Context {Store command : Type}.
Variable dial : config.StorageServerConfig -> Store -> option error.
Variable exec : command -> config.StorageServerConfig -> Store ->
                (ardb.Reply * option error) * Store.
Local Abbreviation StorageAction := (@ardb.StorageAction command).
Local Abbreviation IAM := (ardb.IndexActionMap StorageAction).
Local Abbreviation Pair := (ardb.IndexActionPair StorageAction).
Local Abbreviation net := (@ardb.net Store).

(** A batch that succeeds replies with one reply per action. *)
Lemma Commands_replies (actions : list StorageAction)
    (conn : config.StorageServerConfig) (st st' : Store) (r : ardb.Reply) :
  ardb.action_Do exec (ardb.Commands actions) conn st = ((r, None), st') ->
  exists rs : list ardb.Reply,
    r = ardb.arrayReply rs /\ length rs = length actions.
Proof.
  revert st st' r. induction actions as [|a actions IH]; intros st st' r H.
  - simpl in H. injection H as <- _. exists []. split; reflexivity.
  - simpl in H.
    destruct (ardb.action_Do exec a conn st) as [[r1 [e1|]] s1];
      [discriminate|].
    match type of H with
    | context [?f actions s1] =>
        destruct (f actions s1) as [[rs1 [e2|]] s2] eqn:Hb
    end; [discriminate|].
    injection H as <- _.
    destruct (IH s1 s2 (ardb.arrayReply rs1)) as (rs' & Heq & Hl).
    { simpl. rewrite Hb. reflexivity. }
    injection Heq as <-. exists (r1 :: rs1). split; [reflexivity|].
    simpl. f_equal. exact Hl.
Qed.

Lemma Values_Some (r : ardb.Reply * option error) (rs : list ardb.Reply) :
  ardb.Values r = (Some rs, None) -> r = (ardb.arrayReply rs, None).
Proof.
  destruct r as [r [e|]]; destruct r; simpl; try discriminate.
  intros [= ->]. reflexivity.
Qed.

Lemma doAt_Return (cluster : ardb.Cluster) (s : Z) (action : StorageAction)
    (w : net) (x : ardb.Reply * option error * net) :
  ardb.doAt dial exec cluster s action w = Return x ->
  exists cfg : config.StorageServerConfig,
    ardb.at_index (ardb.servers cluster) s = Return cfg
    /\ x = ardb.dialAndDo dial exec cfg action w.
Proof.
  unfold ardb.doAt.
  destruct (ardb.at_index (ardb.servers cluster) s) as [cfg| |];
    try discriminate.
  intros [= <-]. exists cfg. split; reflexivity.
Qed.

Lemma dialAndDo_Commands_replies (cfg : config.StorageServerConfig)
    (actions : list StorageAction) (w w1 : net) (rs : list ardb.Reply) :
  ardb.dialAndDo dial exec cfg (ardb.Commands actions) w
  = ((ardb.arrayReply rs, None), w1) ->
  length rs = length actions.
Proof.
  unfold ardb.dialAndDo, ardb.Dial.
  destruct (dial cfg (ardb.store w)); [discriminate|].
  cbn [ardb.store].
  destruct (ardb.action_Do exec (ardb.Commands actions) cfg (ardb.store w))
    as [[r e] st'] eqn:Ha.
  intros [= -> -> _].
  apply Commands_replies in Ha as (rs' & [= <-] & Hl). exact Hl.
Qed.

Lemma doAt_Commands_replies (cluster : ardb.Cluster) (s : Z)
    (actions : list StorageAction) (w w1 : net)
    (r : ardb.Reply * option error) (rs : list ardb.Reply) :
  ardb.doAt dial exec cluster s (ardb.Commands actions) w = Return (r, w1) ->
  ardb.Values r = (Some rs, None) ->
  length rs = length actions.
Proof.
  intros H Hv. apply Values_Some in Hv as ->.
  apply doAt_Return in H as (cfg & _ & H).
  eapply dialAndDo_Commands_replies. symmetry. exact H.
Qed.

Lemma runBatches_spec (cluster : ardb.Cluster) :
  forall (batches : list (Z * IAM)) (w w' : net)
         (results : list (Z * (option (list ardb.Reply) * option error))),
    ardb.runBatches dial exec cluster batches w = Return (results, w') ->
    map fst results = map fst batches
    /\ forall (s : Z) (rs : list ardb.Reply),
         (s, (Some rs, None)) ∈ results ->
         exists m : IAM, (s, m) ∈ batches /\ length rs = length (ardb.Actions m).
Proof.
  induction batches as [|[s m] rest IH]; intros w w' results H; simpl in H.
  - injection H as <- _. split; [reflexivity|]. intros s rs Hin. inversion Hin.
  - destruct (ardb.doAt _ _ _ _ _ _) as [[r w1]| |] eqn:Hd;
      simpl in H; try discriminate.
    destruct (ardb.runBatches _ _ _ _ _) as [[res w2]| |] eqn:Hr;
      simpl in H; try discriminate.
    injection H as <- _. apply IH in Hr as [Hkeys Hlen].
    split; [simpl; f_equal; exact Hkeys|].
    intros s' rs Hin. apply elem_of_cons in Hin as [Heq|Hin].
    + injection Heq as -> Hv. exists m. split; [left|].
      eapply doAt_Commands_replies; [exact Hd|]. symmetry. exact Hv.
    + destruct (Hlen s' rs Hin) as (m' & Hm' & Hl). exists m'.
      split; [right; exact Hm'|exact Hl].
Qed.

(** A result without an error holds a reply vector. *)
Lemma runBatches_no_nil (cluster : ardb.Cluster) :
  forall (batches : list (Z * IAM)) (w w' : net)
         (results : list (Z * (option (list ardb.Reply) * option error)))
         (s : Z),
    ardb.runBatches dial exec cluster batches w = Return (results, w') ->
    (s, (None, None)) ∉ results.
Proof.
  induction batches as [|[s1 m1] bs IH]; intros w w' results s Hrun Hin;
    simpl in Hrun.
  - injection Hrun as <- _. inversion Hin.
  - destruct (ardb.doAt _ _ _ _ _ _) as [[r w2]| |]; simpl in Hrun;
      try discriminate.
    destruct (ardb.runBatches _ _ _ _ _) as [[res w3]| |] eqn:Hr;
      simpl in Hrun; try discriminate.
    injection Hrun as <- _. apply elem_of_cons in Hin as [Heq|Hin].
    + injection Heq as _ Hv. destruct r as [r [e|]]; destruct r; discriminate.
    + eapply IH; [exact Hr|exact Hin].
Qed.

(** For two pairs or more, a reply vector that [Cluster.DoForAll] returns
    has one reply per pair, in the order of the pairs: the pair at position
    [i], routed by [ComputeServerIndex] to the server [s], stands at some
    position [k] of the batch of [s] (its position and its action are the
    [k]-th of the group), and the reply at position [i] is the [k]-th reply
    that [s] gave to its batch. *)
Theorem Cluster_DoForAll_ordered (fuel : nat) (cluster : ardb.Cluster)
    (pairs : list Pair) (w w' : net) (replies : list ardb.Reply) :
  (2 <= length pairs)%nat ->
  ardb.Cluster_DoForAll dial exec fuel cluster pairs w
  = Return ((Some replies, None), w') ->
  length replies = length pairs
  /\ exists (servers : gmap Z IAM)
            (results : list (Z * (option (list ardb.Reply) * option error))),
       ardb.groupByServer fuel cluster pairs 0 ∅ = Return (inl servers)
       /\ ardb.runBatches dial exec cluster (map_to_list servers) w
          = Return (results, w')
       /\ forall (i : nat) (p : Pair),
            pairs !! i = Some p ->
            exists (s : Z) (m : IAM) (rs : list ardb.Reply) (k : nat)
                   (r : ardb.Reply),
              ardb.ComputeServerIndex fuel (ardb.serverCount cluster)
                (ardb.Index p) (ardb.serverOperational cluster)
              = Return (s, None)
              /\ servers !! s = Some m
              /\ ardb.Indices m !! k = Some (Z.of_nat i)
              /\ ardb.Actions m !! k = Some (ardb.Action_ p)
              /\ (s, (Some rs, None)) ∈ results
              /\ rs !! k = Some r
              /\ replies !! i = Some r.
Proof.
  intros Hn H.
  destruct pairs as [|p0 [|p1 ps]]; simpl in Hn; try lia.
  unfold ardb.Cluster_DoForAll in H.
  set (pairs := p0 :: p1 :: ps) in *.
  destruct (ardb.groupByServer fuel cluster pairs 0 ∅) as [[servers|e]| |] eqn:Hg;
    cbn [mbind outcome_bind obind] in H; try discriminate.
  destruct (groupByServer_routes _ _ _ _ Hg) as (routes & Hroutes & Hgroups).
  pose proof (routed_length _ _ _ _ Hroutes) as Hrl.
  destruct (map_to_list servers) as [|[s0 m0] [|b1 rest]] eqn:Hml.
  - (* no server: impossible, two pairs were routed *)
    exfalso.
    destruct (positions_found _ _ _ _ _ Hroutes Hgroups 0%nat p0 eq_refl)
      as (s & m & k & _ & _ & Hm & _).
    apply elem_of_map_to_list in Hm. rewrite Hml in Hm. inversion Hm.
  - (* one server: the reply vector of its batch is returned as it is *)
    destruct (ardb.doAt _ _ _ _ _ _) as [[r w1]| |] eqn:Hd;
      cbn [mbind outcome_bind obind] in H; try discriminate.
    injection H as Hv <-.
    assert (Hrun : ardb.runBatches dial exec cluster [(s0, m0)] w
                   = Return ([(s0, ardb.Values r)], w1)).
    { simpl. rewrite Hd. reflexivity. }
    assert (Hm0 : servers !! s0 = Some m0)
      by (apply elem_of_map_to_list; rewrite Hml; left).
    assert (Hall : Forall (fun r0 => r0 = s0) routes).
    { apply Forall_forall. intros s Hs. destruct (Hgroups s) as [Hdom _].
      apply Hdom in Hs as [m Hm].
      apply elem_of_map_to_list in Hm. rewrite Hml in Hm.
      apply list_elem_of_singleton in Hm. congruence. }
    destruct (Hgroups s0) as [_ Hgrp]. destruct (Hgrp m0 Hm0) as [Hi Ha].
    rewrite (actionsOf_all _ _ _ Hall Hrl) in Ha.
    pose proof (doAt_Commands_replies _ _ _ _ _ _ _ Hd Hv) as Hlen.
    rewrite Ha, length_map in Hlen.
    split; [exact Hlen|]. exists servers, [(s0, ardb.Values r)].
    split; [reflexivity|]. split; [rewrite Hml; exact Hrun|].
    intros i p Hp.
    destruct (Forall2_lookup_l _ _ _ _ _ Hroutes Hp) as (s & Hs & Hc).
    assert (s = s0) as -> by (eapply (proj1 (Forall_lookup _ _) Hall); exact Hs).
    assert (i < length pairs)%nat as Hlt by (eapply lookup_lt_Some; exact Hp).
    destruct (lookup_lt_is_Some_2 replies i ltac:(lia)) as [ri Hri].
    exists s0, m0, replies, i, ri.
    split; [exact Hc|]. split; [exact Hm0|]. split.
    { rewrite Hi, positionsOf_all by (assumption || lia). f_equal. }
    split; [rewrite Ha, list_lookup_fmap, Hp; reflexivity|].
    split; [rewrite Hv; left|]. split; exact Hri.
  - (* several servers: the replies are placed one by one *)
    destruct (ardb.runBatches _ _ _ _ _) as [[results w1]| |] eqn:Hrun;
      cbn [mbind outcome_bind obind] in H; try discriminate.
    destruct (ardb.collectReplies servers results _) as [[out err]| |] eqn:Hcol;
      cbn [mbind outcome_bind obind] in H; try discriminate.
    injection H as -> -> <-.
    destruct (runBatches_spec _ _ _ _ _ Hrun) as [Hkeys Hlens].
    destruct (collected_placed fuel cluster pairs servers results results replies)
      as [Hlen Hpl]; try assumption.
    + rewrite Hkeys, <- Hml. apply NoDup_fst_map_to_list.
    + intros s [m Hm]. rewrite Hkeys, <- Hml. apply list_elem_of_fmap.
      exists (s, m). split; [reflexivity|]. apply elem_of_map_to_list. exact Hm.
    + intros x Hx. exact Hx.
    + intros s rs Hin. destruct (Hlens s rs Hin) as (m & Hm & Hl).
      exists m. split; [|exact Hl].
      apply elem_of_map_to_list. rewrite Hml. exact Hm.
    + intros s. eapply runBatches_no_nil. exact Hrun.
    + split; [exact Hlen|]. exists servers, results.
      split; [reflexivity|]. split; [rewrite Hml; exact Hrun|]. exact Hpl.
Qed.

(** The order of the reply vector does not depend on the schedule of the
    goroutines of [Cluster.DoForAll]: in whatever order the servers run
    their batches, and in whatever order their results arrive on the
    channel, a collecting loop that ends without an error has put one reply
    per pair, each at the position of its pair. *)
Theorem DoForAll_any_schedule (fuel : nat) (cluster : ardb.Cluster)
    (pairs : list Pair) (servers : gmap Z IAM)
    (batches : list (Z * IAM))
    (results results' : list (Z * (option (list ardb.Reply) * option error)))
    (w w' : net) (replies : list ardb.Reply) :
  ardb.groupByServer fuel cluster pairs 0 ∅ = Return (inl servers) ->
  batches ≡ₚ map_to_list servers ->
  ardb.runBatches dial exec cluster batches w = Return (results, w') ->
  results' ≡ₚ results ->
  ardb.collectReplies servers results' (replicate (length pairs) ardb.nilReply)
  = Return (Some replies, None) ->
  length replies = length pairs
  /\ placed fuel cluster pairs servers results replies.
Proof.
  intros Hg Hperm Hrun Hperm' Hcol.
  destruct (runBatches_spec _ _ _ _ _ Hrun) as [Hkeys Hlens].
  assert (map fst results' ≡ₚ map fst (map_to_list servers)) as Hk.
  { rewrite Hperm', Hkeys, Hperm. reflexivity. }
  apply (collected_placed fuel cluster pairs servers results results' replies);
    try assumption.
  - rewrite Hk. apply NoDup_fst_map_to_list.
  - intros s [m Hm]. rewrite Hk. apply list_elem_of_fmap.
    exists (s, m). split; [reflexivity|]. apply elem_of_map_to_list. exact Hm.
  - intros x Hx. rewrite <- Hperm'. exact Hx.
  - intros s rs Hin. destruct (Hlens s rs Hin) as (m & Hm & Hl).
    exists m. split; [|exact Hl].
    apply elem_of_map_to_list. rewrite <- Hperm. exact Hm.
  - intros s. eapply runBatches_no_nil. exact Hrun.
Qed.

End Ordered.


Lemma Cluster_DoForAll_ordered_witness :
  length [ardb.intReply 10; ardb.intReply 12] = length twoPairs.
Proof.
  refine (proj1 (Cluster_DoForAll_ordered acceptAll echo 0 oneRetiredCluster
                   twoPairs idle
                   {| ardb.store := tt;
                      ardb.dialed := [ {| config.Address := "10.0.0.3:16379";
                                          config.Database := 0;
                                          config.State := config.StorageServerStateOnline |};
                                       {| config.Address := "10.0.0.1:16379";
                                          config.Database := 0;
                                          config.State := config.StorageServerStateOnline |} ] |}
                   [ardb.intReply 10; ardb.intReply 12] _ _)).
  - simpl. lia.
  - vm_compute. reflexivity.
Defined.

Lemma DoForAll_any_schedule_witness :
  length [ardb.intReply 10; ardb.intReply 12] = length twoPairs.
Proof.
  refine (proj1 (DoForAll_any_schedule acceptAll echo 0 oneRetiredCluster
                   twoPairs
                   {[ 0 := {| ardb.Indices := [0];
                              ardb.Actions := [ardb.Command 10] |};
                      2 := {| ardb.Indices := [1];
                              ardb.Actions := [ardb.Command 12] |} ]}
                   [ (0, {| ardb.Indices := [0];
                            ardb.Actions := [ardb.Command 10] |});
                     (2, {| ardb.Indices := [1];
                            ardb.Actions := [ardb.Command 12] |}) ]
                   [ (0, (Some [ardb.intReply 10], None));
                     (2, (Some [ardb.intReply 12], None)) ]
                   [ (2, (Some [ardb.intReply 12], None));
                     (0, (Some [ardb.intReply 10], None)) ]
                   idle
                   {| ardb.store := tt;
                      ardb.dialed := [ {| config.Address := "10.0.0.1:16379";
                                          config.Database := 0;
                                          config.State := config.StorageServerStateOnline |};
                                       {| config.Address := "10.0.0.3:16379";
                                          config.Database := 0;
                                          config.State := config.StorageServerStateOnline |} ] |}
                   [ardb.intReply 10; ardb.intReply 12] _ _ _ _ _)).
  - vm_compute. reflexivity.
  - vm_compute. apply perm_swap.
  - vm_compute. reflexivity.
  - apply perm_swap.
  - vm_compute. reflexivity.
Defined.

(** ** Shards: reading, writing and updating *)

Lemma shard_Write_allNil (s : lba.shard) (buf : lba.Buffer) :
  lba.wf_shard s ->
  allNil (lba.hashes s) ->
  lba.shard_Write s buf = (buf, Some errNilShardWrite).
Proof.
  intros Hwf Hall. unfold lba.wf_shard in Hwf.
  destruct (firstNonNil_spec (lba.hashes s) 0) as (_ & _ & Ha).
  unfold lba.shard_Write. rewrite Hwf in *. apply Ha in Hall.
  destruct (_ =? _) eqn:E; [reflexivity|].
  apply Z.eqb_neq in E. exfalso. apply E. rewrite Hall. reflexivity.
Qed.

Lemma shard_Write_set (s : lba.shard) (buf : lba.Buffer) :
  lba.wf_shard s ->
  ~ allNil (lba.hashes s) ->
  lba.shard_Write s buf = (buf ++ serialized (lba.hashes s), None).
Proof.
  intros Hwf Hnot. unfold lba.wf_shard in Hwf.
  destruct (firstNonNil_spec (lba.hashes s) 0) as (_ & Ht & Ha).
  unfold lba.shard_Write. rewrite Hwf in *.
  destruct (_ =? _) eqn:E.
  { apply Z.eqb_eq in E. exfalso. apply Hnot, Ha. rewrite E. reflexivity. }
  rewrite writeNilHashes_Buffer, writeHashes_Buffer, <- app_assoc.
  f_equal. rewrite Z.sub_0_r in Ht.
  rewrite <- Ht, <- serialized_app, take_drop. reflexivity.
Qed.

Lemma zeroHash_length : length lba.zeroHash = 32%nat.
Proof. reflexivity. Qed.

Lemma copy_NewHash (src : list byte) :
  (32 <= length src)%nat -> lba.copy lba.NewHash src = take 32 src.
Proof.
  intros H. unfold lba.copy, lba.NewHash. rewrite zeroHash_length.
  rewrite Nat.min_l by lia. rewrite drop_ge by (rewrite zeroHash_length; lia).
  apply app_nil_r.
Qed.

(** What [shardFromBytes] reads serializes to the bytes it read, each record
    is of 32 bytes and none is the all-zero hash. *)
Lemma readRecords_spec :
  forall (n : nat) (i : Z) (bytes : list byte),
    0 <= i ->
    32 * (i + Z.of_nat n) <= Z.of_nat (length bytes) ->
    length (lba.readRecords n i bytes) = n
    /\ serialized (lba.readRecords n i bytes)
       = take (32 * n) (drop (Z.to_nat (32 * i)) bytes)
    /\ hashSized (lba.readRecords n i bytes)
    /\ noZeroHash (lba.readRecords n i bytes).
Proof.
  induction n as [|n IH]; intros i bytes Hi Hlen.
  - simpl. repeat split; constructor.
  - destruct (IH (i + 1) bytes ltac:(lia) ltac:(lia)) as (Hl & Hs & Hh & Hz).
    simpl lba.readRecords. unfold lba.HashSize.
    set (src := drop (Z.to_nat (i * 32)) bytes).
    assert (32 <= length src)%nat as Hsrc
      by (unfold src; rewrite length_drop; lia).
    rewrite (copy_NewHash src Hsrc).
    set (h := take 32 src).
    assert (length h = 32%nat) as Hhl
      by (unfold h; rewrite length_take; lia).
    assert (default lba.zeroHash
              (if lba.Hash_Equals (Some h) lba.nilHash then None else Some h) = h)
      as Hdef.
    { unfold lba.Hash_Equals, lba.nilHash. simpl.
      destruct (bool_decide (h = lba.zeroHash)) eqn:E; [|reflexivity].
      apply bool_decide_eq_true in E. simpl. congruence. }
    split; [cbn [length]; f_equal; exact Hl|]. split; [|split].
    + unfold serialized in *. cbn [map concat]. rewrite Hdef, Hs.
      replace (Z.to_nat (32 * (i + 1))) with (Z.to_nat (i * 32) + 32)%nat by lia.
      rewrite <- drop_drop. fold src.
      replace (Z.to_nat (32 * i)) with (Z.to_nat (i * 32)) by lia. fold src.
      replace (32 * S n)%nat with (32 + 32 * n)%nat by lia.
      unfold h. apply take_take_drop.
    + constructor; [|exact Hh].
      intros b Hb. unfold lba.HashSize.
      destruct (lba.Hash_Equals _ _); [discriminate|].
      injection Hb as <-. lia.
    + constructor; [|exact Hz].
      unfold lba.Hash_Equals, lba.nilHash. simpl.
      destruct (bool_decide (h = lba.zeroHash)) eqn:E; [discriminate|].
      apply bool_decide_eq_false in E. congruence.
Qed.

Lemma serialized_allNil (hashes : list lba.Hash) :
  hashSized hashes -> noZeroHash hashes ->
  (allNil hashes <->
   serialized hashes = replicate (32 * length hashes) "000"%byte).
Proof.
  induction hashes as [|h hs IH]; intros Hh Hz.
  - split; [reflexivity|constructor].
  - inversion Hh as [|? ? Hh1 Hh2]; inversion Hz as [|? ? Hz1 Hz2]; subst.
    specialize (IH Hh2 Hz2).
    replace (32 * length (h :: hs))%nat with (32 + 32 * length hs)%nat
      by (simpl; lia).
    rewrite replicate_add. unfold serialized in *. cbn [map concat].
    split.
    + intros Hall. inversion Hall as [|? ? -> Hall']; subst.
      change (default lba.zeroHash None) with (replicate 32 "000"%byte).
      f_equal. apply IH, Hall'.
    + intros Heq. destruct h as [b|].
      * exfalso. change (default lba.zeroHash (Some b)) with b in Heq.
        specialize (Hh1 b eq_refl). unfold lba.HashSize in Hh1.
        apply app_inj_1 in Heq as [Hb _];
          [|rewrite length_replicate; lia].
        apply Hz1. unfold lba.nilHash. rewrite Hb. reflexivity.
      * change (default lba.zeroHash None) with (replicate 32 "000"%byte) in Heq.
        apply app_inv_head in Heq.
        constructor; [reflexivity|]. apply IH, Heq.
Qed.

(** [shardFromBytes] rejects a buffer of fewer than [BytesPerShard] = 4096
    bytes and accepts every other one, reading its first 4096 bytes only:
    the shard read has 128 slots, is not dirty, holds hashes of 32 bytes and
    never the all-zero hash (such a record is left nil). Writing the shard
    read gives back the first 4096 bytes of the buffer, unless they are all
    zero: then every slot is nil and [Write] fails with the NilShardWrite
    error. *)
Theorem shardFromBytes_then_Write (bytes : list byte) (buf : lba.Buffer) :
  (Z.of_nat (length bytes) < lba.BytesPerShard ->
   exists msg : string,
     lba.shardFromBytes bytes = (None, Some (errorString msg)))
  /\ (lba.BytesPerShard <= Z.of_nat (length bytes) ->
      exists s : lba.shard,
        lba.shardFromBytes bytes = (Some s, None)
        /\ lba.wf_shard s
        /\ lba.shard_Dirty s = false
        /\ hashSized (lba.hashes s)
        /\ noZeroHash (lba.hashes s)
        /\ (take 4096 bytes = replicate 4096 "000"%byte ->
            lba.shard_Write s buf = (buf, Some errNilShardWrite))
        /\ (take 4096 bytes <> replicate 4096 "000"%byte ->
            lba.shard_Write s buf = (buf ++ take 4096 bytes, None))).
Proof.
  unfold lba.shardFromBytes. split.
  - intros H. apply Z.ltb_lt in H. rewrite H. eexists. reflexivity.
  - intros H. destruct (_ <? _) eqn:E; [apply Z.ltb_lt in E; lia|].
    eexists. split; [reflexivity|].
    change (Z.to_nat lba.NumberOfRecordsPerLBAShard) with 128%nat.
    change lba.BytesPerShard with 4096 in H.
    destruct (readRecords_spec 128 0 bytes ltac:(lia) ltac:(lia))
      as (Hl & Hs & Hh & Hz).
    change (32 * 128)%nat with 4096%nat in Hs.
    change (Z.to_nat (32 * 0)) with 0%nat in Hs. rewrite drop_0 in Hs.
    set (s := {| lba.hashes := lba.readRecords 128 0 bytes; lba.dirty := false |}).
    assert (lba.wf_shard s) as Hwf by exact Hl.
    pose proof (shard_Write_allNil s buf Hwf) as Hnil.
    pose proof (shard_Write_set s buf Hwf) as Hsome.
    pose proof (serialized_allNil _ Hh Hz) as Hiff.
    rewrite Hl, Hs in Hiff. change (32 * 128)%nat with 4096%nat in Hiff.
    repeat split; try assumption.
    + intros Hzero. apply Hnil, Hiff, Hzero.
    + intros Hnz. rewrite Hsome.
      * unfold s. cbn [lba.hashes]. rewrite Hs. reflexivity.
      * intros Hall. apply Hnz, Hiff, Hall.
Qed.

Lemma shardFromBytes_then_Write_witness :
  exists s : lba.shard,
    lba.shardFromBytes (replicate 4100 "001"%byte) = (Some s, None)
    /\ lba.wf_shard s
    /\ lba.shard_Dirty s = false
    /\ hashSized (lba.hashes s)
    /\ noZeroHash (lba.hashes s)
    /\ (take 4096 (replicate 4100 "001"%byte) = replicate 4096 "000"%byte ->
        lba.shard_Write s ([] : lba.Buffer) = ([], Some errNilShardWrite))
    /\ (take 4096 (replicate 4100 "001"%byte) <> replicate 4096 "000"%byte ->
        lba.shard_Write s ([] : lba.Buffer)
        = ([] ++ take 4096 (replicate 4100 "001"%byte), None)).
Proof.
  apply (proj2 (shardFromBytes_then_Write (replicate 4100 "001"%byte) [])).
  vm_compute. discriminate.
Defined.

(** Records that hold no all-zero hash are read back as they are. *)
Lemma readRecords_serialized :
  forall (hashes : list lba.Hash) (i : Z) (bytes : list byte),
    0 <= i ->
    hashSized hashes -> noZeroHash hashes ->
    (exists rest, drop (Z.to_nat (32 * i)) bytes = serialized hashes ++ rest) ->
    lba.readRecords (length hashes) i bytes = hashes.
Proof.
  induction hashes as [|h hs IH]; intros i bytes Hi Hh Hz [rest Hd];
    [reflexivity|].
  inversion Hh as [|? ? Hh1 Hh2]; inversion Hz as [|? ? Hz1 Hz2]; subst.
  set (b := default lba.zeroHash h).
  assert (length b = 32%nat) as Hb.
  { unfold b. destruct h as [x|]; [|reflexivity].
    specialize (Hh1 x eq_refl). unfold lba.HashSize in Hh1.
    change (default lba.zeroHash (Some x)) with x. lia. }
  assert (drop (Z.to_nat (32 * i)) bytes = b ++ serialized hs ++ rest) as Hd'.
  { rewrite Hd. unfold serialized. cbn [map concat]. fold b.
    rewrite <- app_assoc. reflexivity. }
  cbn [length lba.readRecords]. change lba.HashSize with 32.
  replace (Z.to_nat (i * 32)) with (Z.to_nat (32 * i)) by lia.
  rewrite Hd'.
  rewrite copy_NewHash by (rewrite length_app; lia).
  rewrite take_app_length' by (symmetry; exact Hb).
  f_equal.
  - unfold lba.Hash_Equals, lba.nilHash, b.
    destruct h as [x|].
    + change (default lba.zeroHash (Some x)) with x.
      rewrite bool_decide_eq_false_2; [reflexivity|].
      change (default [] (Some x)) with x.
      change (default [] (Some lba.zeroHash)) with lba.zeroHash.
      intros ->. apply Hz1. reflexivity.
    + rewrite bool_decide_eq_true_2; reflexivity.
  - apply IH; [lia|assumption|assumption|].
    exists rest.
    replace (Z.to_nat (32 * (i + 1))) with (Z.to_nat (32 * i) + 32)%nat by lia.
    rewrite <- drop_drop, Hd'.
    rewrite drop_app_length' by (symmetry; exact Hb). reflexivity.
Qed.

(** A shard of 128 slots whose hashes are of 32 bytes, none of them the
    all-zero hash and at least one of them set, survives a round trip:
    [Write] emits [BytesPerShard] bytes, and [shardFromBytes] reads from
    them the same slots (as a shard that is not dirty). *)
Theorem shard_Write_then_shardFromBytes (s : lba.shard) :
  lba.wf_shard s ->
  hashSized (lba.hashes s) ->
  noZeroHash (lba.hashes s) ->
  ~ allNil (lba.hashes s) ->
  exists bytes : list byte,
    lba.shard_Write s ([] : lba.Buffer) = (bytes, None)
    /\ Z.of_nat (length bytes) = lba.BytesPerShard
    /\ lba.shardFromBytes bytes = (Some (lba.shard_UnsetDirty s), None).
Proof.
  intros Hwf Hh Hz Hnn.
  pose proof (shard_Write_set s [] Hwf Hnn) as Hw.
  assert (Z.of_nat (length (serialized (lba.hashes s))) = lba.BytesPerShard)
    as Hl.
  { rewrite (serialized_length _ Hh). unfold lba.wf_shard in Hwf.
    rewrite Hwf. reflexivity. }
  exists (serialized (lba.hashes s)). split; [exact Hw|]. split; [exact Hl|].
  unfold lba.shardFromBytes. rewrite Hl, Z.ltb_irrefl.
  unfold lba.shard_UnsetDirty. do 3 f_equal.
  unfold lba.wf_shard in Hwf. rewrite <- Hwf.
  apply readRecords_serialized; [lia|assumption|assumption|].
  exists []. simpl. rewrite app_nil_r. reflexivity.
Qed.

Lemma oneSlotShard_hashSized : hashSized (lba.hashes oneSlotShard).
Proof.
  unfold oneSlotShard. cbn [lba.hashes]. constructor.
  - intros b [= <-]. reflexivity.
  - apply Forall_replicate. discriminate.
Qed.

Lemma oneSlotShard_noZeroHash : noZeroHash (lba.hashes oneSlotShard).
Proof.
  unfold oneSlotShard. cbn [lba.hashes]. constructor.
  - discriminate.
  - apply Forall_replicate. discriminate.
Qed.

Lemma oneSlotShard_not_allNil : ~ allNil (lba.hashes oneSlotShard).
Proof. inversion 1; discriminate. Qed.

Lemma shard_Write_then_shardFromBytes_witness :
  exists bytes : list byte,
    lba.shard_Write oneSlotShard ([] : lba.Buffer) = (bytes, None)
    /\ Z.of_nat (length bytes) = lba.BytesPerShard
    /\ lba.shardFromBytes bytes = (Some (lba.shard_UnsetDirty oneSlotShard), None).
Proof.
  apply (shard_Write_then_shardFromBytes oneSlotShard);
    [reflexivity | apply oneSlotShard_hashSized
     | apply oneSlotShard_noZeroHash | apply oneSlotShard_not_allNil].
Defined.

Lemma shard_Set_Return (s : lba.shard) (hashIndex : Z) (hash : lba.Hash) :
  lba.wf_shard s ->
  0 <= hashIndex < lba.NumberOfRecordsPerLBAShard ->
  lba.shard_Set s hashIndex hash
  = Return {| lba.hashes := <[Z.to_nat hashIndex := hash]> (lba.hashes s);
              lba.dirty := true |}.
Proof.
  unfold lba.wf_shard. change lba.NumberOfRecordsPerLBAShard with 128.
  change (Z.to_nat 128) with 128%nat. intros Hwf Hr.
  unfold lba.shard_Set, ardb.set_index. rewrite Hwf.
  rewrite (proj2 (andb_true_iff _ _))
    by (split; [apply Z.leb_le|apply Z.ltb_lt]; lia).
  reflexivity.
Qed.

Lemma index_out_of_range (i n : Z) :
  ~ 0 <= i < n -> (0 <=? i) && (i <? n) = false.
Proof.
  intros H. apply andb_false_iff.
  destruct (Z.le_gt_cases 0 i);
    [right; apply Z.ltb_ge; lia | left; apply Z.leb_gt; lia].
Qed.

(** On a shard of 128 slots, [Set] followed by [Get] of the same index gives
    the hash that was set, [Get] of any other index gives what it gave
    before, and the shard is dirty until [UnsetDirty], which touches no
    slot. An index outside [0, 128) makes [Set] and [Get] panic. *)
Theorem shard_Set_then_Get (s : lba.shard) (hashIndex : Z) (hash : lba.Hash) :
  lba.wf_shard s ->
  (0 <= hashIndex < lba.NumberOfRecordsPerLBAShard ->
   exists s' : lba.shard,
     lba.shard_Set s hashIndex hash = Return s'
     /\ lba.wf_shard s'
     /\ lba.shard_Dirty s' = true
     /\ lba.shard_Get s' hashIndex = Return hash
     /\ (forall j : Z, j <> hashIndex -> lba.shard_Get s' j = lba.shard_Get s j)
     /\ lba.shard_Dirty (lba.shard_UnsetDirty s') = false
     /\ lba.hashes (lba.shard_UnsetDirty s') = lba.hashes s')
  /\ (~ 0 <= hashIndex < lba.NumberOfRecordsPerLBAShard ->
      lba.shard_Set s hashIndex hash = Panic "index out of range"
      /\ lba.shard_Get s hashIndex = Panic "index out of range").
Proof.
  intros Hwf. split.
  - intros Hr. rewrite (shard_Set_Return _ _ _ Hwf Hr).
    eexists. split; [reflexivity|].
    unfold lba.wf_shard in *. change lba.NumberOfRecordsPerLBAShard with 128 in *.
    change (Z.to_nat 128) with 128%nat in *.
    unfold lba.shard_Get, ardb.at_index.
    cbn [lba.hashes lba.shard_Dirty lba.shard_UnsetDirty lba.dirty].
    rewrite length_insert, Hwf.
    split; [reflexivity|]. split; [reflexivity|]. split.
    + rewrite (proj2 (andb_true_iff _ _))
        by (split; [apply Z.leb_le|apply Z.ltb_lt]; lia).
      rewrite list_lookup_insert_eq by lia. reflexivity.
    + split; [|split; reflexivity].
      intros j Hj. destruct (_ && _) eqn:E; [|reflexivity].
      apply andb_true_iff in E as [E1 E2]. apply Z.leb_le in E1.
      rewrite list_lookup_insert_ne by lia. reflexivity.
  - intros Hr. unfold lba.wf_shard in Hwf.
    unfold lba.shard_Set, lba.shard_Get, ardb.set_index, ardb.at_index.
    rewrite Hwf, index_out_of_range by exact Hr.
    split; reflexivity.
Qed.

Lemma shard_Set_then_Get_witness :
  exists s' : lba.shard,
    lba.shard_Set lba.newShard 5 lba.nilHash = Return s'
    /\ lba.wf_shard s'
    /\ lba.shard_Dirty s' = true
    /\ lba.shard_Get s' 5 = Return lba.nilHash
    /\ (forall j : Z, j <> 5 -> lba.shard_Get s' j = lba.shard_Get lba.newShard j)
    /\ lba.shard_Dirty (lba.shard_UnsetDirty s') = false
    /\ lba.hashes (lba.shard_UnsetDirty s') = lba.hashes s'.
Proof.
  apply (proj1 (shard_Set_then_Get lba.newShard 5 lba.nilHash eq_refl)).
  vm_compute. split; [discriminate|reflexivity].
Defined.

Lemma serialized_zeros (hashes : list lba.Hash) :
  Forall (fun h : lba.Hash => h = None \/ h = lba.nilHash) hashes ->
  serialized hashes = replicate (32 * length hashes) "000"%byte.
Proof.
  induction 1 as [|h hs Hh _ IH]; [reflexivity|].
  replace (32 * length (h :: hs))%nat with (32 + 32 * length hs)%nat
    by (cbn [length]; lia).
  rewrite replicate_add. unfold serialized in *. cbn [map concat].
  rewrite IH. f_equal. destruct Hh as [-> | ->]; reflexivity.
Qed.

(** Deleting the last hash of a shard, every slot but one being nil. [Set]
    of Go's nil at that slot leaves a dirty shard that [Write] refuses with
    the NilShardWrite error, writing nothing. [Set] of [nilHash], the hash of
    32 zero bytes, at that slot leaves a dirty shard that [Write] accepts: it
    writes 4096 zero bytes and returns no error. *)
Theorem shard_delete_last_hash (s : lba.shard) (hashIndex : Z) (buf : lba.Buffer) :
  lba.wf_shard s ->
  0 <= hashIndex < lba.NumberOfRecordsPerLBAShard ->
  (forall j : Z, j <> hashIndex -> 0 <= j < lba.NumberOfRecordsPerLBAShard ->
     lba.shard_Get s j = Return None) ->
  (exists s' : lba.shard,
     lba.shard_Set s hashIndex None = Return s'
     /\ lba.shard_Dirty s' = true
     /\ lba.shard_Write s' buf = (buf, Some errNilShardWrite))
  /\ (exists s' : lba.shard,
        lba.shard_Set s hashIndex lba.nilHash = Return s'
        /\ lba.shard_Dirty s' = true
        /\ lba.shard_Write s' buf
           = (buf ++ replicate 4096 "000"%byte, None)).
Proof.
  intros Hwf Hr Hothers.
  rewrite !(shard_Set_Return _ _ _ Hwf Hr).
  unfold lba.wf_shard in Hwf.
  change lba.NumberOfRecordsPerLBAShard with 128 in *.
  change (Z.to_nat 128) with 128%nat in *.
  assert (forall (hash : lba.Hash) (k : nat) (h : lba.Hash),
            <[Z.to_nat hashIndex := hash]> (lba.hashes s) !! k = Some h ->
            h = None \/ (k = Z.to_nat hashIndex /\ h = hash)) as Hslots.
  { intros hash k h Hk.
    assert (k < 128)%nat as Hlt.
    { apply lookup_lt_Some in Hk. rewrite length_insert, Hwf in Hk. exact Hk. }
    destruct (decide (k = Z.to_nat hashIndex)) as [->|Hne].
    - rewrite list_lookup_insert_eq in Hk by lia. right. split; congruence.
    - rewrite list_lookup_insert_ne in Hk
        by (intros Heq; apply Hne; symmetry; exact Heq).
      assert (lba.shard_Get s (Z.of_nat k) = Return None) as Hg
        by (apply Hothers; lia).
      apply at_index_Return in Hg as [_ Hg]. rewrite Nat2Z.id in Hg.
      left. congruence. }
  split; eexists; (split; [reflexivity|]); (split; [reflexivity|]).
  - apply shard_Write_allNil.
    + unfold lba.wf_shard. cbn [lba.hashes]. rewrite length_insert. exact Hwf.
    + cbn [lba.hashes]. unfold allNil. apply Forall_lookup. intros k h Hk.
      destruct (Hslots _ _ _ Hk) as [H|[_ H]]; exact H.
  - rewrite shard_Write_set.
    + f_equal. f_equal. cbn [lba.hashes]. rewrite serialized_zeros.
      * rewrite length_insert, Hwf. reflexivity.
      * apply Forall_lookup. intros k h Hk.
        destruct (Hslots _ _ _ Hk) as [H|[_ H]]; [left|right]; exact H.
    + unfold lba.wf_shard. cbn [lba.hashes]. rewrite length_insert. exact Hwf.
    + cbn [lba.hashes]. unfold allNil. intros Hall.
      rewrite Forall_lookup in Hall.
      specialize (Hall (Z.to_nat hashIndex) lba.nilHash).
      rewrite list_lookup_insert_eq in Hall by lia.
      specialize (Hall eq_refl). discriminate.
Qed.

Lemma oneSlotShard_others (j : Z) :
  j <> 0 -> 0 <= j < lba.NumberOfRecordsPerLBAShard ->
  lba.shard_Get oneSlotShard j = Return None.
Proof.
  intros Hj Hr. unfold lba.shard_Get, ardb.at_index, oneSlotShard.
  cbn [lba.hashes]. change lba.NumberOfRecordsPerLBAShard with 128 in Hr.
  rewrite (proj2 (andb_true_iff _ _))
    by (split; [apply Z.leb_le|apply Z.ltb_lt];
        rewrite ?length_cons, ?length_replicate; lia).
  destruct (Z.to_nat j) as [|k] eqn:Hk; [lia|].
  match goal with
  | |- context [(?x :: ?l) !! S k] => change ((x :: l) !! S k) with (l !! k)
  end.
  rewrite lookup_replicate_2 by lia. reflexivity.
Qed.

Lemma shard_delete_last_hash_witness :
  (exists s' : lba.shard,
     lba.shard_Set oneSlotShard 0 None = Return s'
     /\ lba.shard_Dirty s' = true
     /\ lba.shard_Write s' ([] : lba.Buffer) = ([], Some errNilShardWrite))
  /\ (exists s' : lba.shard,
        lba.shard_Set oneSlotShard 0 lba.nilHash = Return s'
        /\ lba.shard_Dirty s' = true
        /\ lba.shard_Write s' ([] : lba.Buffer)
           = ([] ++ replicate 4096 "000"%byte, None)).
Proof.
  apply (shard_delete_last_hash oneSlotShard 0 []);
    [reflexivity | vm_compute; split; [discriminate|reflexivity] |].
  exact oneSlotShard_others.
Defined.

(** ** Writing a shard to any writer *)

Section AnyWriter.

Context {W : Type} `{lba.Writer W}.

Lemma writeAll_app (a b : list (list byte)) (w : W) :
  writeAll (a ++ b) w
  = match writeAll a w with
    | (w', Some err) => (w', Some err)
    | (w', None) => writeAll b w'
    end.
Proof.
  revert w. induction a as [|c a IH]; intros w; cbn [writeAll app].
  - reflexivity.
  - destruct (lba.Write w c) as [w' [err|]]; [reflexivity|apply IH].
Qed.

Lemma writeNilHashes_writeAll (n : nat) (w : W) :
  lba.writeNilHashes n w = writeAll (map slotBytes (replicate n None)) w.
Proof.
  revert w. induction n as [|n IH]; intros w; [reflexivity|].
  cbn [lba.writeNilHashes replicate map writeAll].
  change (slotBytes None) with lba.zeroHash.
  destruct (lba.Write w lba.zeroHash) as [w' [err|]]; [reflexivity|apply IH].
Qed.

Lemma writeHashes_writeAll (hashes : list lba.Hash) (w : W) :
  lba.writeHashes hashes w = writeAll (map slotBytes hashes) w.
Proof.
  revert w. induction hashes as [|h hs IH]; intros w; [reflexivity|].
  cbn [lba.writeHashes map writeAll].
  assert (match h with None => lba.zeroHash | Some b => b end = slotBytes h)
    as -> by (destruct h; reflexivity).
  destruct (lba.Write w (slotBytes h)) as [w' [err|]]; [reflexivity|apply IH].
Qed.

(** [shard.Write], whatever the writer: a shard of 128 slots that are all
    nil is refused without a single write; otherwise the slots are written
    in slot order, one write of the slot's bytes (the all-zero hash for a
    nil slot) per slot, and the first write that fails ends the call with
    its error, the slots after it unwritten. *)
Theorem shard_Write_any_writer (s : lba.shard) (w : W) :
  lba.wf_shard s ->
  (allNil (lba.hashes s) ->
   lba.shard_Write s w = (w, Some errNilShardWrite))
  /\ (~ allNil (lba.hashes s) ->
      lba.shard_Write s w = writeAll (map slotBytes (lba.hashes s)) w).
Proof.
  intros Hwf. unfold lba.wf_shard in Hwf.
  destruct (firstNonNil_spec (lba.hashes s) 0) as (Hr & Ht & Ha).
  unfold lba.shard_Write. rewrite Hwf in *. split.
  - intros Hall. apply Ha in Hall.
    destruct (_ =? _) eqn:E; [reflexivity|].
    apply Z.eqb_neq in E. exfalso. apply E. rewrite Hall. reflexivity.
  - intros Hnot.
    destruct (_ =? _) eqn:E.
    { apply Z.eqb_eq in E. exfalso. apply Hnot, Ha. rewrite E. reflexivity. }
    rewrite Z.sub_0_r in Ht.
    set (k := Z.to_nat (lba.firstNonNil (lba.hashes s) 0)) in *.
    assert (map slotBytes (lba.hashes s)
            = map slotBytes (replicate k None)
              ++ map slotBytes (drop k (lba.hashes s))) as ->.
    { rewrite <- Ht, <- map_app, take_drop. reflexivity. }
    rewrite writeAll_app, <- writeNilHashes_writeAll.
    destruct (lba.writeNilHashes k w) as [w1 [err|]]; [reflexivity|].
    apply writeHashes_writeAll.
Qed.

End AnyWriter.

Lemma shard_Write_any_writer_witness :
  lba.shard_Write oneSlotShard {| lba.written := []; lba.room := 40 |}
  = ({| lba.written := replicate 32 "001"%byte; lba.room := 8 |},
     Some (errorString "short write")).
Proof.
  refine (eq_trans
            (proj2 (shard_Write_any_writer oneSlotShard
                      {| lba.written := []; lba.room := 40 |} eq_refl) _) _).
  - inversion 1; discriminate.
  - vm_compute. reflexivity.
Defined.

(** ** The FTP driver, continued *)

Lemma string_of_bytes_inj (a b : list byte) :
  backup.string_of_bytes a = backup.string_of_bytes b -> a = b.
Proof.
  unfold backup.string_of_bytes. intros H.
  rewrite <- (list_byte_of_string_of_list_byte a),
          <- (list_byte_of_string_of_list_byte b), H.
  reflexivity.
Qed.

(** [hashAsDirAndFile] keeps hashes apart: two hashes of 32 bytes get the
    same directory and the same file name only when they are the same hash,
    so the pair it returns determines the hash. The path that the driver
    then makes of the pair with [path.Join] is not part of this statement. *)
Theorem hashAsDirAndFile_injective (h1 h2 : list byte) :
  Z.of_nat (length h1) = backup.HashSize ->
  Z.of_nat (length h2) = backup.HashSize ->
  backup.hashAsDirAndFile h1 = backup.hashAsDirAndFile h2 <-> h1 = h2.
Proof.
  intros H1 H2. split; [|intros ->; reflexivity]. intros Heq.
  destruct (hashAsDirAndFile_accepts h1 H1)
    as (a0 & a1 & a2 & a3 & r1 & -> & _ & E1).
  destruct (hashAsDirAndFile_accepts h2 H2)
    as (b0 & b1 & b2 & b3 & r2 & -> & _ & E2).
  rewrite E1, E2 in Heq.
  assert (backup.string_of_bytes [a0; a1; "/"%byte; a2; a3]
          = backup.string_of_bytes [b0; b1; "/"%byte; b2; b3]) as Hdir
    by congruence.
  assert (backup.string_of_bytes r1 = backup.string_of_bytes r2) as Hfile
    by congruence.
  apply string_of_bytes_inj in Hdir, Hfile.
  injection Hdir as -> -> -> ->. subst r2. reflexivity.
Qed.

Lemma hashAsDirAndFile_injective_witness :
  backup.hashAsDirAndFile hashOfX
  <> backup.hashAsDirAndFile (replicate 31 "x"%byte ++ ["/"%byte]).
Proof.
  intros Heq.
  apply (proj1 (hashAsDirAndFile_injective hashOfX
                  (replicate 31 "x"%byte ++ ["/"%byte])
                  eq_refl eq_refl)) in Heq.
  discriminate Heq.
Defined.

Section Driver.

Context {Server : Type}.
Variable Stat : string -> Server -> backup.FileInfo + error.
Variable Mkdir : string -> Server -> (string + error) * Server.
Variable Store : string -> list byte -> Server -> option error * Server.
Variable Retrieve : string -> Server -> list byte + error.
Variable path_Join : string -> string -> string.
Variable strings_Split : string -> string -> list string.

Local Abbreviation ftpDriver := (@backup.ftpDriver Server).

Lemma walked_refl (ftp : ftpDriver) : walked Stat ftp ftp [].
Proof.
  unfold walked. rewrite app_nil_r.
  split; [reflexivity|]. split; [reflexivity|]. split; [constructor|].
  split; [intros d Hd; exact Hd|]. intros d Hd. left. exact Hd.
Qed.

Lemma walked_trans (ftp1 ftp2 ftp3 : ftpDriver)
    (cmds1 cmds2 : list backup.ftpCommand) :
  walked Stat ftp1 ftp2 cmds1 -> walked Stat ftp2 ftp3 cmds2 ->
  walked Stat ftp1 ftp3 (cmds1 ++ cmds2).
Proof.
  intros (Hr1 & Hs1 & Hc1 & Hk1 & Hl1) (Hr2 & Hs2 & Hc2 & Hk2 & Hl2).
  unfold walked. split; [congruence|].
  split; [rewrite Hs2, Hs1, app_assoc; reflexivity|].
  split; [apply Forall_app; split; assumption|].
  split; [intros d Hd; apply Hk2, Hk1, Hd|].
  intros d Hd. destruct (Hl2 d Hd) as [Hd2|[Hin Hex]].
  - destruct (Hl1 d Hd2) as [Hd1|[Hin Hex]]; [left; exact Hd1|].
    right. split; [apply elem_of_app; left; exact Hin|exact Hex].
  - right. split; [apply elem_of_app; right; exact Hin|exact Hex].
Qed.

Lemma walked_send (c : backup.ftpCommand) (srv : Server) (ftp : ftpDriver) :
  isStatOrMkdir c = true -> walked Stat ftp (backup.send c srv ftp) [c].
Proof.
  intros Hc. unfold walked, backup.send. cbn.
  split; [reflexivity|]. split; [reflexivity|].
  split; [constructor; [exact Hc|constructor]|].
  split; [intros d Hd; exact Hd|]. intros d Hd. left. exact Hd.
Qed.

Lemma walked_stat_know (pwd : string) (info : backup.FileInfo) (ftp : ftpDriver) :
  Stat pwd (backup.server ftp) = inl info ->
  backup.IsDir info = true ->
  walked Stat ftp
    (backup.know pwd (backup.send (backup.cmdStat pwd) (backup.server ftp) ftp))
    [backup.cmdStat pwd].
Proof.
  intros Hs Hd. unfold walked, backup.know, backup.send. cbn.
  split; [reflexivity|]. split; [reflexivity|].
  split; [constructor; [reflexivity|constructor]|].
  split; [intros d Hin; apply elem_of_union; right; exact Hin|].
  intros d Hin. apply elem_of_union in Hin as [Hin|Hin]; [|left; exact Hin].
  apply elem_of_singleton in Hin. subst d. right.
  split; [left|]. exists (backup.server ftp), info. split; assumption.
Qed.

Lemma mkdirsWalk_walked (dirs : list string) :
  forall (pwd : string) (ftp : ftpDriver),
    exists cmds : list backup.ftpCommand,
      walked Stat ftp
        (backup.mkdirsWalk Stat Mkdir path_Join dirs pwd ftp).2 cmds.
Proof.
  induction dirs as [|d rest IH]; intros pwd ftp; cbn [backup.mkdirsWalk].
  - exists []. apply walked_refl.
  - destruct (bool_decide _); [apply IH|].
    destruct (Stat (path_Join pwd d) (backup.server ftp)) as [info|err] eqn:Hs.
    + destruct (backup.IsDir info) eqn:Hd; cbn [negb].
      * destruct (IH (path_Join pwd d)
                    (backup.know (path_Join pwd d)
                       (backup.send (backup.cmdStat (path_Join pwd d))
                          (backup.server ftp) ftp))) as [cmds Hw].
        eexists. eapply walked_trans; [|exact Hw].
        apply (walked_stat_know _ info); assumption.
      * eexists. apply walked_send. reflexivity.
    + match goal with
      | |- context [if ?b then _ else _] => destruct b
      end; [|eexists; apply walked_send; reflexivity].
      destruct (Mkdir _ _) as [[output|err'] srv].
      * destruct (IH output
                    (backup.send (backup.cmdMkdir (path_Join pwd d)) srv
                       (backup.send (backup.cmdStat (path_Join pwd d))
                          (backup.server ftp) ftp))) as [cmds Hw].
        eexists. eapply walked_trans; [|exact Hw].
        eapply walked_trans; apply walked_send; reflexivity.
      * eexists. cbn [snd].
        eapply walked_trans; apply walked_send; reflexivity.
Qed.

(** [mkdirs] talks to the server with Stat and Mkdir only, keeps the root
    and what the driver knew, and learns nothing but paths that the server,
    asked with Stat, reported as directories. For a directory it knows
    already it sends nothing and returns the directory under the root. *)
Theorem mkdirs_learns_confirmed_dirs (dir : string) (ftp : ftpDriver) :
  (exists cmds : list backup.ftpCommand,
     walked Stat ftp
       (backup.mkdirs Stat Mkdir path_Join strings_Split dir ftp).2 cmds)
  /\ (path_Join (backup.root ftp) dir ∈ backup.knownDirs ftp ->
      backup.mkdirs Stat Mkdir path_Join strings_Split dir ftp
      = ((path_Join (backup.root ftp) dir, None), ftp)).
Proof.
  unfold backup.mkdirs. split.
  - destruct (bool_decide _); [exists []; apply walked_refl|].
    apply mkdirsWalk_walked.
  - intros Hk. rewrite bool_decide_eq_true_2 by exact Hk. reflexivity.
Qed.

(** [GetDedupedBlock] only reads: it leaves the server, the root and the
    known directories as they were, sends at most one command, a
    retrieval; and what it returns depends on the hash and the server
    alone, not on the root of the driver: the block is retrieved from
    [<dir>/<file>] as it is, whereas [SetDedupedBlock] stores it under the
    root. *)
Theorem GetDedupedBlock_reads_only (hash : list byte) (ftp : ftpDriver) :
  let run := backup.GetDedupedBlock Retrieve path_Join hash ftp in
  backup.server run.2 = backup.server ftp
  /\ backup.root run.2 = backup.root ftp
  /\ backup.knownDirs run.2 = backup.knownDirs ftp
  /\ (backup.sent run.2 = backup.sent ftp
      \/ exists dir file : string,
           backup.hashAsDirAndFile hash = (dir, file, true)
           /\ backup.sent run.2
              = backup.sent ftp ++ [backup.cmdRetrieve (path_Join dir file)])
  /\ forall ftp2 : ftpDriver,
       backup.server ftp2 = backup.server ftp ->
       (backup.GetDedupedBlock Retrieve path_Join hash ftp2).1 = run.1.
Proof.
  intros run. subst run. unfold backup.GetDedupedBlock.
  destruct (backup.hashAsDirAndFile hash) as [[dir file] ok].
  destruct ok; cbn [negb].
  - destruct (Retrieve (path_Join dir file) (backup.server ftp)) eqn:Hr; cbn;
      (repeat split; try reflexivity);
      try (right; exists dir, file; split; reflexivity);
      intros ftp2 ->; rewrite Hr; reflexivity.
  - cbn. repeat split; try reflexivity. left. reflexivity.
Qed.

End Driver.

Lemma mkdirs_learns_confirmed_dirs_witness :
  backup.mkdirs memStat memMkdir joinPath splitPath "xx/xx" visitedDriver
  = (("backup/xx/xx", None), visitedDriver).
Proof.
  apply (proj2 (mkdirs_learns_confirmed_dirs memStat memMkdir joinPath splitPath
                  "xx/xx" visitedDriver)).
  apply elem_of_singleton. reflexivity.
Defined.

(** On the server that holds the block of [hashOfX] under the root "backup"
    the driver with that root does not find the block. *)
Lemma GetDedupedBlock_reads_only_witness :
  (backup.GetDedupedBlock memRetrieve joinPath hashOfX visitedDriver).1
  = (backup.GetDedupedBlock memRetrieve joinPath hashOfX freshDriver).1
  /\ (backup.GetDedupedBlock memRetrieve joinPath hashOfX freshDriver).1
     = ([], Some (ftpError 550 "no such file")).
Proof.
  split; [|reflexivity].
  apply (proj2 (proj2 (proj2 (proj2
           (GetDedupedBlock_reads_only memRetrieve joinPath hashOfX
              freshDriver)))) visitedDriver).
  reflexivity.
Defined.

(** ** Block fetchers of another block size *)

Lemma copyInto_length (output block out' : list byte) (lo hi : Z) :
  backup.copyInto output lo hi block = Return out' ->
  length out' = length output.
Proof.
  unfold backup.copyInto. destruct (_ && _) eqn:E; [|discriminate].
  apply andb_true_iff in E as [E E3]. apply andb_true_iff in E as [E1 E2].
  apply Z.leb_le in E1, E2, E3. intros [= <-].
  rewrite !length_app, !length_take, length_drop. lia.
Qed.

Lemma make_length (n : Z) (out : list byte) :
  backup.make n = Return out -> Z.of_nat (length out) = n.
Proof.
  unfold backup.make. destruct (n <? 0) eqn:E; [discriminate|].
  apply Z.ltb_ge in E. intros [= <-]. rewrite length_replicate. lia.
Qed.

Lemma fetchAll_S {F : Type} `{backup.blockFetcher F} (calls : nat) (bf : F) :
  fetchAll (S calls) bf
  = '(fetched, bf') ← backup.FetchBlock bf;
    match fetched with
    | inr EOF => Return ([], None)
    | inr err => Return ([], Some err)
    | inl blockPair =>
        '(rest, err) ← fetchAll calls bf';
        Return (blockPair :: rest, err)
    end.
Proof. reflexivity. Qed.

Section Sized.

Context {F : Type} `{backup.blockFetcher F}.

Lemma emit_Return (ibf ibf' : backup.inflationBlockFetcher F) (bf : F)
    (output : list byte) (offset prevIndex : Z)
    (r : backup.blockIndexPair + error) :
  backup.emit ibf bf output offset prevIndex = Return (r, ibf') ->
  (exists blockPair, r = inl blockPair /\ backup.Block blockPair = output)
  /\ backup.cache_output ibf' = None
  /\ backup.dstBS ibf' = backup.dstBS ibf.
Proof.
  unfold backup.emit. destruct (_ =? 0); [discriminate|].
  intros [= <- <-]. split; [eexists; split; reflexivity|]. split; reflexivity.
Qed.

Lemma fillLoop_sized (fuel : nat) :
  forall (ibf ibf' : backup.inflationBlockFetcher F) (bf : F)
         (output : list byte) (offset prevIndex : Z)
         (r : backup.blockIndexPair + error),
    Z.of_nat (length output) = backup.dstBS ibf ->
    backup.fillLoop fuel ibf bf output offset prevIndex = Return (r, ibf') ->
    (forall blockPair, r = inl blockPair ->
       Z.of_nat (length (backup.Block blockPair)) = backup.dstBS ibf)
    /\ cacheSized ibf'
    /\ backup.dstBS ibf' = backup.dstBS ibf.
Proof.
  assert (Hemit : forall (ibf ibf' : backup.inflationBlockFetcher F) bf output
                         offset prevIndex r,
            Z.of_nat (length output) = backup.dstBS ibf ->
            backup.emit ibf bf output offset prevIndex = Return (r, ibf') ->
            (forall blockPair, r = inl blockPair ->
               Z.of_nat (length (backup.Block blockPair)) = backup.dstBS ibf)
            /\ cacheSized ibf'
            /\ backup.dstBS ibf' = backup.dstBS ibf).
  { intros ibf ibf' bf output offset prevIndex r Hlen He.
    apply emit_Return in He as ((bp & -> & Hb) & Hc & Hd).
    split; [intros ? [= <-]; rewrite Hb; exact Hlen|].
    split; [|exact Hd]. intros out Ho. rewrite Hc in Ho. discriminate. }
  induction fuel as [|fuel IH]; intros ibf ibf' bf output offset prevIndex r Hlen Hf.
  - simpl in Hf. destruct (offset <? backup.dstBS ibf); [discriminate|].
    eapply Hemit; eassumption.
  - simpl in Hf. destruct (offset <? backup.dstBS ibf); [|eapply Hemit; eassumption].
    destruct (backup.FetchBlock bf) as [[fetched bf1]| |];
      cbn [mbind outcome_bind obind] in Hf; try discriminate.
    destruct fetched as [blockPair|err].
    + destruct (_ && (backup.dstBS ibf <=? _)); [eapply Hemit; eassumption|].
      destruct (backup.copyInto _ _ _ _) as [output1| |] eqn:Hc;
        cbn [mbind outcome_bind obind] in Hf; try discriminate.
      apply copyInto_length in Hc.
      eapply IH; [|exact Hf]. rewrite Hc. exact Hlen.
    + destruct err; try (injection Hf as <- <-; split; [discriminate|];
        split; [intros out [= <-]; exact Hlen|reflexivity]).
      eapply Hemit; eassumption.
Qed.

Lemma inflation_FetchBlock_sized (fuel : nat)
    (ibf ibf' : backup.inflationBlockFetcher F)
    (r : backup.blockIndexPair + error) :
  cacheSized ibf ->
  backup.inflationBlockFetcher_FetchBlock fuel ibf = Return (r, ibf') ->
  (forall blockPair, r = inl blockPair ->
     Z.of_nat (length (backup.Block blockPair)) = backup.dstBS ibf)
  /\ cacheSized ibf'
  /\ backup.dstBS ibf' = backup.dstBS ibf.
Proof.
  intros Hinv. unfold backup.inflationBlockFetcher_FetchBlock.
  destruct (backup.cache_output ibf) as [output|] eqn:Hc.
  - apply fillLoop_sized. apply Hinv. exact Hc.
  - destruct (backup.FetchBlock (backup.in_ ibf)) as [[fetched bf1]| |];
      cbn [mbind outcome_bind obind]; try discriminate.
    destruct fetched as [blockPair|err].
    + destruct (backup.make _) as [output| |] eqn:Hm;
        cbn [mbind outcome_bind obind]; try discriminate.
      apply make_length in Hm.
      destruct (_ =? 0); [discriminate|].
      destruct (backup.copyInto _ _ _ _) as [output1| |] eqn:Hcp;
        cbn [mbind outcome_bind obind]; try discriminate.
      apply copyInto_length in Hcp.
      apply fillLoop_sized. rewrite Hcp. exact Hm.
    + intros [= <- <-]. split; [discriminate|].
      split; [|reflexivity]. intros out Ho. discriminate.
Qed.

Lemma deflateLoop_sized (fuel : nat) :
  forall (dbf dbf' : backup.deflationBlockFetcher F)
         (r : backup.blockIndexPair + error),
    backup.deflateLoop fuel dbf = Return (r, dbf') ->
    (forall blockPair, r = inl blockPair ->
       Z.of_nat (length (backup.Block blockPair)) = backup.dbf_dstBS dbf
       /\ backup.isNilBlock (backup.Block blockPair) = false)
    /\ backup.dbf_dstBS dbf' = backup.dbf_dstBS dbf.
Proof.
  induction fuel as [|fuel IH]; intros dbf dbf' r Hd; [discriminate|].
  simpl in Hd. destruct (0 <? _).
  - destruct (_ && _) eqn:E; [|discriminate].
    apply andb_true_iff in E as [E1 E2]. apply Z.leb_le in E1, E2.
    destruct (backup.isNilBlock _) eqn:Hn; simpl in Hd.
    + apply IH in Hd as [Hb Hs]. split; [exact Hb|exact Hs].
    + injection Hd as <- <-. split; [|reflexivity].
      intros bp [= <-]. cbn [backup.Block]. split; [|exact Hn].
      rewrite length_take. lia.
  - destruct (backup.FetchBlock (backup.dbf_in dbf)) as [[fetched bf1]| |];
      cbn [mbind outcome_bind obind] in Hd; try discriminate.
    destruct fetched as [blockPair|err].
    + apply IH in Hd as [Hb Hs]. split; [exact Hb|exact Hs].
    + injection Hd as <- <-. split; [discriminate|reflexivity].
Qed.

Lemma sizedFetcher_FetchBlock_sized (fuel : nat) (srcBS dstBS : Z)
    (sf sf' : backup.sizedFetcher F) (r : backup.blockIndexPair + error) :
  (forall bf : F, sf = backup.unsized bf -> srcBS = dstBS /\ yieldsBlocksOf srcBS) ->
  sizedFor dstBS sf ->
  backup.sizedFetcher_FetchBlock fuel sf = Return (r, sf') ->
  (forall blockPair, r = inl blockPair ->
     Z.of_nat (length (backup.Block blockPair)) = dstBS)
  /\ sizedFor dstBS sf'
  /\ (forall bf : F, sf' = backup.unsized bf -> srcBS = dstBS /\ yieldsBlocksOf srcBS).
Proof.
  intros Hsame Hinv Hf. destruct sf as [ibf|dbf|bf]; simpl in Hf.
  - destruct (backup.inflationBlockFetcher_FetchBlock fuel ibf)
      as [[r0 ibf']| |] eqn:Hi; cbn [mbind outcome_bind obind] in Hf;
      try discriminate.
    injection Hf as <- <-. destruct Hinv as [Hc Hd].
    apply (inflation_FetchBlock_sized _ _ _ _ Hc) in Hi as (Hb & Hc' & Hd').
    split; [intros bp Hbp; rewrite <- Hd; apply Hb, Hbp|].
    split; [split; [exact Hc'|congruence]|]. discriminate.
  - destruct (backup.deflationBlockFetcher_FetchBlock fuel dbf)
      as [[r0 dbf']| |] eqn:Hi; cbn [mbind outcome_bind obind] in Hf;
      try discriminate.
    injection Hf as <- <-. simpl in Hinv.
    apply deflateLoop_sized in Hi as (Hb & Hd').
    split; [intros bp Hbp; rewrite <- Hinv; apply Hb, Hbp|].
    split; [simpl; congruence|]. discriminate.
  - destruct (backup.FetchBlock bf) as [[r0 bf']| |] eqn:Hi;
      cbn [mbind outcome_bind obind] in Hf; try discriminate.
    injection Hf as <- <-. destruct (Hsame bf eq_refl) as [Heq Hy].
    split; [intros bp ->; rewrite <- Heq; eapply Hy; exact Hi|].
    split; [exact I|]. intros bf0 _. split; assumption.
Qed.

(** The fetcher that [sizedBlockFetcher] returns yields blocks of the
    destination block size only: whatever the source and however long the
    stream is read, every block it returns has [dstBS] bytes. For equal
    block sizes the fetcher is the source itself, whose blocks have to be of
    that size; an inflation and a deflation fetcher size their blocks
    themselves, whatever the source yields. *)
Theorem sizedBlockFetcher_block_size (bf : F) (srcBS dstBS : Z)
    (sf : backup.sizedFetcher F) (fuel calls : nat)
    (blocks : list backup.blockIndexPair) (err : option error) :
  backup.sizedBlockFetcher bf srcBS dstBS = Return sf ->
  (srcBS = dstBS -> yieldsBlocksOf srcBS) ->
  fetchAll (H := backup.sizedFetcher_FetchBlock fuel) calls sf
  = Return (blocks, err) ->
  Forall (fun blockPair => Z.of_nat (length (backup.Block blockPair)) = dstBS)
         blocks.
Proof.
  intros Hnew Hsrc.
  assert (sizedFor dstBS sf
          /\ forall bf0 : F, sf = backup.unsized bf0 ->
               srcBS = dstBS /\ yieldsBlocksOf srcBS) as [Hinv Hsame].
  { unfold backup.sizedBlockFetcher in Hnew.
    destruct (srcBS <? dstBS) eqn:E1.
    - unfold backup.newInflationBlockFetcher in Hnew.
      destruct (srcBS =? 0); [discriminate|].
      injection Hnew as <-. split; [|discriminate].
      split; [intros out Ho; discriminate|reflexivity].
    - destruct (dstBS <? srcBS) eqn:E2.
      + unfold backup.newDeflationBlockFetcher in Hnew.
        destruct (dstBS =? 0); [discriminate|].
        injection Hnew as <-. split; [reflexivity|discriminate].
      + injection Hnew as <-. split; [exact I|]. intros bf0 _.
        apply Z.ltb_ge in E1, E2.
        assert (srcBS = dstBS) as Heq by lia. split; [exact Heq|auto]. }
  clear Hnew. revert sf blocks err Hinv Hsame.
  induction calls as [|calls IH]; intros sf blocks err Hinv Hsame Hall;
    [discriminate|].
  rewrite fetchAll_S in Hall.
  change (backup.FetchBlock sf) with (backup.sizedFetcher_FetchBlock fuel sf) in Hall.
  destruct (backup.sizedFetcher_FetchBlock fuel sf) as [[fetched sf']| |] eqn:Hf;
    cbn [mbind outcome_bind obind] in Hall; try discriminate.
  destruct (sizedFetcher_FetchBlock_sized _ _ _ _ _ _ Hsame Hinv Hf)
    as (Hb & Hinv' & Hsame').
  destruct fetched as [blockPair|e].
  - match type of Hall with
    | context [@fetchAll ?T ?h calls sf'] =>
        destruct (@fetchAll T h calls sf') as [[rest err']| |] eqn:Hrest
    end; cbn [mbind outcome_bind obind] in Hall; try discriminate.
    injection Hall as <- <-. constructor; [apply Hb; reflexivity|].
    eapply IH; eassumption.
  - destruct e; injection Hall as <- <-; constructor.
Qed.

End Sized.

Lemma sizedBlockFetcher_block_size_witness :
  Forall (fun blockPair => Z.of_nat (length (backup.Block blockPair)) = 16)
         [ {| backup.Block := blockA ++ blockB ++ zeroBlock 4 ++ blockC;
              backup.Index := 0 |} ].
Proof.
  apply (sizedBlockFetcher_block_size (sourceABC blockA blockB blockC) 4 16
           (backup.inflating
              {| backup.in_ := sourceABC blockA blockB blockC;
                 backup.srcBS := 4; backup.dstBS := 16; backup.ratio := 4;
                 backup.cache_output := None; backup.cache_offset := 0;
                 backup.cache_prevIndex := 0 |})
           3 2 _ None).
  - reflexivity.
  - intros Heq. discriminate Heq.
  - vm_compute. reflexivity.
Defined.

(** ** The deflation block fetcher *)

Section Deflation.

Variables srcBS dstBS ratio : Z.
Hypothesis dstBS_pos : 0 < dstBS.
Hypothesis ratio_pos : 0 < ratio.
Hypothesis srcBS_ratio : srcBS = ratio * dstBS.

Local Abbreviation dbfOf := (backup.deflationBlockFetcher backup.listBlockFetcher).

Lemma deflateLoop_next (fuel : nat) :
  forall (dbf : dbfOf) (k : nat) (rest : list backup.blockIndexPair),
    deflating srcBS dstBS ratio dbf k rest ->
    (k + length rest * (Z.to_nat ratio + 1) < fuel)%nat ->
    match pieces k (Z.to_nat dstBS) (backup.cb dbf) (backup.cbi dbf)
          ++ deflated ratio dstBS rest with
    | [] => exists dbf', backup.deflateLoop fuel dbf = Return (inr EOF, dbf')
    | blockPair :: tl =>
        exists dbf' k' rest',
          backup.deflateLoop fuel dbf = Return (inl blockPair, dbf')
          /\ deflating srcBS dstBS ratio dbf' k' rest'
          /\ pieces k' (Z.to_nat dstBS) (backup.cb dbf') (backup.cbi dbf')
             ++ deflated ratio dstBS rest' = tl
          /\ (k' + length rest' * (Z.to_nat ratio + 1)
              <= k + length rest * (Z.to_nat ratio + 1))%nat
    end.
Proof.
  induction fuel as [|fuel IH]; intros dbf k rest Hok Hfuel; [lia|].
  destruct Hok as (Hd & Hr & Hin & Hlen & Hlo & Hhi & Hsrc).
  cbn [backup.deflateLoop]. destruct k as [|k].
  - (* the current block is used up: the next one is fetched *)
    assert (backup.cb dbf = []) as Hcb by (apply length_zero_iff_nil; exact Hlen).
    rewrite Hcb. cbn [length pieces app]. change (0 <? Z.of_nat 0) with false.
    cbv iota. rewrite Hin. destruct rest as [|p rest].
    + cbn. eexists; reflexivity.
    + cbn [backup.FetchBlock backup.listBlockFetcher_blockFetcher mbind outcome_bind obind].
      pose proof (Forall_inv Hsrc) as (Hpl & Hp0 & Hpmax).
      pose proof (Forall_inv_tail Hsrc) as Hsrc'.
      rewrite Hr.
      assert (Int64.signed (backup.Index p * ratio) = backup.Index p * ratio) as ->.
      { apply Int64_signed_small. unfold Int64.in_range, Int64.min_signed.
        unfold Int64.max_signed in *. nia. }
      set (dbf1 := backup.withBlock dbf rest (backup.Block p)
                     (backup.Index p * ratio)).
      assert (deflating srcBS dstBS ratio dbf1 (Z.to_nat ratio) rest) as Hok1.
      { unfold deflating, dbf1. cbn. repeat split; try assumption; nia. }
      specialize (IH dbf1 (Z.to_nat ratio) rest Hok1).
      cbn [length] in Hfuel.
      assert (Z.to_nat ratio + length rest * (Z.to_nat ratio + 1) < fuel)%nat
        as Hfuel1 by lia.
      specialize (IH Hfuel1).
      unfold deflated at 1. cbn [flat_map]. fold (deflated ratio dstBS rest).
      change (backup.cb dbf1) with (backup.Block p) in IH.
      change (backup.cbi dbf1) with (backup.Index p * ratio) in IH.
      destruct (pieces _ _ _ _ ++ _) as [|blockPair tl]; [exact IH|].
      destruct IH as (dbf' & k' & rest' & H1 & H2 & H3 & H4).
      exists dbf', k', rest'.
      split; [exact H1|]. split; [exact H2|]. split; [exact H3|].
      cbn [length]. lia.
  - (* a piece is cut off the current block *)
    assert (0 < Z.to_nat dstBS)%nat as Hdpos by lia.
    assert ((0 <? Z.of_nat (length (backup.cb dbf))) = true) as ->
      by (apply Z.ltb_lt; rewrite Hlen; nia).
    rewrite Hd.
    assert ((0 <=? dstBS) && (dstBS <=? Z.of_nat (length (backup.cb dbf))) = true)
      as ->.
    { apply andb_true_iff. split; [apply Z.leb_le; lia|].
      apply Z.leb_le. rewrite Hlen. nia. }
    assert (Int64.signed (backup.cbi dbf + 1) = backup.cbi dbf + 1) as ->.
    { apply Int64_signed_small. unfold Int64.in_range, Int64.min_signed.
      unfold Int64.max_signed in *. lia. }
    set (dbf1 := backup.withBlock dbf (backup.dbf_in dbf)
                   (drop (Z.to_nat dstBS) (backup.cb dbf)) (backup.cbi dbf + 1)).
    assert (deflating srcBS dstBS ratio dbf1 k rest) as Hok1.
    { unfold deflating, dbf1. cbn. repeat split; try assumption; try lia.
      rewrite length_drop, Hlen. lia. }
    cbn [pieces].
    destruct (backup.isNilBlock (take (Z.to_nat dstBS) (backup.cb dbf))) eqn:Hn;
      cbn [negb app].
    + specialize (IH dbf1 k rest Hok1 ltac:(lia)).
      change (backup.cb dbf1) with (drop (Z.to_nat dstBS) (backup.cb dbf)) in IH.
      change (backup.cbi dbf1) with (backup.cbi dbf + 1) in IH.
      destruct (pieces _ _ _ _ ++ _) as [|blockPair tl]; [exact IH|].
      destruct IH as (dbf' & k' & rest' & H1 & H2 & H3 & H4).
      exists dbf', k', rest'.
      split; [exact H1|]. split; [exact H2|]. split; [exact H3|]. lia.
    + exists dbf1, k, rest.
      split; [reflexivity|]. split; [exact Hok1|]. split; [reflexivity|]. lia.
Qed.

Lemma fetchAll_deflating (fuel : nat) :
  forall (calls : nat) (dbf : dbfOf) (k : nat)
         (rest : list backup.blockIndexPair),
    deflating srcBS dstBS ratio dbf k rest ->
    (k + length rest * (Z.to_nat ratio + 1) < fuel)%nat ->
    (length (pieces k (Z.to_nat dstBS) (backup.cb dbf) (backup.cbi dbf)
             ++ deflated ratio dstBS rest) < calls)%nat ->
    fetchAll (H := backup.deflationBlockFetcher_FetchBlock fuel) calls dbf
    = Return (pieces k (Z.to_nat dstBS) (backup.cb dbf) (backup.cbi dbf)
              ++ deflated ratio dstBS rest, None).
Proof.
  induction calls as [|calls IH]; intros dbf k rest Hok Hfuel Hcalls; [lia|].
  rewrite fetchAll_S.
  change (backup.FetchBlock dbf) with (backup.deflateLoop fuel dbf).
  pose proof (deflateLoop_next fuel dbf k rest Hok Hfuel) as Hnext.
  destruct (pieces _ _ _ _ ++ _) as [|blockPair tl].
  - destruct Hnext as [dbf' ->]. reflexivity.
  - destruct Hnext as (dbf' & k' & rest' & -> & Hok' & Htl & Hsteps).
    cbn [mbind outcome_bind obind]. subst tl.
    rewrite (IH dbf' k' rest' Hok'); [reflexivity|lia|].
    cbn [length] in Hcalls. lia.
Qed.

End Deflation.

(** A deflation fetcher cuts every source block into its pieces: over a
    source of blocks of [srcBS] = [ratio * dstBS] bytes, its stream is, block
    after block in the order of the source, the [ratio] pieces of [dstBS]
    bytes of the block, without the pieces that hold zeros only; the [k]-th
    piece of the block of index [i] has the index [i * ratio + k]. The
    stream ends without an error once the budget of its loop and the number
    of calls allow for it. *)
Theorem deflation_cuts_blocks (source : list backup.blockIndexPair)
    (srcBS dstBS ratio : Z) (fuel calls : nat) :
  0 < dstBS ->
  0 < ratio ->
  srcBS = ratio * dstBS ->
  srcBS <= Int64.max_signed ->
  Forall (sourceBlock srcBS ratio) source ->
  (length source * (Z.to_nat ratio + 1) < fuel)%nat ->
  (length (deflated ratio dstBS source) < calls)%nat ->
  deflateAll fuel calls source srcBS dstBS
  = Return (deflated ratio dstBS source, None).
Proof.
  intros Hd Hr Hs Hmax Hsrc Hfuel Hcalls.
  unfold deflateAll, backup.newDeflationBlockFetcher.
  destruct (dstBS =? 0) eqn:E; [apply Z.eqb_eq in E; lia|].
  cbn [mbind outcome_bind obind].
  assert (Z.quot srcBS dstBS = ratio) as ->
    by (subst srcBS; apply Z.quot_mul; lia).
  assert (Int64.signed ratio = ratio) as ->.
  { apply Int64_signed_small. unfold Int64.in_range, Int64.min_signed.
    unfold Int64.max_signed in *. nia. }
  apply (fetchAll_deflating srcBS dstBS ratio Hd Hr Hs fuel calls _ 0%nat source).
  - unfold deflating. cbn. repeat split; try assumption; lia.
  - lia.
  - exact Hcalls.
Qed.

Lemma deflation_cuts_blocks_witness :
  deflateAll 6 4 [sixteenBytes] 16 4
  = Return ([ {| backup.Block := blockA; backup.Index := 4 |};
              {| backup.Block := blockB; backup.Index := 6 |};
              {| backup.Block := blockC; backup.Index := 7 |} ], None).
Proof.
  refine (deflation_cuts_blocks [sixteenBytes] 16 4 4 6 4 _ _ _ _ _ _ _).
  - lia.
  - lia.
  - reflexivity.
  - unfold Int64.max_signed. lia.
  - constructor; [|constructor].
    split; [reflexivity|]. split; [cbn; lia|].
    unfold Int64.max_signed. cbn. lia.
  - compute. lia.
  - compute. lia.
Defined.

(** ** The inflation block fetcher, continued *)

Lemma copyInto_zeros (n : nat) (lo hi : Z) (block : list byte) :
  0 <= lo ->
  hi = lo + Z.of_nat (length block) ->
  hi <= Z.of_nat n ->
  backup.copyInto (replicate n "000"%byte) lo hi block
  = Return (replicate (Z.to_nat lo) "000"%byte ++ block
            ++ replicate (n - Z.to_nat lo - length block) "000"%byte).
Proof.
  intros Hlo Hhi Hn. unfold backup.copyInto. rewrite length_replicate.
  rewrite (proj2 (andb_true_iff _ _)).
  2:{ split; [apply andb_true_iff; split|]; apply Z.leb_le; lia. }
  replace (Z.to_nat (hi - lo)) with (length block) by lia.
  rewrite Nat.min_id, firstn_all, take_replicate, drop_replicate.
  rewrite Nat.min_l by lia.
  replace (n - (Z.to_nat lo + length block))%nat
    with (n - Z.to_nat lo - length block)%nat by lia.
  reflexivity.
Qed.

Lemma in_int64 (x : Z) :
  0 <= x <= Int64.max_signed -> Int64.signed x = x.
Proof.
  intros H. apply Int64_signed_small. unfold Int64.in_range, Int64.min_signed.
  lia.
Qed.

(** An inflation fetcher loses a source block. When the block [q] that follows
    the block [p] in the source is not the next block ([Index p + 1 < Index
    q]) and belongs to a later destination block, while [p] is not the last
    piece of its own destination block, the call of [FetchBlock] that takes
    [p] also takes [q] from the source, finds that the gap reaches beyond
    the destination block, and returns the destination block of [p] alone:
    [q] is in neither the block returned nor the fetcher's cache, the source
    has moved on to what follows [q]. The stream of the source [p, q] is
    that one block. *)
Theorem inflation_drops_block_after_gap (p q : backup.blockIndexPair)
    (rest : list backup.blockIndexPair) (srcBS dstBS ratio : Z)
    (fuel calls : nat) :
  0 < srcBS ->
  0 < ratio ->
  dstBS = ratio * srcBS ->
  Z.of_nat (length (backup.Block p)) = srcBS ->
  0 <= backup.Index p ->
  Z.rem (backup.Index p) ratio + 1 < ratio ->
  backup.Index p + 1 < backup.Index q ->
  Z.quot (backup.Index p) ratio < Z.quot (backup.Index q) ratio ->
  backup.Index q * srcBS <= Int64.max_signed ->
  (0 < fuel)%nat ->
  (exists ibf ibf' : backup.inflationBlockFetcher backup.listBlockFetcher,
     backup.newInflationBlockFetcher (p :: q :: rest) srcBS dstBS = Return ibf
     /\ backup.inflationBlockFetcher_FetchBlock fuel ibf
        = Return (inl (alone srcBS dstBS ratio p), ibf')
     /\ backup.in_ ibf' = rest
     /\ backup.cache_output ibf' = None)
  /\ inflateAll fuel (S (S calls)) [p; q] srcBS dstBS
     = Return ([alone srcBS dstBS ratio p], None).
Proof.
  intros Hs Hr Hd Hpl Hp0 Hplace Hgap Hlater Hmax Hfuel.
  set (ip := backup.Index p) in *. set (iq := backup.Index q) in *.
  pose proof (Z.quot_rem' ip ratio) as Hip.
  pose proof (Z.quot_rem' iq ratio) as Hiq.
  pose proof (Z.rem_bound_pos ip ratio Hp0 Hr) as Hrp.
  assert (0 <= iq) as Hq0 by lia.
  pose proof (Z.rem_bound_pos iq ratio Hq0 Hr) as Hrq.
  assert (0 <= Z.quot ip ratio) as Hqp by (apply Z.quot_pos; lia).
  set (off0 := Z.rem ip ratio * srcBS) in *.
  assert (0 <= off0 /\ off0 + srcBS < dstBS) as [Hoff0 Hoff1] by (unfold off0; nia).
  assert (dstBS <= Int64.max_signed) as Hdmax by nia.
  assert (forall src : list backup.blockIndexPair,
            let ibf := {| backup.in_ := p :: q :: src; backup.srcBS := srcBS;
                          backup.dstBS := dstBS; backup.ratio := ratio;
                          backup.cache_output := None; backup.cache_offset := 0;
                          backup.cache_prevIndex := 0 |} in
            backup.newInflationBlockFetcher (p :: q :: src) srcBS dstBS = Return ibf
            /\ backup.inflationBlockFetcher_FetchBlock fuel ibf
               = Return (inl (alone srcBS dstBS ratio p),
                         backup.withCache ibf src None
                           (off0 + srcBS + (iq - ip - 1) * srcBS) ip))
    as Hcall.
  { intros src ibf. split.
    - unfold backup.newInflationBlockFetcher.
      destruct (srcBS =? 0) eqn:E; [apply Z.eqb_eq in E; lia|].
      assert (Z.quot dstBS srcBS = ratio) as ->
        by (rewrite Hd; apply Z.quot_mul; lia).
      reflexivity.
    - subst ibf. unfold backup.inflationBlockFetcher_FetchBlock.
      cbn [backup.cache_output backup.in_ backup.FetchBlock
           backup.listBlockFetcher_blockFetcher mbind outcome_bind obind
           backup.dstBS backup.ratio backup.srcBS backup.Index backup.Block].
      unfold backup.make.
      destruct (dstBS <? 0) eqn:E; [apply Z.ltb_lt in E; lia|].
      cbn [mbind outcome_bind obind].
      destruct (ratio =? 0) eqn:E0; [apply Z.eqb_eq in E0; lia|].
      fold ip. fold off0.
      rewrite (in_int64 off0) by lia.
      rewrite (in_int64 (off0 + srcBS)) by lia.
      rewrite copyInto_zeros by lia.
      cbn [mbind outcome_bind obind].
      destruct fuel as [|fuel']; [lia|].
      cbn [backup.fillLoop backup.dstBS backup.srcBS backup.FetchBlock
           backup.listBlockFetcher_blockFetcher mbind outcome_bind obind].
      assert ((off0 + srcBS <? dstBS) = true) as -> by (apply Z.ltb_lt; lia).
      fold iq.
      rewrite (in_int64 (iq - ip)) by nia.
      assert (((0 <=? ip) && (1 <? iq - ip)) = true) as ->.
      { apply andb_true_iff. split; [apply Z.leb_le|apply Z.ltb_lt]; lia. }
      rewrite (in_int64 (iq - ip - 1)) by nia.
      rewrite (in_int64 ((iq - ip - 1) * srcBS)) by nia.
      rewrite (in_int64 (off0 + srcBS + (iq - ip - 1) * srcBS)) by (unfold off0; nia).
      assert ((dstBS <=? off0 + srcBS + (iq - ip - 1) * srcBS) = true) as ->.
      { apply Z.leb_le. unfold off0. nia. }
      cbn [andb]. unfold backup.emit. cbn [backup.ratio]. rewrite E0.
      unfold alone. fold ip. fold off0.
      replace (Z.to_nat srcBS) with (length (backup.Block p)) by lia.
      reflexivity. }
  split.
  - destruct (Hcall rest) as [Hnew Hfetch]. eexists _, _.
    split; [exact Hnew|]. split; [exact Hfetch|]. split; reflexivity.
  - destruct (Hcall []) as [Hnew Hfetch].
    unfold inflateAll, backup.listBlockFetcher in *.
    rewrite Hnew. cbn [mbind outcome_bind obind].
    rewrite fetchAll_S.
    match goal with
    | |- context [backup.FetchBlock ?s] =>
        change (backup.FetchBlock s)
          with (backup.inflationBlockFetcher_FetchBlock fuel s)
    end.
    rewrite Hfetch. cbn [mbind outcome_bind obind]. rewrite fetchAll_S.
    reflexivity.
Qed.

Lemma inflation_drops_block_after_gap_witness :
  inflateAll 1 2 [ {| backup.Block := blockA; backup.Index := 0 |};
                   {| backup.Block := blockB; backup.Index := 5 |} ] 4 16
  = Return ([ {| backup.Block := blockA ++ zeroBlock 12; backup.Index := 0 |} ],
            None).
Proof.
  refine (proj2 (inflation_drops_block_after_gap
                   {| backup.Block := blockA; backup.Index := 0 |}
                   {| backup.Block := blockB; backup.Index := 5 |}
                   [] 4 16 4 1 0 _ _ _ _ _ _ _ _ _ _)).
  - reflexivity.
  - reflexivity.
  - reflexivity.
  - reflexivity.
  - vm_compute. discriminate.
  - reflexivity.
  - reflexivity.
  - reflexivity.
  - vm_compute. discriminate.
  - lia.
Defined.


(** ** Inflation after deflation *)

Lemma copyInto_next (B : list byte) (a d : nat) :
  (a + d <= length B)%nat ->
  backup.copyInto (take a B ++ replicate (length B - a) "000"%byte)
    (Z.of_nat a) (Z.of_nat a + Z.of_nat d) (take d (drop a B))
  = Return (take (a + d) B ++ replicate (length B - (a + d)) "000"%byte).
Proof.
  intros Hle. unfold backup.copyInto.
  rewrite length_app, length_take, length_replicate.
  rewrite (proj2 (andb_true_iff _ _)).
  2:{ split; [apply andb_true_iff; split|]; apply Z.leb_le; lia. }
  rewrite Nat2Z.id.
  replace (Z.to_nat (Z.of_nat a + Z.of_nat d - Z.of_nat a)) with d by lia.
  rewrite length_take, length_drop.
  replace (d `min` (d `min` (length B - a)))%nat with d by lia.
  rewrite take_app_length' by (rewrite length_take; lia).
  rewrite drop_app_ge by (rewrite length_take; lia).
  rewrite length_take, drop_replicate.
  replace (a `min` length B)%nat with a by lia.
  replace (take d (take d (drop a B))) with (take d (drop a B))
    by (rewrite take_take; f_equal; lia).
  rewrite app_assoc, take_take_drop.
  do 2 f_equal. f_equal. lia.
Qed.

Lemma pieces_solid (n d : nat) :
  forall (block : list byte) (index : Z),
    solid n d block = true ->
    pieces n d block index
    = match n with
      | O => []
      | S n' =>
          {| backup.Block := take d block; backup.Index := index |}
          :: pieces n' d (drop d block) (index + 1)
      end.
Proof.
  destruct n as [|n]; intros block index Hs; [reflexivity|].
  cbn [solid] in Hs. apply andb_true_iff in Hs as [Hn _].
  apply negb_true_iff in Hn. cbn [pieces]. rewrite Hn. reflexivity.
Qed.

Section Restore.

Variables pieceBS blockBS ratio : Z.
Hypothesis pieceBS_pos : 0 < pieceBS.
Hypothesis ratio_pos : 0 < ratio.
Hypothesis blockBS_ratio : blockBS = ratio * pieceBS.
Hypothesis blockBS_max : blockBS <= Int64.max_signed.

Local Abbreviation ibfOf := (backup.inflationBlockFetcher backup.listBlockFetcher).

Lemma fill_group (ibf : ibfOf) (p : backup.blockIndexPair)
    (tail : list backup.blockIndexPair) :
  backup.srcBS ibf = pieceBS ->
  backup.dstBS ibf = blockBS ->
  backup.ratio ibf = ratio ->
  sourceBlock blockBS ratio p ->
  forall (n j : nat) (fuel : nat),
    (1 <= j)%nat ->
    (j + n = Z.to_nat ratio)%nat ->
    (n <= fuel)%nat ->
    solid n (Z.to_nat pieceBS) (drop (j * Z.to_nat pieceBS) (backup.Block p))
    = true ->
    backup.fillLoop fuel ibf
      (pieces n (Z.to_nat pieceBS)
         (drop (j * Z.to_nat pieceBS) (backup.Block p))
         (backup.Index p * ratio + Z.of_nat j) ++ tail)
      (take (j * Z.to_nat pieceBS) (backup.Block p)
       ++ replicate (length (backup.Block p) - j * Z.to_nat pieceBS) "000"%byte)
      (Z.of_nat j * pieceBS) (backup.Index p * ratio + Z.of_nat j - 1)
    = Return (inl p, backup.withCache ibf tail None blockBS
                       (backup.Index p * ratio + ratio - 1)).
Proof.
  intros Hsrc Hdst Hratio (Hlen & Hidx & Hmax).
  set (d := Z.to_nat pieceBS). set (B := backup.Block p) in *.
  set (I := backup.Index p) in *.
  assert (length B = (Z.to_nat ratio * d)%nat) as HlenB by (unfold d; nia).
  induction n as [|n IH]; intros j fuel Hj Hjn Hfuel Hsolid.
  - (* the destination block is full *)
    assert (Z.of_nat j = ratio) as Hjr by lia.
    assert ((Z.of_nat j * pieceBS <? blockBS) = false) as Hfull
      by (apply Z.ltb_ge; nia).
    cbn [pieces app].
    assert (backup.fillLoop fuel ibf tail
              (take (j * d) B ++ replicate (length B - j * d) "000"%byte)
              (Z.of_nat j * pieceBS) (I * ratio + Z.of_nat j - 1)
            = backup.emit ibf tail
                (take (j * d) B ++ replicate (length B - j * d) "000"%byte)
                (Z.of_nat j * pieceBS) (I * ratio + Z.of_nat j - 1)) as ->.
    { destruct fuel; cbn [backup.fillLoop]; rewrite Hdst, Hfull; reflexivity. }
    unfold backup.emit. rewrite Hratio.
    destruct (ratio =? 0) eqn:E; [apply Z.eqb_eq in E; lia|].
    rewrite firstn_all2 by lia.
    replace (length B - j * d)%nat with 0%nat by lia.
    cbn [replicate]. rewrite app_nil_r.
    replace (Z.quot (I * ratio + Z.of_nat j - 1) ratio) with I.
    2:{ apply Z.quot_unique with (r := ratio - 1); nia. }
    replace (Z.of_nat j * pieceBS) with blockBS by nia.
    replace (I * ratio + Z.of_nat j - 1) with (I * ratio + ratio - 1) by lia.
    subst B I. destruct p. reflexivity.
  - (* one more piece is copied *)
    destruct fuel as [|fuel]; [lia|].
    rewrite (pieces_solid (S n) d _ _ Hsolid).
    cbn [solid] in Hsolid. apply andb_true_iff in Hsolid as [_ Hsolid].
    cbn [backup.fillLoop app backup.FetchBlock
         backup.listBlockFetcher_blockFetcher mbind outcome_bind obind
         backup.Index backup.Block].
    rewrite Hdst, Hsrc.
    assert ((Z.of_nat j * pieceBS <? blockBS) = true) as ->
      by (apply Z.ltb_lt; nia).
    replace (I * ratio + Z.of_nat j - (I * ratio + Z.of_nat j - 1)) with 1 by lia.
    change (Int64.signed 1) with 1. change (1 <? 1) with false.
    rewrite andb_false_r. cbn [andb].
    assert (Int64.signed (Z.of_nat j * pieceBS + pieceBS)
            = Z.of_nat j * pieceBS + pieceBS) as ->.
    { apply Int64_signed_small. unfold Int64.in_range, Int64.min_signed.
      unfold Int64.max_signed in *. nia. }
    replace (Z.of_nat j * pieceBS) with (Z.of_nat (j * d)) by (unfold d; nia).
    replace (Z.of_nat (j * d) + pieceBS) with (Z.of_nat (j * d) + Z.of_nat d)
      by (unfold d; lia).
    rewrite copyInto_next by nia.
    cbn [mbind outcome_bind obind].
    specialize (IH (S j) fuel ltac:(lia) ltac:(lia) ltac:(lia)).
    replace (S j * d)%nat with (j * d + d)%nat in IH by lia.
    rewrite <- drop_drop in IH. specialize (IH Hsolid).
    replace (Z.of_nat (S j) * pieceBS) with (Z.of_nat (j * d) + Z.of_nat d) in IH
      by (unfold d; nia).
    replace (I * ratio + Z.of_nat (S j)) with (I * ratio + Z.of_nat j + 1) in IH
      by lia.
    replace (I * ratio + Z.of_nat j + 1 - 1) with (I * ratio + Z.of_nat j) in IH
      by lia.
    exact IH.
Qed.

Lemma FetchBlock_group (ibf : ibfOf) (p : backup.blockIndexPair)
    (tail : list backup.blockIndexPair) (fuel : nat) :
  backup.srcBS ibf = pieceBS ->
  backup.dstBS ibf = blockBS ->
  backup.ratio ibf = ratio ->
  backup.cache_output ibf = None ->
  backup.in_ ibf
  = pieces (Z.to_nat ratio) (Z.to_nat pieceBS) (backup.Block p)
      (backup.Index p * ratio) ++ tail ->
  sourceBlock blockBS ratio p ->
  solid (Z.to_nat ratio) (Z.to_nat pieceBS) (backup.Block p) = true ->
  (Z.to_nat ratio <= fuel)%nat ->
  backup.inflationBlockFetcher_FetchBlock fuel ibf
  = Return (inl p, backup.withCache ibf tail None blockBS
                     (backup.Index p * ratio + ratio - 1)).
Proof.
  intros Hsrc Hdst Hratio Hcache Hin Hp Hsolid Hfuel.
  pose proof Hp as (Hlen & Hidx & Hmax).
  unfold backup.inflationBlockFetcher_FetchBlock. rewrite Hcache, Hin.
  destruct (Z.to_nat ratio) as [|n] eqn:Hn; [lia|].
  rewrite (pieces_solid (S n) _ _ _ Hsolid).
  cbn [app backup.FetchBlock backup.listBlockFetcher_blockFetcher
       mbind outcome_bind obind backup.Index backup.Block].
  rewrite Hdst, Hsrc, Hratio. unfold backup.make.
  destruct (blockBS <? 0) eqn:E; [apply Z.ltb_lt in E; nia|].
  cbn [mbind outcome_bind obind].
  destruct (ratio =? 0) eqn:E0; [apply Z.eqb_eq in E0; lia|].
  rewrite Z.rem_mul by lia. change (0 * pieceBS) with 0.
  change (Int64.signed 0) with 0. rewrite Z.add_0_l.
  assert (Int64.signed pieceBS = pieceBS) as ->.
  { apply Int64_signed_small. unfold Int64.in_range, Int64.min_signed.
    unfold Int64.max_signed in *. nia. }
  set (d := Z.to_nat pieceBS). set (B := backup.Block p) in *.
  assert (length B = (S n * d)%nat) as HlenB by (unfold d; nia).
  replace (Z.to_nat blockBS) with (length B) by lia.
  pose proof (copyInto_next B 0 d ltac:(nia)) as Hcopy.
  change (take 0 B) with (@nil byte) in Hcopy.
  change (drop 0 B) with B in Hcopy.
  cbn [app] in Hcopy. rewrite Nat.sub_0_r, Nat.add_0_l in Hcopy.
  change (Z.of_nat 0) with 0 in Hcopy. rewrite Z.add_0_l in Hcopy.
  replace (Z.of_nat d) with pieceBS in Hcopy by (unfold d; lia).
  rewrite Hcopy. cbn [mbind outcome_bind obind].
  pose proof (fill_group ibf p tail Hsrc Hdst Hratio Hp n 1%nat fuel
                ltac:(lia) ltac:(lia) ltac:(lia)) as Hfill.
  fold d B in Hfill. rewrite Nat.mul_1_l in Hfill.
  cbn [solid] in Hsolid. apply andb_true_iff in Hsolid as [_ Hsolid].
  specialize (Hfill Hsolid).
  replace (Z.of_nat 1 * pieceBS) with pieceBS in Hfill by lia.
  replace (backup.Index p * ratio + Z.of_nat 1 - 1) with (backup.Index p * ratio)
    in Hfill by lia.
  replace (backup.Index p * ratio + Z.of_nat 1) with (backup.Index p * ratio + 1)
    in Hfill by lia.
  exact Hfill.
Qed.

Lemma fetchAll_restore (fuel : nat) :
  (Z.to_nat ratio <= fuel)%nat ->
  forall (source : list backup.blockIndexPair) (calls : nat) (ibf : ibfOf),
    backup.srcBS ibf = pieceBS ->
    backup.dstBS ibf = blockBS ->
    backup.ratio ibf = ratio ->
    backup.cache_output ibf = None ->
    backup.in_ ibf = deflated ratio pieceBS source ->
    Forall (sourceBlock blockBS ratio) source ->
    Forall (fun p => solid (Z.to_nat ratio) (Z.to_nat pieceBS) (backup.Block p)
                     = true) source ->
    (length source < calls)%nat ->
    fetchAll (H := backup.inflationBlockFetcher_blockFetcher fuel) calls ibf
    = Return (source, None).
Proof.
  intros Hfuel.
  induction source as [|p source IH];
    intros calls ibf Hsrc Hdst Hratio Hcache Hin Hblocks Hsolid Hcalls;
    (destruct calls as [|calls]; [cbn [length] in Hcalls; lia|]);
    rewrite fetchAll_S;
    change (backup.FetchBlock ibf)
      with (backup.inflationBlockFetcher_FetchBlock fuel ibf).
  - unfold backup.inflationBlockFetcher_FetchBlock. rewrite Hcache, Hin.
    reflexivity.
  - rewrite (FetchBlock_group ibf p (deflated ratio pieceBS source) fuel
               Hsrc Hdst Hratio Hcache Hin
               (Forall_inv Hblocks) (Forall_inv Hsolid) Hfuel).
    cbn [mbind outcome_bind obind].
    rewrite IH; [reflexivity| | | | | | | |]; try reflexivity; try assumption.
    + exact (Forall_inv_tail Hblocks).
    + exact (Forall_inv_tail Hsolid).
    + cbn [length] in Hcalls. lia.
Qed.

End Restore.

Lemma pieces_length (n d : nat) :
  forall (block : list byte) (index : Z),
    (length (pieces n d block index) <= n)%nat.
Proof.
  induction n as [|n IH]; intros block index; cbn [pieces]; [cbn; lia|].
  rewrite length_app. specialize (IH (drop d block) (index + 1)).
  destruct (backup.isNilBlock _); cbn [length]; lia.
Qed.

Lemma deflated_length (ratio dstBS : Z) (source : list backup.blockIndexPair) :
  (length (deflated ratio dstBS source) <= length source * Z.to_nat ratio)%nat.
Proof.
  unfold deflated. induction source as [|p source IH]; cbn [flat_map length];
    [lia|].
  rewrite length_app.
  pose proof (pieces_length (Z.to_nat ratio) (Z.to_nat dstBS) (backup.Block p)
                (backup.Index p * ratio)).
  lia.
Qed.

(** Inflation undoes deflation: when the blocks of a source, of
    [blockBS] = [ratio * pieceBS] bytes each, have no piece of [pieceBS]
    bytes that holds zeros only, the deflation fetcher over the source ends
    without an error, and the inflation fetcher over the stream it gave
    yields the blocks of the source again, with their indices, in the same
    order, and ends without an error. *)
Theorem inflation_restores_deflated_blocks
    (source : list backup.blockIndexPair) (blockBS pieceBS ratio : Z)
    (fuel calls : nat) :
  0 < pieceBS ->
  0 < ratio ->
  blockBS = ratio * pieceBS ->
  blockBS <= Int64.max_signed ->
  Forall (sourceBlock blockBS ratio) source ->
  Forall (fun p => solid (Z.to_nat ratio) (Z.to_nat pieceBS) (backup.Block p)
                   = true) source ->
  (length source * (Z.to_nat ratio + 1) < fuel)%nat ->
  (length source * Z.to_nat ratio < calls)%nat ->
  exists small : list backup.blockIndexPair,
    deflateAll fuel calls source blockBS pieceBS = Return (small, None)
    /\ inflateAll fuel calls small pieceBS blockBS = Return (source, None).
Proof.
  intros Hd Hr Hs Hmax Hblocks Hsolid Hfuel Hcalls.
  exists (deflated ratio pieceBS source). split.
  - unfold deflateAll, backup.newDeflationBlockFetcher.
    destruct (pieceBS =? 0) eqn:E; [apply Z.eqb_eq in E; lia|].
    cbn [mbind outcome_bind obind].
    assert (Z.quot blockBS pieceBS = ratio) as ->
      by (subst blockBS; apply Z.quot_mul; lia).
    assert (Int64.signed ratio = ratio) as ->.
    { apply Int64_signed_small. unfold Int64.in_range, Int64.min_signed.
      unfold Int64.max_signed in *. nia. }
    apply (fetchAll_deflating blockBS pieceBS ratio Hd Hr Hs fuel calls _
             0%nat source).
    + unfold deflating. cbn. repeat split; try assumption; lia.
    + lia.
    + pose proof (deflated_length ratio pieceBS source). cbn [pieces app]. lia.
  - destruct source as [|p source].
    + destruct calls as [|calls]; [cbn [length] in Hcalls; lia|].
      unfold inflateAll, backup.newInflationBlockFetcher.
      destruct (pieceBS =? 0) eqn:E; [apply Z.eqb_eq in E; lia|].
      reflexivity.
    + unfold inflateAll, backup.newInflationBlockFetcher.
      destruct (pieceBS =? 0) eqn:E; [apply Z.eqb_eq in E; lia|].
      cbn [mbind outcome_bind obind].
      apply (fetchAll_restore pieceBS blockBS ratio Hd Hr Hs Hmax fuel);
        try reflexivity; try assumption.
      * cbn [length] in Hfuel. lia.
      * cbn [backup.ratio]. subst blockBS. apply Z.quot_mul. lia.
      * cbn [length] in *. nia.
Qed.

Lemma inflation_restores_deflated_blocks_witness :
  exists small : list backup.blockIndexPair,
    deflateAll 8 8 [ {| backup.Block := blockA ++ blockB; backup.Index := 3 |} ]
      8 4
    = Return (small, None)
    /\ inflateAll 8 8 small 4 8
       = Return ([ {| backup.Block := blockA ++ blockB; backup.Index := 3 |} ],
                 None).
Proof.
  refine (inflation_restores_deflated_blocks
            [ {| backup.Block := blockA ++ blockB; backup.Index := 3 |} ]
            8 4 2 8 8 _ _ _ _ _ _ _ _).
  - lia.
  - lia.
  - reflexivity.
  - unfold Int64.max_signed. lia.
  - constructor; [|constructor].
    split; [reflexivity|]. split; [cbn; lia|]. unfold Int64.max_signed. cbn. lia.
  - constructor; [reflexivity|constructor].
  - cbn. lia.
  - cbn. lia.
Defined.
(** ** The clusters of package storage *)

Section StorageClusters.

Context {Store command : Type}.
Variable dial : config.StorageServerConfig -> Store -> option error.
Variable exec : command -> config.StorageServerConfig -> Store ->
                (ardb.Reply * option error) * Store.

Local Abbreviation StorageAction := (@ardb.StorageAction command).
Local Abbreviation state := (@storage.state Store).

Lemma online_predicate_Return (servers : list config.StorageServerConfig)
    (i : Z) (ok : bool) (e : option error) :
  (cfg ← ardb.at_index servers i;
   Return (bool_decide (config.State cfg = config.StorageServerStateOnline),
           (None : option error)))
  = Return (ok, e) ->
  e = None
  /\ exists cfg, ardb.at_index servers i = Return cfg
       /\ servers !! Z.to_nat i = Some cfg
       /\ ok = bool_decide (isOnline cfg).
Proof.
  intros H0.
  destruct (ardb.at_index servers i) as [cfg| |] eqn:E;
    simpl in H0; try discriminate.
  injection H0 as <- <-. split; [reflexivity|]. exists cfg.
  split; [reflexivity|]. apply at_index_Return in E as [_ E].
  split; [exact E|reflexivity].
Qed.

(** The outcome of a dial and an action with its broadcast: a success
    broadcasts nothing, a failure is broadcast once, with the status of the
    error and the server it is about, and returns the nil reply. *)
Lemma dialDoBroadcast_spec (cfg : config.StorageServerConfig)
    (action : StorageAction) (s s' : state) (r : ardb.Reply * option error) :
  storage.dialDoBroadcast dial exec cfg action s = (r, s') ->
  ardb.dialed (storage.network s') = ardb.dialed (storage.network s) ++ [cfg]
  /\ ((exists reply, r = (reply, None)
         /\ storage.broadcasts s' = storage.broadcasts s)
      \/ (exists e, r = (ardb.nilReply, Some e)
            /\ storage.broadcasts s'
               = storage.broadcasts s
                 ++ [(storage.mapErrorToBroadcastStatus e, cfg)])).
Proof.
  unfold storage.dialDoBroadcast.
  pose proof (dialAndDo_dialed dial exec cfg action (storage.network s)) as Hd.
  destruct (ardb.dialAndDo dial exec cfg action (storage.network s))
    as [[reply [e|]] w1]; simpl in Hd; intros [= <- <-]; simpl.
  - split; [exact Hd|]. right. exists e. split; reflexivity.
  - split; [exact Hd|]. left. exists reply. split; reflexivity.
Qed.

(** Whenever [TemplateCluster.DoFor] returns on a cluster that has servers,
    it has dialed exactly one server, a server of the cluster that is
    Online; when the dial and the action succeed nothing is broadcast and
    the reply is returned; when one of them fails the nil reply and the
    error are returned and exactly one message is broadcast, about that
    server, with the status [mapErrorToBroadcastStatus] gives the error. *)
Theorem TemplateCluster_DoFor_broadcasts (fuel : nat)
    (tsc : storage.TemplateCluster) (objectIndex : Z) (action : StorageAction)
    (s s' : state) (r : ardb.Reply * option error) :
  storage.serverCount tsc <> 0 ->
  storage.TemplateCluster_DoFor dial exec fuel tsc objectIndex action s
  = Return (r, s') ->
  exists cfg : config.StorageServerConfig,
    cfg ∈ storage.servers tsc
    /\ isOnline cfg
    /\ ardb.dialed (storage.network s')
       = ardb.dialed (storage.network s) ++ [cfg]
    /\ ((exists reply, r = (reply, None)
           /\ storage.broadcasts s' = storage.broadcasts s)
        \/ (exists e, r = (ardb.nilReply, Some e)
              /\ storage.broadcasts s'
                 = storage.broadcasts s
                   ++ [(storage.mapErrorToBroadcastStatus e, cfg)])).
Proof.
  intros Hn H0. unfold storage.TemplateCluster_DoFor in H0.
  destruct (storage.serverCount tsc =? 0) eqn:E;
    [apply Z.eqb_eq in E; contradiction|].
  destruct (ardb.ComputeServerIndex _ _ _ _) as [[i e]| |] eqn:Hc;
    cbn [mbind outcome_bind obind] in H0; try discriminate.
  apply ComputeServerIndex_returns_settled in Hc as (ok & Hp & Hs).
  apply online_predicate_Return in Hp as (-> & cfg & Hat & Hl & ->).
  rewrite settled_None in Hs. apply bool_decide_eq_true in Hs.
  rewrite Hat in H0. cbn [mbind outcome_bind obind] in H0.
  injection H0 as H0. apply dialDoBroadcast_spec in H0 as [Hd Hb].
  exists cfg. split; [eapply list_elem_of_lookup_2; exact Hl|].
  split; [exact Hs|]. split; [exact Hd|exact Hb].
Qed.

Lemma findFirstFrom_online (servers : list config.StorageServerConfig) :
  forall (rest pre : list config.StorageServerConfig),
    servers = pre ++ rest ->
    Forall (fun s => ~ isOnline s) pre ->
    let p : ardb.ServerIndexPredicate :=
      fun index =>
        cfg ← ardb.at_index servers index;
        Return (bool_decide (config.State cfg = config.StorageServerStateOnline),
                None) in
    (Forall (fun s => ~ isOnline s) rest ->
     ardb.findFirstFrom (length rest) (Z.of_nat (length pre)) p
     = Return (-1, Some ErrNoServersAvailable))
    /\ (forall mid srv post,
          rest = mid ++ srv :: post ->
          Forall (fun s => ~ isOnline s) mid ->
          isOnline srv ->
          ardb.findFirstFrom (length rest) (Z.of_nat (length pre)) p
          = Return (Z.of_nat (length pre + length mid), None)
          /\ ardb.at_index servers (Z.of_nat (length pre + length mid))
             = Return srv).
Proof.
  intros rest pre Hs Hpre p.
  assert (Hat : forall (a b : list config.StorageServerConfig) x,
            servers = a ++ x :: b ->
            ardb.at_index servers (Z.of_nat (length a)) = Return x).
  { intros a b x ->. apply at_index_Return. rewrite length_app, Nat2Z.id.
    simpl length. split; [lia|].
    rewrite lookup_app_r by lia. rewrite Nat.sub_diag. reflexivity. }
  split.
  - intros Hrest. apply findFirstFrom_none. intros j Hj.
    assert (exists x, servers !! Z.to_nat j = Some x /\ ~ isOnline x)
      as (x & Hx & Hoff).
    { destruct (lookup_lt_is_Some_2 rest (Z.to_nat j - length pre)%nat
                  ltac:(lia)) as [x Hx].
      exists x. split.
      - rewrite Hs, lookup_app_r by lia. exact Hx.
      - eapply (proj1 (Forall_lookup _ _) Hrest). exact Hx. }
    unfold p. rewrite (proj2 (at_index_Return servers j x)).
    + cbn. rewrite bool_decide_eq_false_2 by exact Hoff. reflexivity.
    + split; [|exact Hx]. rewrite Hs, length_app. lia.
  - intros mid srv post Hrest Hmid Hon. subst rest.
    assert (servers = (pre ++ mid) ++ srv :: post) as Hs'
      by (rewrite Hs, app_assoc; reflexivity).
    pose proof (Hat _ _ _ Hs') as Hsrv. rewrite length_app in Hsrv.
    split; [|exact Hsrv].
    apply findFirstFrom_first.
    + rewrite !length_app. simpl length. lia.
    + unfold p. rewrite Hsrv. cbn.
      rewrite bool_decide_eq_true_2 by exact Hon. reflexivity.
    + intros j Hj.
      assert (exists x, servers !! Z.to_nat j = Some x /\ ~ isOnline x)
        as (x & Hx & Hoff).
      { destruct (lookup_lt_is_Some_2 mid (Z.to_nat j - length pre)%nat
                    ltac:(lia)) as [x Hx].
        exists x. split.
        - rewrite Hs, lookup_app_r by lia. rewrite lookup_app_l by lia.
          exact Hx.
        - eapply (proj1 (Forall_lookup _ _) Hmid). exact Hx. }
      unfold p. rewrite (proj2 (at_index_Return servers j x)).
      * cbn. rewrite bool_decide_eq_false_2 by exact Hoff. reflexivity.
      * split; [|exact Hx]. rewrite Hs, !length_app. simpl length. lia.
Qed.

(** [PrimaryCluster.Do], on the servers of the cluster config last taken
    over by [updatePrimaryStorageConfig]: without an Online server it fails
    with [ErrNoServersAvailable] and neither dials nor broadcasts; otherwise
    it dials the first Online server of the config, whatever states the
    servers before it are in, and broadcasts a failure. [DoFor] has no guard
    for a config without servers: it panics on the modulo by zero. *)
Theorem PrimaryCluster_Do_first_online (pc : storage.PrimaryCluster)
    (cfg : config.StorageClusterConfig) (action : StorageAction) (s : state) :
  let pc' := storage.updatePrimaryStorageConfig pc cfg in
  (Forall (fun srv => ~ isOnline srv) (config.Servers cfg) ->
   storage.PrimaryCluster_Do dial exec pc' action s
   = Return ((ardb.nilReply, Some ErrNoServersAvailable), s))
  /\ (forall pre srv post,
        config.Servers cfg = pre ++ srv :: post ->
        Forall (fun srv => ~ isOnline srv) pre ->
        isOnline srv ->
        storage.PrimaryCluster_Do dial exec pc' action s
        = Return (storage.dialDoBroadcast dial exec srv action s))
  /\ (config.Servers cfg = [] ->
      forall (fuel : nat) (objectIndex : Z),
        storage.PrimaryCluster_DoFor dial exec fuel pc' objectIndex action s
        = Panic "integer divide by zero").
Proof.
  intros pc'. subst pc'.
  destruct (findFirstFrom_online (config.Servers cfg) (config.Servers cfg) []
              eq_refl ltac:(constructor)) as [Hnone Hsome].
  change (Z.of_nat (length (@nil config.StorageServerConfig))) with 0 in *.
  split; [|split].
  - intros Hoff. unfold storage.PrimaryCluster_Do, ardb.FindFirstServerIndex.
    unfold storage.PrimaryCluster_serverIsOnline, storage.PrimaryCluster_doAt,
      storage.updatePrimaryStorageConfig.
    cbn [storage.pc_servers storage.pc_serverCount]. rewrite Nat2Z.id.
    rewrite (Hnone Hoff). reflexivity.
  - intros pre srv post Hs Hpre Hon.
    destruct (Hsome pre srv post Hs Hpre Hon) as [Hfind Hat].
    unfold storage.PrimaryCluster_Do, ardb.FindFirstServerIndex.
    unfold storage.PrimaryCluster_serverIsOnline, storage.PrimaryCluster_doAt,
      storage.updatePrimaryStorageConfig.
    cbn [storage.pc_servers storage.pc_serverCount]. rewrite Nat2Z.id.
    rewrite Hfind. cbn [mbind outcome_bind obind].
    rewrite Hat. reflexivity.
  - intros Hs fuel objectIndex.
    unfold storage.PrimaryCluster_DoFor, ardb.ComputeServerIndex,
      storage.updatePrimaryStorageConfig.
    cbn [storage.pc_serverCount]. rewrite Hs. reflexivity.
Qed.

End StorageClusters.

Lemma TemplateCluster_DoFor_broadcasts_witness :
  exists cfg : config.StorageServerConfig,
    cfg ∈ storage.servers templateOfOneRetired
    /\ isOnline cfg
    /\ ardb.dialed (storage.network afterTimeout)
       = ardb.dialed (storage.network quiet) ++ [cfg]
    /\ ((exists reply, (ardb.nilReply, Some (netError true false "i/o timeout"))
                       = (reply, None)
           /\ storage.broadcasts afterTimeout = storage.broadcasts quiet)
        \/ (exists e, (ardb.nilReply, Some (netError true false "i/o timeout"))
                      = (ardb.nilReply, Some e)
              /\ storage.broadcasts afterTimeout
                 = storage.broadcasts quiet
                   ++ [(storage.mapErrorToBroadcastStatus e, cfg)])).
Proof.
  apply (TemplateCluster_DoFor_broadcasts timeoutDial echo 0
           templateOfOneRetired 0 (ardb.Command 7) quiet afterTimeout
           (ardb.nilReply, Some (netError true false "i/o timeout"))).
  - discriminate.
  - reflexivity.
Defined.

Lemma PrimaryCluster_Do_first_online_witness :
  storage.PrimaryCluster_Do acceptAll echo
    (storage.updatePrimaryStorageConfig
       {| storage.pc_vdiskID := "vd"; storage.pc_servers := [];
          storage.pc_serverCount := 0 |}
       retiredFirst)
    (ardb.Command 7) quiet
  = Return (storage.dialDoBroadcast acceptAll echo
              {| config.Address := "10.0.0.2:16379"; config.Database := 0;
                 config.State := config.StorageServerStateOnline |}
              (ardb.Command 7) quiet).
Proof.
  refine (proj1 (proj2 (PrimaryCluster_Do_first_online acceptAll echo
                          {| storage.pc_vdiskID := "vd"; storage.pc_servers := [];
                             storage.pc_serverCount := 0 |}
                          retiredFirst (ardb.Command 7) quiet))
            [ {| config.Address := ""; config.Database := 0;
                 config.State := config.StorageServerStateRIP |} ]
            _ [] _ _ _).
  - reflexivity.
  - constructor; [discriminate|constructor].
  - reflexivity.
Defined.

(** ** The watcher of a storage cluster *)

Section Watcher.

Variable WatchStorageClusterConfig : string -> option error.

(** [SetClusterID] keeps exactly the watcher of the current cluster alive.
    From a state in which the watcher and the contexts agree (such as the
    zero value with no context made), the call never panics and they agree
    again after it. Without an error it returns whether the watcher is
    defined now, its cluster id is the one given, and no key is marked
    invalid. With an error (the watcher for a new, non-empty id could not
    be created) it returns false, the watcher is left as it was, its
    previous context, if any, still live, the context made for the attempt
    is cancelled, and the vdisk's key is marked invalid. *)
Theorem SetClusterID_keeps_one_watcher (scw : storage.storageClusterWatcher)
    (vdiskID clusterID : string) (w : storage.contexts) :
  watching scw w ->
  exists (r : bool * option error) (scw' : storage.storageClusterWatcher)
         (w' : storage.contexts),
    storage.storageClusterWatcher_SetClusterID WatchStorageClusterConfig
      scw vdiskID clusterID w = Return (r, scw', w')
    /\ watching scw' w'
    /\ ((r = (storage.storageClusterWatcher_Defined scw', None)
         /\ storage.clusterID scw' = clusterID
         /\ storage.markedInvalid w' = storage.markedInvalid w)
        \/ (exists e : error,
              r = (false, Some e)
              /\ WatchStorageClusterConfig clusterID = Some e
              /\ scw' = scw
              /\ storage.live w' = storage.live w
              /\ storage.markedInvalid w'
                 = storage.markedInvalid w ++ [vdiskID])).
Proof.
  intros [Hfresh Hown]. unfold storage.storageClusterWatcher_SetClusterID.
  destruct (decide (storage.clusterID scw = clusterID)) as [Heq|Hne].
  - eexists _, _, _. split; [reflexivity|]. split; [split; assumption|].
    left. split; [reflexivity|]. split; [exact Heq|reflexivity].
  - destruct (decide (clusterID = "")) as [->|Hid].
    + destruct (storage.cancel scw) as [c|] eqn:Hc.
      * destruct Hown as [_ Hlive].
        eexists _, _, _. split; [reflexivity|]. split.
        -- split; cbn.
           ++ intros c' Hc'. apply Hfresh.
              apply elem_of_difference in Hc' as [Hc' _]. exact Hc'.
           ++ split; [reflexivity|]. rewrite Hlive. apply set_eq. intros x.
              rewrite elem_of_difference, elem_of_singleton, elem_of_empty.
              tauto.
        -- left. split; [reflexivity|]. split; reflexivity.
      * destruct Hown as [Hid _]. congruence.
    + cbn. destruct (WatchStorageClusterConfig clusterID) as [e|] eqn:Hw.
      * eexists _, _, _. split; [reflexivity|].
        assert (storage.next w ∉ storage.live w) as Hnew
          by (intros Hin; apply Hfresh in Hin; lia).
        assert (({[storage.next w]} ∪ storage.live w) ∖ {[storage.next w]}
                = storage.live w) as Hlive.
        { apply set_eq. intros x.
          rewrite elem_of_difference, elem_of_union, elem_of_singleton.
          split; [intros [[?|?] ?]; [contradiction|assumption]|].
          intros Hx. split; [right; exact Hx|]. intros ->. contradiction. }
        split.
        -- split; cbn.
           ++ rewrite Hlive. intros c Hc. apply Hfresh in Hc. lia.
           ++ rewrite Hlive. exact Hown.
        -- right. exists e. cbn. rewrite Hlive. repeat split.
      * unfold storage.storageClusterWatcher_Defined,
          storage.storageClusterWatcher_Close.
        destruct (storage.cancel scw) as [c0|] eqn:Hcan;
          destruct Hown as [_ Hlive]; cbn;
          eexists _, _, _; (split; [reflexivity|]); cbn.
        -- assert (c0 <> storage.next w) as Hc0.
           { intros ->. specialize (Hfresh (storage.next w)).
             rewrite Hlive in Hfresh.
             specialize (Hfresh ltac:(apply elem_of_singleton; reflexivity)).
             lia. }
           assert (({[storage.next w]} ∪ storage.live w) ∖ {[c0]}
                   = {[storage.next w]}) as Hl.
           { rewrite Hlive. apply set_eq. intros x.
             rewrite elem_of_difference, elem_of_union, !elem_of_singleton.
             split; [intros [[?|?] ?]; congruence|].
             intros ->. split; [left; reflexivity|].
             intros Heq. apply Hc0. symmetry. exact Heq. }
           split.
           ++ split; cbn; rewrite Hl.
              ** intros c Hc. apply elem_of_singleton in Hc. lia.
              ** split; [exact Hid|reflexivity].
           ++ left. rewrite bool_decide_eq_true_2 by exact Hid.
              split; [reflexivity|]. split; reflexivity.
        -- assert ({[storage.next w]} ∪ storage.live w
                   = ({[storage.next w]} : gset nat)) as Hl.
           { rewrite Hlive. apply set_eq. intros x.
             rewrite elem_of_union, elem_of_singleton, elem_of_empty. tauto. }
           split.
           ++ split; cbn; rewrite Hl.
              ** intros c Hc. apply elem_of_singleton in Hc. lia.
              ** split; [exact Hid|reflexivity].
           ++ left. rewrite bool_decide_eq_true_2 by exact Hid.
              split; [reflexivity|]. split; reflexivity.
Qed.

End Watcher.

Lemma SetClusterID_keeps_one_watcher_witness :
  exists (r : bool * option error) (scw' : storage.storageClusterWatcher)
         (w' : storage.contexts),
    storage.storageClusterWatcher_SetClusterID (fun _ => None)
      storage.zeroWatcher "vd" "cluster1" noContexts = Return (r, scw', w')
    /\ watching scw' w'
    /\ ((r = (storage.storageClusterWatcher_Defined scw', None)
         /\ storage.clusterID scw' = "cluster1"
         /\ storage.markedInvalid w' = storage.markedInvalid noContexts)
        \/ (exists e : error,
              r = (false, Some e)
              /\ (fun _ : string => @None error) "cluster1" = Some e
              /\ scw' = storage.zeroWatcher
              /\ storage.live w' = storage.live noContexts
              /\ storage.markedInvalid w'
                 = storage.markedInvalid noContexts ++ ["vd"])).
Proof.
  apply (SetClusterID_keeps_one_watcher (fun _ => None) storage.zeroWatcher
           "vd" "cluster1" noContexts).
  split; cbn; [intros c Hc; apply elem_of_empty in Hc; contradiction|].
  split; reflexivity.
Defined.

(** ** The uni-cluster *)

Section UniCluster.

Context {Store command : Type}.
Variable dial : config.StorageServerConfig -> Store -> option error.
Variable exec : command -> config.StorageServerConfig -> Store ->
                (ardb.Reply * option error) * Store.

Local Abbreviation StorageAction := (@ardb.StorageAction command).
Local Abbreviation net := (@ardb.net Store).

(** [UniCluster.DoForAll] on one pair or more dials the one server of the
    cluster exactly once, whatever the indices of the pairs are, and a
    reply vector it returns has one reply per pair. *)
Theorem UniCluster_DoForAll_one_connection (uni : ardb.UniCluster)
    (pairs : list (ardb.IndexActionPair StorageAction)) (w w' : net)
    (r : option (list ardb.Reply) * option error) :
  pairs <> [] ->
  ardb.UniCluster_DoForAll dial exec uni pairs w = Return (r, w') ->
  ardb.dialed w' = ardb.dialed w ++ [ardb.server uni]
  /\ forall replies : list ardb.Reply,
       r = (Some replies, None) -> length replies = length pairs.
Proof.
  intros Hne H. destruct pairs as [|p0 [|p1 ps]]; [contradiction| |].
  - unfold ardb.UniCluster_DoForAll in H.
    change (ardb.at_index [p0] 0) with (Return p0) in H.
    cbn [mbind outcome_bind obind] in H.
    pose proof (dialAndDo_dialed dial exec (ardb.server uni) (ardb.Action_ p0) w)
      as Hd.
    unfold ardb.UniCluster_DoFor, ardb.UniCluster_Do in H.
    destruct (ardb.dialAndDo dial exec (ardb.server uni) (ardb.Action_ p0) w)
      as [[reply [e|]] w1]; injection H as <- <-; (split; [exact Hd|]).
    + discriminate.
    + intros replies [= <-]. reflexivity.
  - unfold ardb.UniCluster_DoForAll, ardb.UniCluster_Do in H.
    set (actions := map ardb.Action_ (p0 :: p1 :: ps)) in *.
    pose proof (dialAndDo_dialed dial exec (ardb.server uni)
                  (ardb.Commands actions) w) as Hd.
    destruct (ardb.dialAndDo dial exec (ardb.server uni)
                (ardb.Commands actions) w) as [r0 w1] eqn:Hdo.
    injection H as <- <-. split; [exact Hd|].
    intros replies Hv. apply Values_Some in Hv. subst r0.
    apply dialAndDo_Commands_replies in Hdo. rewrite Hdo.
    unfold actions. apply length_map.
Qed.

End UniCluster.

Lemma UniCluster_DoForAll_one_connection_witness :
  ardb.dialed
    {| ardb.store := tt;
       ardb.dialed := [ {| config.Address := "10.0.0.1:16379";
                           config.Database := 0;
                           config.State := config.StorageServerStateOnline |} ] |}
  = ardb.dialed idle
    ++ [ {| config.Address := "10.0.0.1:16379"; config.Database := 0;
            config.State := config.StorageServerStateOnline |} ].
Proof.
  refine (proj1 (UniCluster_DoForAll_one_connection acceptAll echo
                   {| ardb.server :=
                        {| config.Address := "10.0.0.1:16379";
                           config.Database := 0;
                           config.State := config.StorageServerStateOnline |} |}
                   twoPairs idle _
                   (Some [ardb.intReply 10; ardb.intReply 12], None) _ _)).
  - discriminate.
  - reflexivity.
Defined.

